(** * Thorcam: image acquisition pipeline and JSON settings store

    A shallow embedding of [src/ini_camera.py], [src/com.py] and
    [src/path_setup.py].

    - Python exceptions are values of [exn]; a call that can raise returns
      a [result].
    - Methods that mutate [self] are computations in a small state and
      exception monad [M].
    - The vendor SDK (frame polling, colour conversion), numpy, PIL and the
      [json] module are outside the repository: the parts of them the code
      calls are parameters or small models, named after the calls.
    - A thread is a list of passes of its loop ([run]) or a program
      counter stepped among other actions ([watcher_step], [step]).

    The model comes first, the properties after it. *)

From Stdlib Require Import Ascii.
From stdpp Require Import base numbers list strings gmap pretty.

Open Scope Z_scope.

(** ** Exceptions and results *)

Inductive exn_class :=
| QueueFull            (* queue.Full *)
| CameraNotFoundError  (* ini_camera.CameraNotFoundError *)
| FileNotFoundError
| JSONDecodeError      (* json.JSONDecodeError *)
| AttributeError
| TypeError
| ValueError
| IndexError
| OtherError.          (* any other subclass of Exception, e.g. the SDK's *)

Global Instance exn_class_eq_dec : EqDecision exn_class.
Proof. solve_decision. Defined.

(** An exception instance: its class and the text [str(e)] gives. *)
Record exn := Exn { exn_cls : exn_class; exn_msg : string }.

Global Instance exn_eq_dec : EqDecision exn.
Proof. solve_decision. Defined.

Inductive result (A : Type) :=
| Ok (a : A)
| Raise (e : exn).
Arguments Ok {A} a.
Arguments Raise {A} e.

(** ** State and exception monad

    [M S A] is a method body running on an object of type [S]: it returns
    the object as the body left it, also when the body raised. *)

Definition M (S A : Type) : Type := S → S * result A.

Definition ret {S A} (a : A) : M S A := λ s, (s, Ok a).
Definition raise {S A} (e : exn) : M S A := λ s, (s, Raise e).
Definition bind {S A B} (m : M S A) (k : A → M S B) : M S B :=
  λ s, match m s with
       | (s', Ok a) => k a s'
       | (s', Raise e) => (s', Raise e)
       end.
Definition gets {S A} (f : S → A) : M S A := λ s, (s, Ok (f s)).
Definition modify {S} (f : S → S) : M S unit := λ s, (f s, Ok tt).
Definition call {S A} (r : result A) : M S A := λ s, (s, r).

Notation "'let!' x ':=' m 'in' k" := (bind m (λ x, k))
  (at level 10, x name, m at level 100, k at level 200).
Notation "m ';;;' k" := (bind m (λ _, k))
  (at level 100, k at level 200, right associativity).

(** ** numpy arrays, PIL images, frames *)

Inductive dtype := uint8 | uint16.

(** [numpy.ndarray]: the shape tuple and the elements in row-major order. *)
Record ndarray := { shape : list Z; dt : dtype; data : list Z }.

(** [a.size]: the number of elements. *)
Definition ndarray_size (a : ndarray) : Z := Z.of_nat (length (data a)).

(** [a.shape[i]]; a tuple index out of range raises IndexError. *)
Definition shape_at (a : ndarray) (i : nat) : result Z :=
  match shape a !! i with
  | Some d => Ok d
  | None => Raise (Exn IndexError "tuple index out of range")
  end.

(** [a.reshape(d0, d1, d2)]: the same elements under a new shape, or
    ValueError when the element count does not fit. *)
Definition reshape (a : ndarray) (d0 d1 d2 : Z) : result ndarray :=
  if ndarray_size a =? d0 * d1 * d2
  then Ok {| shape := [d0; d1; d2]; dt := dt a; data := data a |}
  else Raise (Exn ValueError "cannot reshape array").

Inductive image_mode := L | I16 | RGB.


(** [PIL.Image.Image]: mode, size as (width, height), and the channel
    values, [bands] of them per pixel. *)
Record Image := {
  im_mode : image_mode;
  im_width : Z;
  im_height : Z;
  im_data : list Z
}.

Global Instance dtype_eq_dec : EqDecision dtype.
Proof. solve_decision. Defined.
Global Instance image_mode_eq_dec : EqDecision image_mode.
Proof. solve_decision. Defined.
Global Instance Image_eq_dec : EqDecision Image.
Proof. solve_decision. Defined.

(** [Image.fromarray(obj)] on a 2-D array: one band, mode from the dtype;
    the array's shape is (rows, columns) = (height, width). *)
Definition fromarray (obj : ndarray) : result Image :=
  match shape obj with
  | [h; w] =>
      Ok {| im_mode := match dt obj with uint8 => L | uint16 => I16 end;
            im_width := w; im_height := h; im_data := data obj |}
  | [h; w; 3] =>
      match dt obj with
      | uint8 => Ok {| im_mode := RGB; im_width := w; im_height := h;
                       im_data := data obj |}
      | uint16 => Raise (Exn TypeError "Cannot handle this data type")
      end
  | _ => Raise (Exn TypeError "Cannot handle this data type")
  end.

(** [Image.fromarray(obj, mode='RGB')]: a 3-D array of three bands. *)
Definition fromarray_RGB (obj : ndarray) : result Image :=
  match shape obj with
  | [h; w; 3] =>
      Ok {| im_mode := RGB; im_width := w; im_height := h;
            im_data := data obj |}
  | _ => Raise (Exn ValueError "Too many dimensions")
  end.

(** [thorlabs_tsi_sdk.tl_camera.Frame]: the code reads [image_buffer] only. *)
Record Frame := { image_buffer : ndarray }.

Inductive SENSOR_TYPE := MONOCHROME | BAYER | MONOCHROME_POLARIZED.

Global Instance SENSOR_TYPE_eq_dec : EqDecision SENSOR_TYPE.
Proof. solve_decision. Defined.

(** The attributes of a [TLCamera] that the code reads. *)
Record TLCamera := {
  camera_sensor_type : SENSOR_TYPE;
  image_width_pixels : Z;
  image_height_pixels : Z;
  bit_depth : Z
}.

(** ** queue.Queue *)

Record Queue := { maxsize : Z; items : list Image }.

Definition qsize (q : Queue) : Z := Z.of_nat (length (items q)).

(** [Queue.full()]: a queue with [maxsize <= 0] is never full. *)
Definition full (q : Queue) : bool :=
  (0 <? maxsize q) && (maxsize q <=? qsize q).

(** [Queue.put_nowait(item)]. *)
Definition put_nowait (q : Queue) (item : Image) : result Queue :=
  if full q then Raise (Exn QueueFull "")
  else Ok {| maxsize := maxsize q; items := items q ++ [item] |}.

(** [n] calls of [get_nowait] by the consumer side, oldest entries first. *)
Definition consume (n : nat) (q : Queue) : Queue :=
  {| maxsize := maxsize q; items := drop n (items q) |}.

(** ** ImageAcquisitionThread ([src/ini_camera.py], lines 28-135) *)

(** The object's attributes, with what the thread writes to the outside:
    the payloads sent through [self._signal.new_image.emit] and the lines
    printed. [_image_width] and [_image_height] exist on a colour thread
    only; on a monochrome one they are never read and stay 0 here. *)
Record ImageAcquisitionThread := {
  _image_queue : Queue;
  _signal : bool;                 (* a signal object was given *)
  _is_color : bool;
  _image_width : Z;
  _image_height : Z;
  processor_disposed : bool;      (* _mono_to_color_processor.dispose() returned *)
  sdk_disposed : bool;            (* _mono_to_color_sdk.dispose() returned *)
  emitted : list bool;
  stdout : list string
}.

Definition set_queue (q : Queue) (t : ImageAcquisitionThread) :=
  {| _image_queue := q; _signal := _signal t; _is_color := _is_color t;
     _image_width := _image_width t; _image_height := _image_height t;
     processor_disposed := processor_disposed t;
     sdk_disposed := sdk_disposed t;
     emitted := emitted t; stdout := stdout t |}.

Definition set_dims (w h : Z) (t : ImageAcquisitionThread) :=
  {| _image_queue := _image_queue t; _signal := _signal t;
     _is_color := _is_color t;
     _image_width := w; _image_height := h;
     processor_disposed := processor_disposed t;
     sdk_disposed := sdk_disposed t;
     emitted := emitted t; stdout := stdout t |}.

Definition emit (b : bool) (t : ImageAcquisitionThread) :=
  {| _image_queue := _image_queue t; _signal := _signal t;
     _is_color := _is_color t;
     _image_width := _image_width t; _image_height := _image_height t;
     processor_disposed := processor_disposed t;
     sdk_disposed := sdk_disposed t;
     emitted := emitted t ++ [b]; stdout := stdout t |}.

Definition print (line : string) (t : ImageAcquisitionThread) :=
  {| _image_queue := _image_queue t; _signal := _signal t;
     _is_color := _is_color t;
     _image_width := _image_width t; _image_height := _image_height t;
     processor_disposed := processor_disposed t;
     sdk_disposed := sdk_disposed t;
     emitted := emitted t; stdout := stdout t ++ [line] |}.

Definition set_processor_disposed (t : ImageAcquisitionThread) :=
  {| _image_queue := _image_queue t; _signal := _signal t;
     _is_color := _is_color t;
     _image_width := _image_width t; _image_height := _image_height t;
     processor_disposed := true; sdk_disposed := sdk_disposed t;
     emitted := emitted t; stdout := stdout t |}.

Definition set_sdk_disposed (t : ImageAcquisitionThread) :=
  {| _image_queue := _image_queue t; _signal := _signal t;
     _is_color := _is_color t;
     _image_width := _image_width t; _image_height := _image_height t;
     processor_disposed := processor_disposed t; sdk_disposed := true;
     emitted := emitted t; stdout := stdout t |}.

(** [__init__], lines 43-74. *)
Definition ImageAcquisitionThread_init
    (camera : TLCamera) (shared_queue : option Queue) (signal : bool)
    : ImageAcquisitionThread :=
  let q := match shared_queue with
           | Some q => q
           | None => {| maxsize := 2; items := [] |}
           end in
  if decide (camera_sensor_type camera ≠ BAYER) then
    {| _image_queue := q; _signal := signal; _is_color := false;
       _image_width := 0; _image_height := 0;
       processor_disposed := false; sdk_disposed := false;
       emitted := []; stdout := [] |}
  else
    {| _image_queue := q; _signal := signal; _is_color := true;
       _image_width := image_width_pixels camera;
       _image_height := image_height_pixels camera;
       processor_disposed := false; sdk_disposed := false;
       emitted := []; stdout := [] |}.

Definition get_output_queue (t : ImageAcquisitionThread) : Queue :=
  _image_queue t.

Inductive control := Continue | Break.

(** What one pass of the [while] loop meets: how many images the consumer
    took off the queue since the previous pass, and what
    [get_pending_frame_or_null()] answers. *)
Record tick := {
  consumer_gets : nat;
  poll : result (option Frame)
}.

Section acquisition.

(** [transform_to_24(buffer, width, height)] of the thread's own
    [_mono_to_color_processor], the vendor's demosaicing: a flat array of
    8-bit channel values. The processor is the one [__init__] made from the
    camera's calibration; one thread has one processor. *)
Variable transform_to_24 : ndarray → Z → Z → result ndarray.

(** What [_mono_to_color_processor.dispose()] and
    [_mono_to_color_sdk.dispose()] answer. *)
Variable processor_dispose : result unit.
Variable color_sdk_dispose : result unit.

(** [_get_color_image], lines 83-98. *)
Definition _get_color_image (frame : Frame) : M ImageAcquisitionThread Image :=
  let! width := call (shape_at (image_buffer frame) 1) in
  let! height := call (shape_at (image_buffer frame) 0) in
  let! w0 := gets _image_width in
  let! h0 := gets _image_height in
  (if bool_decide (width ≠ w0) || bool_decide (height ≠ h0) then
     modify (set_dims width height) ;;;
     modify (print "Image dimension change detected, image acquisition thread was updated")
   else ret tt) ;;;
  let! w := gets _image_width in
  let! h := gets _image_height in
  let! color_image_data := call (transform_to_24 (image_buffer frame) w h) in
  let! color_image_data := call (reshape color_image_data h w 3) in
  call (fromarray_RGB color_image_data).

(** [_get_image], lines 100-103. *)
Definition _get_image (frame : Frame) : M ImageAcquisitionThread Image :=
  let scaled_image := image_buffer frame in
  call (fromarray scaled_image).

(** [self._image_queue.put_nowait(pil_image)] on the thread's queue. *)
Definition enqueue (pil_image : Image) : M ImageAcquisitionThread unit :=
  λ t, match put_nowait (_image_queue t) pil_image with
       | Ok q => (set_queue q t, Ok tt)
       | Raise e => (t, Raise e)
       end.

(** The [try] block of [run], lines 111-123, for the local [nr]; it
    returns the new value of [nr]. *)
Definition try_block (emit_signal : bool) (nr : nat) (tk : tick)
    : M ImageAcquisitionThread nat :=
  let! frame := call (poll tk) in
  match frame with
  | None => ret nr
  | Some frame =>
      let nr := S nr in
      let! is_color := gets _is_color in
      let! pil_image :=
        (if is_color then _get_color_image frame else _get_image frame) in
      enqueue pil_image ;;;
      if Nat.eqb nr 2 then
        (if emit_signal then modify (emit true) else ret tt) ;;;
        ret 0%nat
      else ret nr
  end.

(** One pass of the loop body with its two [except] clauses, lines
    110-130, after the consumer's takes. Nothing reads [nr] after a
    [break]. *)
Definition iteration (emit_signal : bool) (tk : tick)
    (st : ImageAcquisitionThread * nat)
    : ImageAcquisitionThread * nat * control :=
  let '(t, nr) := st in
  let t := set_queue (consume (consumer_gets tk) (_image_queue t)) t in
  match try_block emit_signal nr tk t with
  | (t', Ok nr') => (t', nr', Continue)
  | (t', Raise e) =>
      if decide (exn_cls e = QueueFull) then (t', 0%nat, Continue)
      else
        (print ("Encountered error: " +:+ exn_msg e +:+
                ", image acquisition will stop.") t', nr, Break)
  end.

(** The [while] loop over the passes that happen before the stop event
    is set: it ends at the first [break], or with the stop event after
    the last pass. *)
Fixpoint loop (emit_signal : bool) (tks : list tick)
    (st : ImageAcquisitionThread * nat) : ImageAcquisitionThread * nat :=
  match tks with
  | [] => st
  | tk :: tks' =>
      match iteration emit_signal tk st with
      | (t, nr, Continue) => loop emit_signal tks' (t, nr)
      | (t, nr, Break) => (t, nr)
      end
  end.

(** What follows the loop, lines 132-135: the two [dispose()] calls one
    after the other, with nothing to catch what the first raises. *)
Definition after_loop : M ImageAcquisitionThread unit :=
  modify (print "Image acquisition has stopped") ;;;
  let! is_color := gets _is_color in
  if is_color then
    call processor_dispose ;;;
    modify set_processor_disposed ;;;
    call color_sdk_dispose ;;;
    modify set_sdk_disposed
  else ret tt.

(** [run], lines 105-135: [tks] are the passes made until the stop event
    is set. What [run] raises ends the thread. *)
Definition run (tks : list tick) : M ImageAcquisitionThread unit :=
  λ t, let nr := 0%nat in
       let emit_signal := _signal t in
       after_loop (loop emit_signal tks (t, nr)).1.

End acquisition.

(** ** What a pass of the loop did, read off the loop itself *)

Inductive outcome :=
| Idle        (* the pass put nothing in the queue and raised nothing *)
| Enqueued    (* the pass put an image in the queue *)
| Dropped     (* the pass ended in the [except queue.Full] clause *)
| Fatal.      (* the pass ended in the [except Exception] clause *)

Global Instance outcome_eq_dec : EqDecision outcome.
Proof. solve_decision. Defined.

Section outcomes.

Variable transform_to_24 : ndarray → Z → Z → result ndarray.

Definition pass_outcome (emit_signal : bool) (tk : tick)
    (st : ImageAcquisitionThread * nat) : outcome :=
  let '(t, nr) := st in
  let t0 := set_queue (consume (consumer_gets tk) (_image_queue t)) t in
  match try_block transform_to_24 emit_signal nr tk t0 with
  | (t', Ok _) =>
      if decide (qsize (_image_queue t') = qsize (_image_queue t0))
      then Idle else Enqueued
  | (_, Raise e) =>
      if decide (exn_cls e = QueueFull) then Dropped else Fatal
  end.

(** The outcomes of the passes of [loop], in order, the fatal one last. *)
Fixpoint history (emit_signal : bool) (tks : list tick)
    (st : ImageAcquisitionThread * nat) : list outcome :=
  match tks with
  | [] => []
  | tk :: tks' =>
      pass_outcome emit_signal tk st ::
      match iteration transform_to_24 emit_signal tk st with
      | (t, nr, Continue) => history emit_signal tks' (t, nr)
      | (_, _, Break) => []
      end
  end.

(** The conversion step of a pass, lines 114-117. *)
Definition convert (frame : Frame) : M ImageAcquisitionThread Image :=
  λ t, (if _is_color t then _get_color_image transform_to_24 frame
        else _get_image frame) t.

End outcomes.

(** Successful enqueues counted per stretch of passes without a drop:
    [cur] is the count of the stretch under way. *)
Fixpoint stretch_counts (cur : nat) (os : list outcome) : list nat :=
  match os with
  | [] => [cur]
  | Dropped :: os' => cur :: stretch_counts 0 os'
  | Enqueued :: os' => stretch_counts (S cur) os'
  | _ :: os' => stretch_counts cur os'
  end.

(** One notification for every two successful enqueues of a stretch. *)
Definition pairs_due (cur : nat) (os : list outcome) : nat :=
  sum_list ((λ n, n `div` 2)%nat <$> stretch_counts cur os).

(** The spec's count: one notification for every two successful enqueues,
    drops and empty polls notwithstanding. *)
Definition pairs_claimed (os : list outcome) : nat :=
  (length (filter (λ o, o = Enqueued) os) `div` 2)%nat.

(** A monochrome camera, a 1x1 frame, and a run in which the consumer
    drains between drops. *)
Definition mono_camera : TLCamera :=
  {| camera_sensor_type := MONOCHROME; image_width_pixels := 1;
     image_height_pixels := 1; bit_depth := 16 |}.

Definition frame1 (v : Z) : Frame :=
  {| image_buffer := {| shape := [1; 1]; dt := uint16; data := [v] |} |}.

Definition got (gets : nat) (v : Z) : tick :=
  {| consumer_gets := gets; poll := Ok (Some (frame1 v)) |}.

Definition no_transform : ndarray → Z → Z → result ndarray :=
  λ _ _ _, Raise (Exn OtherError "no colour processor").

Definition drained_run : list tick :=
  [got 0 1; got 0 2; got 1 3; got 0 4; got 2 5].

(** The thread [__init__] makes for that camera, with its own queue and a
    signal. *)
Definition mono_thread : ImageAcquisitionThread :=
  ImageAcquisitionThread_init mono_camera None true.

(** A thread on a shared queue of capacity 1, without a signal, and the
    same thread once the first image is in the queue. *)
Definition single_slot : Queue := {| maxsize := 1; items := [] |}.

Definition shared_thread : ImageAcquisitionThread :=
  ImageAcquisitionThread_init mono_camera (Some single_slot) false.

Definition shared_thread_full : ImageAcquisitionThread :=
  set_queue {| maxsize := 1;
               items := [{| im_mode := I16; im_width := 1; im_height := 1;
                            im_data := [1] |}] |} shared_thread.

(** ** What the statements about the loop are made of *)

(** Everything but the cached dimensions and the printed lines. *)
Definition same_but_dims (t t' : ImageAcquisitionThread) : Prop :=
  _image_queue t' = _image_queue t ∧ _signal t' = _signal t ∧
  _is_color t' = _is_color t ∧ emitted t' = emitted t ∧
  processor_disposed t' = processor_disposed t ∧
  sdk_disposed t' = sdk_disposed t.

(** The line printed by the [except Exception] clause, line 129. *)
Definition fatal_line (e : exn) : string :=
  "Encountered error: " +:+ exn_msg e +:+ ", image acquisition will stop.".

(** The two [except] clauses of [run], lines 124-130, on an exception. *)
Definition handle (e : exn) (t1 : ImageAcquisitionThread) (nr : nat)
    : ImageAcquisitionThread * nat * control :=
  if decide (exn_cls e = QueueFull) then (t1, 0%nat, Continue)
  else (print (fatal_line e) t1, nr, Break).

(** What each outcome means for the queue, the counter [nr] and the
    notifications sent. *)
Definition pass_effect (emit_signal : bool) (tk : tick)
    (t : ImageAcquisitionThread) (nr : nat) (o : outcome)
    (t' : ImageAcquisitionThread) (nr' : nat) (c : control) : Prop :=
  let before := drop (consumer_gets tk) (items (_image_queue t)) in
  maxsize (_image_queue t') = maxsize (_image_queue t) ∧
  _is_color t' = _is_color t ∧ _signal t' = _signal t ∧
  processor_disposed t' = processor_disposed t ∧
  sdk_disposed t' = sdk_disposed t ∧
  match o with
  | Idle =>
      c = Continue ∧ nr' = nr ∧ emitted t' = emitted t ∧
      items (_image_queue t') = before
  | Enqueued =>
      c = Continue ∧
      nr' = (if Nat.eqb (S nr) 2 then 0 else S nr)%nat ∧
      emitted t' = emitted t ++
                   (if Nat.eqb (S nr) 2 && emit_signal then [true] else []) ∧
      full (consume (consumer_gets tk) (_image_queue t)) = false ∧
      ∃ pil_image, items (_image_queue t') = before ++ [pil_image]
  | Dropped =>
      c = Continue ∧ nr' = 0%nat ∧ emitted t' = emitted t ∧
      items (_image_queue t') = before
  | Fatal =>
      c = Break ∧ emitted t' = emitted t ∧
      items (_image_queue t') = before
  end.

(** The queue holds no more than its capacity. *)
Definition bounded (q : Queue) : Prop := qsize q ≤ maxsize q.

(** The line printed by [_get_color_image], line 91. *)
Definition dimension_change_line : string :=
  "Image dimension change detected, image acquisition thread was updated".

(** * ConfigurationManager ([src/com.py]) *)

(** The values a settings map holds. [json.load] returns [None]
    ([JNull]), booleans, integers, strings, lists ([JArr]) and [dict]s with
    string keys, kept in insertion order ([JObj]). [set] stores what it is
    given: of the other values that [json.dump] accepts, the tuples are
    here ([JTuple]); floating-point numbers and [dict] keys that are not
    strings are left out. *)
#[warnings="-register-all"]
Inductive json :=
| JNull
| JBool (b : bool)
| JInt (n : Z)
| JStr (s : string)
| JArr (xs : list json)
| JTuple (xs : list json)
| JObj (kvs : list (string * json)).

(** [d.get(key)] on a dict's items: the value, or [None]. *)
Fixpoint dict_get (key : string) (kvs : list (string * json)) : json :=
  match kvs with
  | [] => JNull
  | (k, v) :: kvs' => if decide (k = key) then v else dict_get key kvs'
  end.

(** [d[key] = value]: in place when the key is there, at the end if not. *)
Fixpoint dict_set (key : string) (value : json) (kvs : list (string * json))
    : list (string * json) :=
  match kvs with
  | [] => [(key, value)]
  | (k, v) :: kvs' =>
      if decide (k = key) then (k, value) :: kvs'
      else (k, v) :: dict_set key value kvs'
  end.




(** The files, by path, with their text. *)
Abbreviation files := (gmap string string).

(** [open(path).read()]. *)
Definition read_file (fs : files) (path : string) : result string :=
  match fs !! path with
  | Some text => Ok text
  | None => Raise (Exn FileNotFoundError "No such file or directory")
  end.

(** Where the watcher thread is in [fileWatcher], lines 80-95. The flag
    of [W_sleep] and [W_clear] tells whether this turn of the loop went
    through the [if] branch. *)
Inductive watcher_pc :=
| W_start                      (* line 82: first read of the file *)
| W_test                       (* line 85: the [while] test *)
| W_read                       (* lines 86-88: read [content] *)
| W_compare (content : string) (* line 89: [content != comandosText] *)
| W_reload                     (* line 92: [self.config = self.load_config()] *)
| W_flag                       (* line 93: [self.file_change = True] *)
| W_sleep (detected : bool)    (* line 94: [time.sleep] *)
| W_clear (detected : bool)    (* line 95: [self.file_change = False] *)
| W_done                       (* the loop ended on the stop event *)
| W_crashed (e : exn).         (* an exception ended the thread *)

(** The watcher thread: where it is, and its local [comandosText]. *)
Record watcher := { pc : watcher_pc; comandosText : string }.

(** The object's attributes; [stop_event] and [config_watcher_thread] are
    [None] when [__init__] never created them. [file_watcher_delay] is in
    milliseconds here. *)
Record ConfigurationManager := {
  config_file_path : string;
  file_watcher_delay : Z;
  file_change : bool;
  config : json;
  stop_event : option bool;
  config_watcher_thread : option watcher
}.

(** The manager, the files it shares with the rest of the machine, and
    the lines printed. *)
Record world := {
  mgr : ConfigurationManager;
  fs : files;
  out : list string
}.

Definition set_config (c : json) (m : ConfigurationManager) :=
  {| config_file_path := config_file_path m;
     file_watcher_delay := file_watcher_delay m;
     file_change := file_change m; config := c;
     stop_event := stop_event m;
     config_watcher_thread := config_watcher_thread m |}.

Definition set_file_change (b : bool) (m : ConfigurationManager) :=
  {| config_file_path := config_file_path m;
     file_watcher_delay := file_watcher_delay m;
     file_change := b; config := config m;
     stop_event := stop_event m;
     config_watcher_thread := config_watcher_thread m |}.

Definition set_stop_event (b : bool) (m : ConfigurationManager) :=
  {| config_file_path := config_file_path m;
     file_watcher_delay := file_watcher_delay m;
     file_change := file_change m; config := config m;
     stop_event := Some b;
     config_watcher_thread := config_watcher_thread m |}.

Definition set_thread (th : watcher) (m : ConfigurationManager) :=
  {| config_file_path := config_file_path m;
     file_watcher_delay := file_watcher_delay m;
     file_change := file_change m; config := config m;
     stop_event := stop_event m;
     config_watcher_thread := Some th |}.

Definition with_mgr (f : ConfigurationManager → ConfigurationManager)
    (w : world) : world :=
  {| mgr := f (mgr w); fs := fs w; out := out w |}.

Definition say (line : string) (w : world) : world :=
  {| mgr := mgr w; fs := fs w; out := out w ++ [line] |}.

Definition no_attribute (name : string) : exn :=
  Exn AttributeError
      ("'ConfigurationManager' object has no attribute '" +:+ name +:+ "'").

(** What [time.sleep] raises for a negative length. *)
Definition sleep_error : exn :=
  Exn ValueError "sleep length must be non-negative".

Section settings.

(** [json.loads] and [json.dumps(_, indent=4)] of Python's library. *)
Variable json_loads : string → result json.
Variable json_dumps : json → string.

(** [load_config], lines 47-55. *)
Definition load_config (m : ConfigurationManager) (fs : files) : result json :=
  let body :=
    match read_file fs (config_file_path m) with
    | Ok text => json_loads text
    | Raise e => Raise e
    end in
  match body with
  | Ok config => Ok config
  | Raise e =>
      if decide (exn_cls e = FileNotFoundError) then Ok (JObj [])
      else Raise e
  end.

(** [get], lines 57-60. *)
Definition get (m : ConfigurationManager) (key : string) : result json :=
  match config m with
  | JObj kvs => Ok (dict_get key kvs)
  | _ => Raise (Exn AttributeError "object has no attribute 'get'")
  end.

(** [set], lines 62-64. *)
Definition set (key : string) (value : json) (m : ConfigurationManager)
    : result ConfigurationManager :=
  match config m with
  | JObj kvs => Ok (set_config (JObj (dict_set key value kvs)) m)
  | _ => Raise (Exn TypeError "object does not support item assignment")
  end.

(** [is_updated], lines 66-68. *)
Definition is_updated (m : ConfigurationManager) : bool := file_change m.

(** [save_config], lines 75-78. *)
Definition save_config (m : ConfigurationManager) (fs : files) : files :=
  <[config_file_path m := json_dumps (config m)]> fs.

(** [__init__], lines 25-36. *)
Definition ConfigurationManager_init
    (config_file_path : string) (watch_file : bool) (file_watcher_delay : Z)
    (fs : files) : result world :=
  let m := {| config_file_path := config_file_path;
              file_watcher_delay := file_watcher_delay;
              file_change := false; config := JObj [];
              stop_event := None; config_watcher_thread := None |} in
  match load_config m fs with
  | Raise e => Raise e
  | Ok c =>
      let m := set_config c m in
      if watch_file then
        let m := set_stop_event false m in
        let m := set_thread {| pc := W_start; comandosText := "" |} m in
        Ok {| mgr := m; fs := fs; out := ["Start file watcher thread"] |}
      else Ok {| mgr := m; fs := fs; out := [] |}
  end.

(** [stop], lines 38-41. *)
Definition stop (w : world) : result world :=
  match stop_event (mgr w) with
  | None => Raise (no_attribute "stop_event")
  | Some _ =>
      Ok (say "Stop file watcher thread" (with_mgr (set_stop_event true) w))
  end.

Definition terminated (th : watcher) : bool :=
  match pc th with W_done | W_crashed _ => true | _ => false end.

(** [join], lines 43-45: it returns once the thread has ended ([true]);
    until then the caller waits ([false]). *)
Definition join (w : world) : result bool :=
  match config_watcher_thread (mgr w) with
  | None => Raise (no_attribute "config_watcher_thread")
  | Some th => Ok (terminated th)
  end.

Definition goto (p : watcher_pc) (th : watcher) (w : world) : world :=
  with_mgr (set_thread {| pc := p; comandosText := comandosText th |}) w.

(** The next statement of [fileWatcher], lines 80-95, run by the thread. *)
Definition watcher_step (w : world) : world :=
  match config_watcher_thread (mgr w) with
  | None => w
  | Some th =>
      match pc th with
      | W_start =>
          match read_file (fs w) (config_file_path (mgr w)) with
          | Ok text =>
              with_mgr (set_thread {| pc := W_test; comandosText := text |}) w
          | Raise e => goto (W_crashed e) th w
          end
      | W_test =>
          match stop_event (mgr w) with
          | Some true => goto W_done th w
          | Some false => goto W_read th w
          | None => goto (W_crashed (no_attribute "stop_event")) th w
          end
      | W_read =>
          match read_file (fs w) (config_file_path (mgr w)) with
          | Ok content => goto (W_compare content) th w
          | Raise e => goto (W_crashed e) th w
          end
      | W_compare content =>
          if decide (content ≠ comandosText th) then
            let w := say "File was modified! Reloading it..." w in
            with_mgr (set_thread {| pc := W_reload;
                                    comandosText := content |}) w
          else goto (W_sleep false) th w
      | W_reload =>
          match load_config (mgr w) (fs w) with
          | Ok c => goto W_flag th (with_mgr (set_config c) w)
          | Raise e => goto (W_crashed e) th w
          end
      | W_flag => goto (W_sleep true) th (with_mgr (set_file_change true) w)
      | W_sleep detected =>
          if decide (file_watcher_delay (mgr w) < 0)
          then goto (W_crashed sleep_error) th w
          else goto (W_clear detected) th w
      | W_clear _ => goto W_test th (with_mgr (set_file_change false) w)
      | W_done | W_crashed _ => w
      end
  end.

(** What can happen next to the world: the watcher runs its next
    statement, another program rewrites or removes the file, or the
    owner of the manager calls one of its methods. *)
Inductive action :=
| Watcher
| FileWrite (text : string)
| FileDelete
| CallSet (key : string) (value : json)
| CallSave
| CallStop.

Definition step (a : action) (w : world) : world :=
  match a with
  | Watcher => watcher_step w
  | FileWrite text =>
      {| mgr := mgr w; fs := <[config_file_path (mgr w) := text]> (fs w);
         out := out w |}
  | FileDelete =>
      {| mgr := mgr w; fs := delete (config_file_path (mgr w)) (fs w);
         out := out w |}
  | CallSet key value =>
      match set key value (mgr w) with
      | Ok m => with_mgr (λ _, m) w
      | Raise _ => w
      end
  | CallSave =>
      {| mgr := mgr w; fs := save_config (mgr w) (fs w); out := out w |}
  | CallStop =>
      match stop w with Ok w' => w' | Raise _ => w end
  end.

Definition exec (acts : list action) (w : world) : world :=
  foldl (λ w a, step a w) w acts.

End settings.

(** ** A stand-in for Python's [json] module

    Used where a statement needs a concrete [json.loads] and
    [json.dumps(_, indent=4)]: integers, strings of one-byte characters,
    arrays and objects, in the layout Python writes. *)

Module PyJson.

Definition chars (s : string) : list ascii := String.list_ascii_of_string s.

(** A new line and the indentation of a nesting level. *)
Definition nl (level : nat) : list ascii :=
  "010"%char :: replicate (4 * level) " "%char.

Definition hex_digit (n : N) : ascii :=
  match n with
  | 0 => "0" | 1 => "1" | 2 => "2" | 3 => "3" | 4 => "4" | 5 => "5"
  | 6 => "6" | 7 => "7" | 8 => "8" | 9 => "9" | 10 => "a" | 11 => "b"
  | 12 => "c" | 13 => "d" | 14 => "e" | _ => "f"
  end%N%char.

(** One character of a string, as [json.dumps] writes it: everything
    outside the printable ASCII range is escaped. *)
Definition escape_char (c : ascii) : list ascii :=
  let n := N_of_ascii c in
  if decide (n = 34)%N then ["\"; "034"]%char
  else if decide (n = 92)%N then ["\"; "\"]%char
  else if decide (n = 10)%N then ["\"; "n"]%char
  else if decide (n = 13)%N then ["\"; "r"]%char
  else if decide (n = 9)%N then ["\"; "t"]%char
  else if decide (n = 8)%N then ["\"; "b"]%char
  else if decide (n = 12)%N then ["\"; "f"]%char
  else if decide (n < 32 ∨ 126 < n)%N then
    ["\"; "u"; "0"; "0"; hex_digit (n `div` 16); hex_digit (n `mod` 16)]%char
  else [c].

Fixpoint escape (s : string) : list ascii :=
  match s with
  | EmptyString => []
  | String c s' => escape_char c ++ escape s'
  end.

Definition quote (s : string) : list ascii :=
  "034"%char :: escape s ++ ["034"%char].

(** A value at a nesting level; the items of an array or object after
    the first come each behind a comma and a new line. A tuple is written
    as an array. *)
Fixpoint dumps_at (level : nat) (v : json) : list ascii :=
  match v with
  | JNull => chars "null"
  | JBool true => chars "true"
  | JBool false => chars "false"
  | JInt n => chars (pretty n)
  | JStr s => quote s
  | JArr [] | JTuple [] => chars "[]"
  | JArr (x :: xs) | JTuple (x :: xs) =>
      "["%char :: nl (S level) ++ dumps_at (S level) x ++
      concat (map (λ x, ","%char :: nl (S level) ++ dumps_at (S level) x) xs)
      ++ nl level ++ ["]"%char]
  | JObj [] => chars "{}"
  | JObj (kv :: kvs) =>
      "{"%char :: nl (S level) ++
      quote kv.1 ++ chars ": " ++ dumps_at (S level) kv.2 ++
      concat (map (λ kv, ","%char :: nl (S level) ++
                         quote kv.1 ++ chars ": " ++ dumps_at (S level) kv.2)
                  kvs)
      ++ nl level ++ ["}"%char]
  end.

(** [json.dumps(v, indent=4)]. *)
Definition dumps (v : json) : string :=
  String.string_of_list_ascii (dumps_at 0 v).

Definition is_ws (c : ascii) : bool :=
  let n := N_of_ascii c in
  bool_decide (n = 32 ∨ n = 9 ∨ n = 10 ∨ n = 13)%N.

Fixpoint skip_ws (cs : list ascii) : list ascii :=
  match cs with
  | c :: cs' => if is_ws c then skip_ws cs' else cs
  | [] => []
  end.

Definition digit_of (c : ascii) : option Z :=
  let n := N_of_ascii c in
  if decide (48 ≤ n ∧ n ≤ 57)%N then Some (Z.of_N n - 48) else None.

Definition hex_of (c : ascii) : option N :=
  let n := N_of_ascii c in
  if decide (48 ≤ n ∧ n ≤ 57)%N then Some (n - 48)%N
  else if decide (97 ≤ n ∧ n ≤ 102)%N then Some (n - 87)%N
  else if decide (65 ≤ n ∧ n ≤ 70)%N then Some (n - 55)%N
  else None.

Fixpoint parse_digits (acc : Z) (cs : list ascii) : Z * list ascii :=
  match cs with
  | c :: cs' =>
      match digit_of c with
      | Some d => parse_digits (10 * acc + d) cs'
      | None => (acc, cs)
      end
  | [] => (acc, [])
  end.

(** An integer literal: digits, with no leading zero before others. *)
Definition parse_nat (cs : list ascii) : option (Z * list ascii) :=
  match cs with
  | c :: cs' =>
      match digit_of c with
      | Some 0 =>
          match cs' with
          | c' :: _ =>
        match digit_of c' with Some _ => None | None => Some (0, cs') end
          | [] => Some (0, [])
          end
      | Some d => Some (parse_digits d cs')
      | None => None
      end
  | [] => None
  end.

(** The characters of a string literal after its opening quote. *)
Fixpoint parse_chars (cs : list ascii) : option (string * list ascii) :=
  match cs with
  | [] => None
  | "034"%char :: cs' => Some ("", cs')
  | "\"%char :: e :: cs' =>
      let plain (c : ascii) :=
        '(s, r) ← parse_chars cs'; Some (String c s, r) in
      if decide (e = "034"%char) then plain "034"%char
      else if decide (e = "\"%char) then plain "\"%char
      else if decide (e = "/"%char) then plain "/"%char
      else if decide (e = "n"%char) then plain "010"%char
      else if decide (e = "r"%char) then plain "013"%char
      else if decide (e = "t"%char) then plain "009"%char
      else if decide (e = "b"%char) then plain "008"%char
      else if decide (e = "f"%char) then plain "012"%char
      else if decide (e = "u"%char) then
        match cs' with
        | "0"%char :: "0"%char :: h :: l :: cs'' =>
            hi ← hex_of h; lo ← hex_of l;
            '(s, r) ← parse_chars cs'';
            Some (String (ascii_of_N (16 * hi + lo)) s, r)
        | _ => None
        end
      else None
  | c :: cs' =>
      if decide (N_of_ascii c < 32)%N then None
      else '(s, r) ← parse_chars cs'; Some (String c s, r)
  end.

Section elements.
Variable value : list ascii → option (json * list ascii).

(** The elements of an array after the first, up to the bracket. *)
Fixpoint more_elements (n : nat) (cs : list ascii)
    : option (list json * list ascii) :=
  match n with
  | O => None
  | S n' =>
      match skip_ws cs with
      | "]"%char :: r => Some ([], r)
      | ","%char :: r =>
          '(v, r) ← value r;
          '(vs, r) ← more_elements n' r;
          Some (v :: vs, r)
      | _ => None
      end
  end.

Definition member (cs : list ascii)
    : option (string * json * list ascii) :=
  match skip_ws cs with
  | "034"%char :: r =>
      '(k, r) ← parse_chars r;
      match skip_ws r with
      | ":"%char :: r => '(v, r) ← value r; Some (k, v, r)
      | _ => None
      end
  | _ => None
  end.

(** The members of an object after the first, up to the brace. *)
Fixpoint more_members (n : nat) (cs : list ascii)
    : option (list (string * json) * list ascii) :=
  match n with
  | O => None
  | S n' =>
      match skip_ws cs with
      | "}"%char :: r => Some ([], r)
      | ","%char :: r =>
          '(k, v, r) ← member r;
          '(kvs, r) ← more_members n' r;
          Some ((k, v) :: kvs, r)
      | _ => None
      end
  end.
End elements.

(** A dict from pairs in order: a repeated key keeps its first place and
    takes the last value. *)
Definition dict_of (kvs : list (string * json)) : list (string * json) :=
  foldl (λ d kv, dict_set kv.1 kv.2 d) [] kvs.

Fixpoint parse_value (fuel : nat) (cs : list ascii)
    : option (json * list ascii) :=
  match fuel with
  | O => None
  | S fuel' =>
      match skip_ws cs with
      | "n"%char :: "u"%char :: "l"%char :: "l"%char :: r => Some (JNull, r)
      | "t"%char :: "r"%char :: "u"%char :: "e"%char :: r =>
          Some (JBool true, r)
      | "f"%char :: "a"%char :: "l"%char :: "s"%char :: "e"%char :: r =>
          Some (JBool false, r)
      | "034"%char :: r => '(s, r) ← parse_chars r; Some (JStr s, r)
      | "-"%char :: r => '(n, r) ← parse_nat r; Some (JInt (- n), r)
      | "["%char :: r =>
          match skip_ws r with
          | "]"%char :: r => Some (JArr [], r)
          | _ =>
              '(v, r) ← parse_value fuel' r;
              '(vs, r) ← more_elements (parse_value fuel') fuel' r;
              Some (JArr (v :: vs), r)
          end
      | "{"%char :: r =>
          match skip_ws r with
          | "}"%char :: r => Some (JObj [], r)
          | _ =>
              '(k, v, r) ← member (parse_value fuel') r;
              '(kvs, r) ← more_members (parse_value fuel') fuel' r;
              Some (JObj (dict_of ((k, v) :: kvs)), r)
          end
      | r => '(n, r) ← parse_nat r; Some (JInt n, r)
      end
  end.

(** [json.loads(text)]. *)
Definition loads (text : string) : result json :=
  let cs := String.list_ascii_of_string text in
  match parse_value (S (length cs)) cs with
  | Some (v, r) =>
      match skip_ws r with
      | [] => Ok v
      | _ => Raise (Exn JSONDecodeError "Extra data")
      end
  | None => Raise (Exn JSONDecodeError "Expecting value")
  end.






End PyJson.

(** * Camera and ThorlabsCameraHandler ([src/ini_camera.py], lines 137-273) *)

(** What the vendor SDK answers to the calls of the two classes. *)
Record sdk_env := {
  TLCameraSDK : result unit;                        (* the constructor *)
  discover_available_cameras : result (list string);
  open_camera : string → result TLCamera;
  set_exposure_time_us : json → result unit;
  set_frames_per_trigger_zero_for_unlimited : Z → result unit;
  set_operation_mode : Z → result unit;
  set_trigger_polarity : Z → result unit;
  arm : Z → result unit;
  MonoToColorProcessorSDK : result unit             (* the constructor *)
}.

Module Camera.

Record t := {
  config_manager : ConfigurationManager;
  connected : bool;
  sdk : bool;                          (* [self.sdk] was assigned *)
  camera : option (option TLCamera);   (* unset, [None], or a camera *)
  printed : list string
}.

Definition set_sdk (c : t) : t :=
  {| config_manager := config_manager c; connected := connected c;
     sdk := true; camera := camera c; printed := printed c |}.

Definition set_camera (cam : option TLCamera) (c : t) : t :=
  {| config_manager := config_manager c; connected := connected c;
     sdk := sdk c; camera := Some cam; printed := printed c |}.

Definition set_connected (b : bool) (c : t) : t :=
  {| config_manager := config_manager c; connected := b;
     sdk := sdk c; camera := camera c; printed := printed c |}.

Definition print (line : string) (c : t) : t :=
  {| config_manager := config_manager c; connected := connected c;
     sdk := sdk c; camera := camera c; printed := printed c ++ [line] |}.

(** [settings.get("exposureTime_us")] on what [config_manager.get] gave. *)
Definition settings_get (settings : json) (key : string) : result json :=
  match settings with
  | JObj kvs => Ok (dict_get key kvs)
  | _ => Raise (Exn AttributeError "object has no attribute 'get'")
  end.

(** The [try] block of [initialize_camera], lines 160-179. *)
Definition try_block (env : sdk_env) : M t unit :=
  call (TLCameraSDK env) ;;;
  modify set_sdk ;;;
  let! available_cameras := call (discover_available_cameras env) in
  match available_cameras with
  | [] => raise (Exn CameraNotFoundError "Unable to access the camera.")
  | first :: _ =>
      let! camera := call (open_camera env first) in
      let! cm := gets config_manager in
      let! settings := call (get cm "settings") in
      let! exposure := call (settings_get settings "exposureTime_us") in
      call (set_exposure_time_us env exposure) ;;;
      call (set_frames_per_trigger_zero_for_unlimited env 1) ;;;
      call (set_operation_mode env 1) ;;;
      call (set_trigger_polarity env 1) ;;;
      call (arm env 2) ;;;
      modify (set_camera (Some camera)) ;;;
      modify (set_connected true)
  end.

(** [initialize_camera], lines 157-187, with its two [except] clauses. *)
Definition initialize_camera (env : sdk_env) : M t unit :=
  λ c, match try_block env c with
       | (c', Ok _) => (c', Ok tt)
       | (c', Raise e) =>
           if decide (exn_cls e = CameraNotFoundError) then
             (print ("Error caught: " +:+ exn_msg e) (set_camera None c'),
              Ok tt)
           else
             (print ("Encountered error: " +:+ exn_msg e +:+
                     ", image acquisition will stop.") c', Ok tt)
       end.

(** [__init__], lines 151-155. *)
Definition init (env : sdk_env) (config_manager : ConfigurationManager)
    : t * result unit :=
  initialize_camera env
    {| config_manager := config_manager; connected := false;
       sdk := false; camera := None; printed := [] |}.

(** The property [is_connected], lines 189-192. *)
Definition is_connected (c : t) : bool := connected c.

End Camera.

Module ThorlabsCameraHandler.

Record t := {
  config : ConfigurationManager;
  signal : bool;                        (* a signal object was given *)
  shared_queue : option Queue;
  connected : bool;
  is_alive : bool;
  _camera : option (option Camera.t);   (* unset, [None], or a Camera *)
  image_acquisition_thread : option ImageAcquisitionThread;
  thread_started : bool;                (* [start()] was called on it *)
  printed : list string
}.

Definition set__camera (cam : option Camera.t) (h : t) : t :=
  {| config := config h; signal := signal h; shared_queue := shared_queue h;
     connected := connected h; is_alive := is_alive h; _camera := Some cam;
     image_acquisition_thread := image_acquisition_thread h;
     thread_started := thread_started h; printed := printed h |}.

Definition set_connected (b : bool) (h : t) : t :=
  {| config := config h; signal := signal h; shared_queue := shared_queue h;
     connected := b; is_alive := is_alive h; _camera := _camera h;
     image_acquisition_thread := image_acquisition_thread h;
     thread_started := thread_started h; printed := printed h |}.

Definition set_thread (th : ImageAcquisitionThread) (h : t) : t :=
  {| config := config h; signal := signal h; shared_queue := shared_queue h;
     connected := connected h; is_alive := is_alive h; _camera := _camera h;
     image_acquisition_thread := Some th;
     thread_started := thread_started h; printed := printed h |}.

Definition set_is_alive (b : bool) (h : t) : t :=
  {| config := config h; signal := signal h; shared_queue := shared_queue h;
     connected := connected h; is_alive := b; _camera := _camera h;
     image_acquisition_thread := image_acquisition_thread h;
     thread_started := thread_started h; printed := printed h |}.

Definition set_started (h : t) : t :=
  {| config := config h; signal := signal h; shared_queue := shared_queue h;
     connected := connected h; is_alive := is_alive h; _camera := _camera h;
     image_acquisition_thread := image_acquisition_thread h;
     thread_started := true; printed := printed h |}.

Definition print (lines : list string) (h : t) : t :=
  {| config := config h; signal := signal h; shared_queue := shared_queue h;
     connected := connected h; is_alive := is_alive h; _camera := _camera h;
     image_acquisition_thread := image_acquisition_thread h;
     thread_started := thread_started h; printed := printed h ++ lines |}.

(** [ImageAcquisitionThread(self._camera.camera, ...)]: the constructor of
    lines 43-74 with the SDK call it makes for a colour sensor. *)
Definition new_thread (env : sdk_env) (camera : option (option TLCamera))
    (shared_queue : option Queue) (signal : bool)
    : result ImageAcquisitionThread :=
  match camera with
  | Some (Some cam) =>
      if decide (camera_sensor_type cam ≠ BAYER)
      then Ok (ImageAcquisitionThread_init cam shared_queue signal)
      else match MonoToColorProcessorSDK env with
           | Ok _ => Ok (ImageAcquisitionThread_init cam shared_queue signal)
           | Raise e => Raise e
           end
  | _ => Raise (Exn AttributeError "object has no attribute 'camera_sensor_type'")
  end.

(** The [try] block of [initialize_camera], lines 231-234. *)
Definition try_block (env : sdk_env) : M t unit :=
  let! cfg := gets config in
  let '(cam, made) := Camera.init env cfg in
  modify (print (Camera.printed cam)) ;;;
  call made ;;;
  modify (set__camera (Some cam)) ;;;
  modify (set_connected (Camera.is_connected cam)) ;;;
  let! connected := gets connected in
  if connected then
    let! q := gets shared_queue in
    let! s := gets signal in
    let! th := call (new_thread env (Camera.camera cam) q s) in
    modify (set_thread th)
  else ret tt.

(** [initialize_camera], lines 227-237. *)
Definition initialize_camera (env : sdk_env) : M t unit :=
  λ h, match try_block env h with
       | (h', Ok _) => (h', Ok tt)
       | (h', Raise e) =>
           (set__camera None (print ["Encountered error: " +:+ exn_msg e] h'),
            Ok tt)
       end.

(** [__init__], lines 218-225. *)
Definition init (env : sdk_env) (config_manager : ConfigurationManager)
    (shared_queue : option Queue) (signal : bool) : t * result unit :=
  initialize_camera env
    {| config := config_manager; signal := signal;
       shared_queue := shared_queue; connected := false; is_alive := false;
       _camera := None; image_acquisition_thread := None;
       thread_started := false; printed := [] |}.

(** [activate_camera_instance], lines 244-249. *)
Definition activate_camera_instance : M t unit :=
  modify (print ["Starting image acquisition thread..."]) ;;;
  modify (set_is_alive true) ;;;
  let! th := gets image_acquisition_thread in
  match th with
  | None =>
      raise (Exn AttributeError
               "'ThorlabsCameraHandler' object has no attribute 'image_acquisition_thread'")
  | Some _ =>
      modify set_started ;;;
      modify (print ["Image thred alive: True"])
  end.

End ThorlabsCameraHandler.

(** An SDK that finds no camera, one whose constructor fails, and one
    with a monochrome camera. *)
Definition sdk_without_camera : sdk_env :=
  {| TLCameraSDK := Ok tt; discover_available_cameras := Ok [];
     open_camera := λ _, Raise (Exn OtherError "no such camera");
     set_exposure_time_us := λ _, Ok tt;
     set_frames_per_trigger_zero_for_unlimited := λ _, Ok tt;
     set_operation_mode := λ _, Ok tt; set_trigger_polarity := λ _, Ok tt;
     arm := λ _, Ok tt; MonoToColorProcessorSDK := Ok tt |}.

Definition sdk_broken : sdk_env :=
  {| TLCameraSDK := Raise (Exn OtherError "dll not found");
     discover_available_cameras := Ok [];
     open_camera := λ _, Raise (Exn OtherError "no such camera");
     set_exposure_time_us := λ _, Ok tt;
     set_frames_per_trigger_zero_for_unlimited := λ _, Ok tt;
     set_operation_mode := λ _, Ok tt; set_trigger_polarity := λ _, Ok tt;
     arm := λ _, Ok tt; MonoToColorProcessorSDK := Ok tt |}.

Definition settings_1000 : json :=
  JObj [("settings", JObj [("exposureTime_us", JInt 1000)])].

Definition manager_1000 : ConfigurationManager :=
  {| config_file_path := "config.json"; file_watcher_delay := 2000;
     file_change := false; config := settings_1000;
     stop_event := None; config_watcher_thread := None |}.

(** ** What the statements about the watcher and the handler are made of *)

(** The window in which a change has been detected and not yet cleared:
    the watcher has set the flag and is in its sleep, or is about to clear
    the flag after it. *)
Definition in_window (w : world) : bool :=
  match config_watcher_thread (mgr w) with
  | Some th =>
      match pc th with
      | W_sleep true | W_clear true => true
      | _ => false
      end
  | None => false
  end.

(** Where the watcher thread is, if there is one. *)
Definition watcher_pc_of (w : world) : option watcher_pc :=
  pc <$> config_watcher_thread (mgr w).

(** With a watcher: the flag is up exactly in the window, unless the
    sleep, of negative length, ended the thread with the flag up. *)
Definition watched (w : world) : Prop :=
  is_Some (config_watcher_thread (mgr w)) ∧
  (is_updated (mgr w) = in_window w ∨
   (file_watcher_delay (mgr w) < 0 ∧ is_updated (mgr w) = true ∧
    watcher_pc_of w = Some (W_crashed sleep_error))).

(** Without a watcher, no action creates the stop event or the thread. *)
Definition unwatched (w : world) : Prop :=
  stop_event (mgr w) = None ∧ config_watcher_thread (mgr w) = None.

(** What [open] raises on a path with no file. *)
Definition file_not_found : exn :=
  Exn FileNotFoundError "No such file or directory".

(** The line printed by the [except CameraNotFoundError] clause, line 184. *)
Definition not_found_line : string :=
  "Error caught: Unable to access the camera.".

(** ** Cameras, frames, files and runs used as examples *)

(** A stand-in for the vendor's transform: every pixel's value on the
    three channels. *)
Definition gray_to_24 : ndarray → Z → Z → result ndarray :=
  λ buf _ _,
    Ok {| shape := [Z.of_nat (length (data buf)) * 3]; dt := uint8;
          data := mjoin ((λ v, [v; v; v]) <$> data buf) |}.

Definition bayer_camera : TLCamera :=
  {| camera_sensor_type := BAYER; image_width_pixels := 2;
     image_height_pixels := 2; bit_depth := 8 |}.

Definition frame_1x2 : Frame :=
  {| image_buffer := {| shape := [1; 2]; dt := uint16; data := [7; 9] |} |}.

Definition sdk_failure : exn := Exn OtherError "camera disconnected".

Definition bayer_thread : ImageAcquisitionThread :=
  ImageAcquisitionThread_init bayer_camera None true.

Definition poll_fails : tick :=
  {| consumer_gets := 0; poll := Raise sdk_failure |}.

(** The world [__init__] leaves on a path with no file, watcher asked for. *)
Definition missing_world : world :=
  {| mgr := {| config_file_path := "config.json"; file_watcher_delay := 2000;
               file_change := false; config := JObj [];
               stop_event := Some false;
               config_watcher_thread :=
                 Some {| pc := W_start; comandosText := "" |} |};
     fs := ∅;
     out := ["Start file watcher thread"] |}.

(** A poll that brings a frame while the consumer has taken nothing. *)
Definition full_tick : tick := got 0 3.

Definition truncated_text : string := "{1000: ".

Definition named_manager : ConfigurationManager :=
  {| config_file_path := "config.json"; file_watcher_delay := 2000;
     file_change := false; config := JObj [("name", JStr "left")];
     stop_event := None; config_watcher_thread := None |}.

Definition exposure_1000 : json := JObj [("exposureTime_us", JInt 1000)].

Definition updated_manager : ConfigurationManager :=
  set_config (JObj [("name", JStr "left"); ("settings", exposure_1000)])
             named_manager.


Definition settings_2500 : json :=
  JObj [("settings", JObj [("exposureTime_us", JInt 2500)])].

Definition watched_text : string := PyJson.dumps settings_1000.

Definition edited_text : string := PyJson.dumps settings_2500.


Definition watched_fs : files := {["config.json" := watched_text]}.

Definition watched_world : world :=
  {| mgr := {| config_file_path := "config.json"; file_watcher_delay := 2000;
               file_change := false; config := settings_1000;
               stop_event := Some false;
               config_watcher_thread :=
                 Some {| pc := W_start; comandosText := "" |} |};
     fs := watched_fs;
     out := ["Start file watcher thread"] |}.



Definition unwatched_world : world :=
  {| mgr := manager_1000; fs := watched_fs; out := [] |}.

(** * More of the acquisition thread *)

(** The image [_get_color_image] builds from a frame, lines 86-98, as a
    function of the frame: the width and height it passes on are the
    frame's own. *)
Definition color_image (transform_to_24 : ndarray → Z → Z → result ndarray)
    (frame : Frame) : result Image :=
  match shape_at (image_buffer frame) 1 with
  | Raise e => Raise e
  | Ok width =>
      match shape_at (image_buffer frame) 0 with
      | Raise e => Raise e
      | Ok height =>
          match transform_to_24 (image_buffer frame) width height with
          | Raise e => Raise e
          | Ok color_image_data =>
              match reshape color_image_data height width 3 with
              | Raise e => Raise e
              | Ok color_image_data => fromarray_RGB color_image_data
              end
          end
      end
  end.

(** The image a pass makes of a frame, lines 114-117. *)
Definition rendered (transform_to_24 : ndarray → Z → Z → result ndarray)
    (is_color : bool) (frame : Frame) : result Image :=
  if is_color then color_image transform_to_24 frame
  else fromarray (image_buffer frame).

(** The images of the frames polled, in poll order, those whose
    conversion raised left out. *)
Definition polled_images (transform_to_24 : ndarray → Z → Z → result ndarray)
    (is_color : bool) (tks : list tick) : list Image :=
  omap (λ tk, match poll tk with
              | Ok (Some frame) =>
                  match rendered transform_to_24 is_color frame with
                  | Ok pil_image => Some pil_image
                  | Raise _ => None
                  end
              | _ => None
              end) tks.

(** Successful enqueues since the last drop or the start: the count of
    the stretch under way. *)
Fixpoint current_stretch (cur : nat) (os : list outcome) : nat :=
  match os with
  | [] => cur
  | Dropped :: os' => current_stretch 0 os'
  | Enqueued :: os' => current_stretch (S cur) os'
  | _ :: os' => current_stretch cur os'
  end.

(** Neither the poll nor the vendor's transform raises [queue.Full]: only
    the queue does. *)
Definition full_only_from_queue
    (transform_to_24 : ndarray → Z → Z → result ndarray)
    (tks : list tick) : Prop :=
  (∀ buf w h e, transform_to_24 buf w h = Raise e → exn_cls e ≠ QueueFull) ∧
  Forall (λ tk, ∀ e, poll tk = Raise e → exn_cls e ≠ QueueFull) tks.

(** A shared queue without a bound, as [queue.Queue()] makes it. *)
Definition unbounded_queue : Queue := {| maxsize := 0; items := [] |}.

Definition unbounded_thread : ImageAcquisitionThread :=
  ImageAcquisitionThread_init mono_camera (Some unbounded_queue) true.

(** A transform that returns one value too few. *)
Definition short_transform : ndarray → Z → Z → result ndarray :=
  λ buf _ _, Ok {| shape := [2]; dt := uint8; data := [0; 0] |}.

Definition frame_tick (frame : Frame) : tick :=
  {| consumer_gets := 0; poll := Ok (Some frame) |}.

Definition six_frames : list tick :=
  [got 0 1; got 0 2; got 0 3; got 0 4; got 0 5; got 0 6].

Definition frame_1x2_next : Frame :=
  {| image_buffer := {| shape := [1; 2]; dt := uint16; data := [8; 3] |} |}.

(** * More of the configuration manager *)

(** An action that leaves the backing file alone. *)
Definition leaves_file (a : action) : Prop :=
  match a with
  | FileWrite _ | FileDelete | CallSave => False
  | _ => True
  end.

(** An action that is not a call of [set]. *)
Definition leaves_map (a : action) : Prop :=
  match a with
  | CallSet _ _ => False
  | _ => True
  end.




(** With the file as it was at the start, the watcher has nothing to
    report: it is at its start, ended, or going round its loop with the
    file's text as the last text seen. *)
Definition calm (fs0 : files) (w : world) : Prop :=
  fs w = fs0 ∧ file_change (mgr w) = false ∧
  match config_watcher_thread (mgr w) with
  | None => True
  | Some th =>
      match pc th with
      | W_start | W_done | W_crashed _ => True
      | W_test | W_read | W_sleep false | W_clear false =>
          fs0 !! config_file_path (mgr w) = Some (comandosText th)
      | W_compare content =>
          fs0 !! config_file_path (mgr w) = Some (comandosText th) ∧
          content = comandosText th
      | _ => False
      end
  end.

(** Another program starts rewriting the file and is caught half way: the
    watcher sees the change and is about to reload. *)
Definition half_written : list action :=
  [Watcher; Watcher; FileWrite truncated_text; Watcher; Watcher].

(** The file is removed while the watcher goes round its loop. *)
Definition removed_in_loop : list action :=
  [Watcher; Watcher; FileDelete].

(** The file is rewritten, the watcher sees it, and the file is removed
    before the watcher reloads it. *)
Definition removed_before_reload : list action :=
  [Watcher; Watcher; FileWrite edited_text; Watcher; Watcher; FileDelete].




(** * Disposal and reinitialization ([src/ini_camera.py], lines 194-200
      and 239-273) *)

(** The calls made on the SDK's objects when a camera is disposed, and
    what the SDK answers to them. *)
Inductive sdk_call := Disarm | Dispose_camera | Dispose_sdk.

Global Instance sdk_call_eq_dec : EqDecision sdk_call.
Proof. solve_decision. Defined.

Record dispose_env := {
  disarm : result unit;           (* [TLCamera.disarm()] *)
  camera_dispose : result unit;   (* [TLCamera.dispose()] *)
  sdk_dispose : result unit       (* [TLCameraSDK.dispose()] *)
}.

Module Lifecycle.

(** The handler, and the calls made so far on the SDK's objects to
    release them, oldest first. *)
Record t := {
  handler : ThorlabsCameraHandler.t;
  sdk_calls : list sdk_call
}.

Definition on_handler (f : ThorlabsCameraHandler.t → ThorlabsCameraHandler.t)
    (s : t) : t :=
  {| handler := f (handler s); sdk_calls := sdk_calls s |}.

Definition called (c : sdk_call) (s : t) : t :=
  {| handler := handler s; sdk_calls := sdk_calls s ++ [c] |}.

Definition no_attribute (obj name : string) : exn :=
  Exn AttributeError
      ("'" +:+ obj +:+ "' object has no attribute '" +:+ name +:+ "'").

(** [Camera.dispose], lines 194-200, on the Camera object [c]. *)
Definition dispose (denv : dispose_env) (c : Camera.t) : M t unit :=
  match Camera.camera c with
  | None => raise (no_attribute "Camera" "camera")
  | Some None => raise (no_attribute "NoneType" "disarm")
  | Some (Some _) =>
      modify (called Disarm) ;;;
      call (disarm denv) ;;;
      modify (called Dispose_camera) ;;;
      call (camera_dispose denv) ;;;
      if Camera.sdk c then
        modify (called Dispose_sdk) ;;;
        call (sdk_dispose denv)
      else raise (no_attribute "Camera" "sdk")
  end.

(** The property [camera_state], lines 239-242. *)
Definition camera_state (s : t) : bool :=
  ThorlabsCameraHandler.is_alive (handler s).

(** A thread object just made: [start()] has not been called on it. *)
Definition unstarted (h : ThorlabsCameraHandler.t) : ThorlabsCameraHandler.t :=
  {| ThorlabsCameraHandler.config := ThorlabsCameraHandler.config h;
     ThorlabsCameraHandler.signal := ThorlabsCameraHandler.signal h;
     ThorlabsCameraHandler.shared_queue :=
       ThorlabsCameraHandler.shared_queue h;
     ThorlabsCameraHandler.connected := ThorlabsCameraHandler.connected h;
     ThorlabsCameraHandler.is_alive := ThorlabsCameraHandler.is_alive h;
     ThorlabsCameraHandler._camera := ThorlabsCameraHandler._camera h;
     ThorlabsCameraHandler.image_acquisition_thread :=
       ThorlabsCameraHandler.image_acquisition_thread h;
     ThorlabsCameraHandler.thread_started := false;
     ThorlabsCameraHandler.printed := ThorlabsCameraHandler.printed h |}.

(** [self.shared_queue.queue.clear()]: the same queue object, emptied. *)
Definition clear_shared_queue (q : Queue) (h : ThorlabsCameraHandler.t)
    : ThorlabsCameraHandler.t :=
  {| ThorlabsCameraHandler.config := ThorlabsCameraHandler.config h;
     ThorlabsCameraHandler.signal := ThorlabsCameraHandler.signal h;
     ThorlabsCameraHandler.shared_queue :=
       Some {| maxsize := maxsize q; items := [] |};
     ThorlabsCameraHandler.connected := ThorlabsCameraHandler.connected h;
     ThorlabsCameraHandler.is_alive := ThorlabsCameraHandler.is_alive h;
     ThorlabsCameraHandler._camera := ThorlabsCameraHandler._camera h;
     ThorlabsCameraHandler.image_acquisition_thread :=
       ThorlabsCameraHandler.image_acquisition_thread h;
     ThorlabsCameraHandler.thread_started :=
       ThorlabsCameraHandler.thread_started h;
     ThorlabsCameraHandler.printed := ThorlabsCameraHandler.printed h |}.

(** The configuration manager is shared with its owner and its watcher:
    [set_config cm] is the handler seeing the manager as they left it. *)
Definition set_config (cm : ConfigurationManager)
    (h : ThorlabsCameraHandler.t) : ThorlabsCameraHandler.t :=
  {| ThorlabsCameraHandler.config := cm;
     ThorlabsCameraHandler.signal := ThorlabsCameraHandler.signal h;
     ThorlabsCameraHandler.shared_queue :=
       ThorlabsCameraHandler.shared_queue h;
     ThorlabsCameraHandler.connected := ThorlabsCameraHandler.connected h;
     ThorlabsCameraHandler.is_alive := ThorlabsCameraHandler.is_alive h;
     ThorlabsCameraHandler._camera := ThorlabsCameraHandler._camera h;
     ThorlabsCameraHandler.image_acquisition_thread :=
       ThorlabsCameraHandler.image_acquisition_thread h;
     ThorlabsCameraHandler.thread_started :=
       ThorlabsCameraHandler.thread_started h;
     ThorlabsCameraHandler.printed := ThorlabsCameraHandler.printed h |}.

(** The [try] block of [initialize_camera], lines 231-234, on a handler
    that may hold a thread already: the thread it makes is a new object,
    not started. *)
Definition try_block (env : sdk_env) : M t unit :=
  let! cfg := gets (λ s, ThorlabsCameraHandler.config (handler s)) in
  let '(cam, made) := Camera.init env cfg in
  modify (on_handler (ThorlabsCameraHandler.print (Camera.printed cam))) ;;;
  call made ;;;
  modify (on_handler (ThorlabsCameraHandler.set__camera (Some cam))) ;;;
  modify (on_handler
            (ThorlabsCameraHandler.set_connected (Camera.is_connected cam))) ;;;
  let! connected := gets (λ s, ThorlabsCameraHandler.connected (handler s)) in
  if connected then
    let! q := gets (λ s, ThorlabsCameraHandler.shared_queue (handler s)) in
    let! sg := gets (λ s, ThorlabsCameraHandler.signal (handler s)) in
    let! th := call (ThorlabsCameraHandler.new_thread
                       env (Camera.camera cam) q sg) in
    modify (on_handler (ThorlabsCameraHandler.set_thread th)) ;;;
    modify (on_handler unstarted)
  else ret tt.

(** [initialize_camera], lines 227-237. *)
Definition initialize_camera (env : sdk_env) : M t unit :=
  λ s, match try_block env s with
       | (s', Ok _) => (s', Ok tt)
       | (s', Raise e) =>
           (on_handler
              (λ h, ThorlabsCameraHandler.set__camera None
                      (ThorlabsCameraHandler.print
                         ["Encountered error: " +:+ exn_msg e] h)) s',
            Ok tt)
       end.

(** [activate_camera_instance], lines 244-249, on a handler whose thread
    may have been started before: [Thread.start()] raises RuntimeError
    then. *)
Definition activate_camera_instance : M t unit :=
  modify (on_handler
            (ThorlabsCameraHandler.print
               ["Starting image acquisition thread..."])) ;;;
  modify (on_handler (ThorlabsCameraHandler.set_is_alive true)) ;;;
  let! th := gets (λ s, ThorlabsCameraHandler.image_acquisition_thread
                          (handler s)) in
  match th with
  | None =>
      raise (no_attribute "ThorlabsCameraHandler" "image_acquisition_thread")
  | Some _ =>
      let! started :=
        gets (λ s, ThorlabsCameraHandler.thread_started (handler s)) in
      if started then
        raise (Exn OtherError "threads can only be started once")
      else
        modify (on_handler ThorlabsCameraHandler.set_started) ;;;
        modify (on_handler
                  (ThorlabsCameraHandler.print ["Image thred alive: True"]))
  end.

(** [dispose_camera_instance], lines 264-273. [stop()] sets the thread's
    stop event, at which the loop of [run] ends, so [join()] returns;
    on a thread never started [join()] raises RuntimeError. *)
Definition dispose_camera_instance (denv : dispose_env) : M t unit :=
  let! alive := gets (λ s, ThorlabsCameraHandler.is_alive (handler s)) in
  (if alive then
     let! th := gets (λ s, ThorlabsCameraHandler.image_acquisition_thread
                             (handler s)) in
     match th with
     | None =>
         raise (no_attribute "ThorlabsCameraHandler"
                             "image_acquisition_thread")
     | Some _ =>
         let! started :=
           gets (λ s, ThorlabsCameraHandler.thread_started (handler s)) in
         if started then
           modify (on_handler
                     (ThorlabsCameraHandler.print
                        ["Image thred alive: False"])) ;;;
           modify (on_handler (ThorlabsCameraHandler.set_is_alive false))
         else
           raise (Exn OtherError "cannot join thread before it is started")
     end
   else ret tt) ;;;
  let! cam := gets (λ s, ThorlabsCameraHandler._camera (handler s)) in
  match cam with
  | None => raise (no_attribute "ThorlabsCameraHandler" "_camera")
  | Some None => raise (no_attribute "NoneType" "dispose")
  | Some (Some c) => dispose denv c
  end.

(** [reinitialize], lines 251-262. *)
Definition reinitialize (env : sdk_env) (denv : dispose_env) : M t unit :=
  let! connected := gets (λ s, ThorlabsCameraHandler.connected (handler s)) in
  if connected then
    dispose_camera_instance denv ;;;
    (let! q := gets (λ s, ThorlabsCameraHandler.shared_queue (handler s)) in
     match q with
     | None => raise (no_attribute "NoneType" "mutex")
     | Some q => modify (on_handler (clear_shared_queue q))
     end) ;;;
    initialize_camera env ;;;
    activate_camera_instance
  else ret tt.

(** The handler holds no [Camera] with an opened camera. *)
Definition holds_no_camera (h : ThorlabsCameraHandler.t) : Prop :=
  match ThorlabsCameraHandler._camera h with
  | Some (Some c) => Camera.camera c = None ∨ Camera.camera c = Some None
  | _ => True
  end.

(** [ThorlabsCameraHandler(config_manager, shared_queue, signal)] with
    nothing released yet. *)
Definition start (env : sdk_env) (config_manager : ConfigurationManager)
    (shared_queue : option Queue) (signal : bool) : t :=
  {| handler :=
       (ThorlabsCameraHandler.init env config_manager shared_queue signal).1;
     sdk_calls := [] |}.

(** What the owner of a handler does with it, with what the SDK answers
    at that time; [Settings cm] is the shared configuration manager
    changing to [cm]. *)
Inductive request :=
| Activate
| Dispose (denv : dispose_env)
| Reinitialize (env : sdk_env) (denv : dispose_env)
| Settings (cm : ConfigurationManager).

Definition serve (r : request) : M t unit :=
  match r with
  | Activate => activate_camera_instance
  | Dispose denv => dispose_camera_instance denv
  | Reinitialize env denv => reinitialize env denv
  | Settings cm => modify (on_handler (set_config cm))
  end.

(** The requests in order, the owner going on after one that raised. *)
Definition session (rs : list request) (s : t) : t :=
  foldl (λ s r, (serve r s).1) s rs.

End Lifecycle.

(** An SDK with one camera, every call succeeding; the same with the
    colour library failing to load; and an SDK releasing everything. *)
Definition sdk_with (cam : TLCamera) : sdk_env :=
  {| TLCameraSDK := Ok tt; discover_available_cameras := Ok ["05871"];
     open_camera := λ _, Ok cam;
     set_exposure_time_us := λ _, Ok tt;
     set_frames_per_trigger_zero_for_unlimited := λ _, Ok tt;
     set_operation_mode := λ _, Ok tt; set_trigger_polarity := λ _, Ok tt;
     arm := λ _, Ok tt; MonoToColorProcessorSDK := Ok tt |}.

Definition sdk_without_color : sdk_env :=
  {| TLCameraSDK := Ok tt; discover_available_cameras := Ok ["05871"];
     open_camera := λ _, Ok bayer_camera;
     set_exposure_time_us := λ _, Ok tt;
     set_frames_per_trigger_zero_for_unlimited := λ _, Ok tt;
     set_operation_mode := λ _, Ok tt; set_trigger_polarity := λ _, Ok tt;
     arm := λ _, Ok tt;
     MonoToColorProcessorSDK := Raise (Exn OtherError "dll not found") |}.

Definition releasing : dispose_env :=
  {| disarm := Ok tt; camera_dispose := Ok tt; sdk_dispose := Ok tt |}.

(** * path_setup ([src/path_setup.py]) and its use ([src/ini_camera.py],
      lines 6-11) *)

(** [s.split(sep)] for a separator of one character. *)
Fixpoint split (sep : ascii) (s : string) : list string :=
  match s with
  | EmptyString => [EmptyString]
  | String c s' =>
      if decide (c = sep) then EmptyString :: split sep s'
      else match split sep s' with
           | x :: xs => String c x :: xs
           | [] => [String c EmptyString]
           end
  end.

(** [l[-1]]. *)
Definition last_item (l : list string) : result string :=
  match last l with
  | Some x => Ok x
  | None => Raise (Exn IndexError "list index out of range")
  end.

(** The part of the process that [configure_path] changes: [os.environ]
    and the directories given to [os.add_dll_directory]. *)
Record process := {
  environ : gmap string string;
  dll_directories : list string
}.

Definition putenv (name value : string) (p : process) : process :=
  {| environ := <[name := value]> (environ p);
     dll_directories := dll_directories p |}.

Definition added (d : string) (p : process) : process :=
  {| environ := environ p; dll_directories := dll_directories p ++ [d] |}.

(** [os.environ[name]]. *)
Definition getenv (name : string) : M process string :=
  λ p, match environ p !! name with
       | Some v => (p, Ok v)
       | None => (p, Raise (Exn OtherError ("'" +:+ name +:+ "'")))
       end.

Section path_setup.

(** [sys.maxsize], [os.sep], [os.pathsep], [os.path.abspath],
    [os.path.dirname], [__file__], and [os.add_dll_directory] where the
    interpreter has it. *)
Variable maxsize_ : Z.
Variable sep : ascii.
Variable pathsep : string.
Variable abspath : string → string.
Variable dirname : string → string.
Variable __file__ : string.
Variable os_add_dll_directory : option (string → result unit).

Definition os_sep : string := String sep EmptyString.

Definition add_dll_directory (d : string) : M process unit :=
  match os_add_dll_directory with
  | None =>
      raise (Exn AttributeError
               "module 'os' has no attribute 'add_dll_directory'")
  | Some f => call (f d) ;;; modify (added d)
  end.

(** [configure_path], lines 15-38. *)
Definition configure_path : M process unit :=
  let is_64bits := bool_decide (2 ^ 32 < maxsize_) in
  let full_path_current_directory := abspath "." in
  let! current_directory :=
    call (last_item (split sep full_path_current_directory)) in
  let relative_path_to_dlls :=
    ".." +:+ os_sep +:+ current_directory +:+ os_sep +:+ "dlls" +:+ os_sep in
  let relative_path_to_dlls :=
    if is_64bits then relative_path_to_dlls +:+ "64_lib"
    else relative_path_to_dlls +:+ "32_lib" in
  let absolute_path_to_file_directory := dirname (abspath __file__) in
  let absolute_path_to_dlls :=
    abspath (absolute_path_to_file_directory +:+ os_sep +:+
             relative_path_to_dlls) in
  let! path := getenv "PATH" in
  modify (putenv "PATH" (absolute_path_to_dlls +:+ pathsep +:+ path)) ;;;
  λ p, match add_dll_directory absolute_path_to_dlls p with
       | (p', Ok _) => (p', Ok tt)
       | (p', Raise e) =>
           if decide (exn_cls e = AttributeError) then (p', Ok tt)
           else (p', Raise e)
       end.

(** The import of [path_setup] at the head of [ini_camera.py], lines
    6-11: [found] says whether the module can be imported. When it
    cannot, the ImportError is caught and [configure_path] is bound to
    None; what [configure_path] itself raises, KeyError or the error of
    [os.add_dll_directory], is not an ImportError and is not caught. It
    returns whether [configure_path] is bound to the function. *)
Definition import_path_setup (found : bool) : M process bool :=
  if found then configure_path ;;; ret true
  else ret false.

(** The directory [configure_path] computes: beside the directory of the
    file, under the name of the current directory. *)
Definition dlls_directory : string :=
  let current_directory :=
    default EmptyString (last (split sep (abspath "."))) in
  let relative_path_to_dlls :=
    ".." +:+ os_sep +:+ current_directory +:+ os_sep +:+ "dlls" +:+ os_sep in
  abspath (dirname (abspath __file__) +:+ os_sep +:+
           (if bool_decide (2 ^ 32 < maxsize_)
            then relative_path_to_dlls +:+ "64_lib"
            else relative_path_to_dlls +:+ "32_lib")).

(** [n] calls of [configure_path], stopping at the first that raises. *)
Fixpoint configure_path_times (n : nat) : M process unit :=
  match n with
  | O => ret tt
  | S n' => configure_path ;;; configure_path_times n'
  end.

End path_setup.

(** [d] followed by [pathsep], [n] times, in front of [path]. *)
Fixpoint prepended (n : nat) (d pathsep path : string) : string :=
  match n with
  | O => path
  | S n' => d +:+ pathsep +:+ prepended n' d pathsep path
  end.

Definition windows_process : process :=
  {| environ := {["PATH" := "C:\Windows"]}; dll_directories := [] |}.

Definition bare_process : process :=
  {| environ := ∅; dll_directories := [] |}.

(** A stand-in for [os.path.abspath] and [os.path.dirname] on one machine:
    the program is started in [C:\thorcam] and its file is
    [C:\thorcam\src\path_setup.py]. *)
Definition abspath_here (p : string) : string :=
  if decide (p = ".") then "C:\thorcam"
  else if decide (p = "path_setup.py") then "C:\thorcam\src\path_setup.py"
  else if decide (p = "C:\thorcam\src\..\thorcam\dlls\64_lib")
       then "C:\thorcam\thorcam\dlls\64_lib"
  else p.

Definition dirname_here (p : string) : string :=
  if decide (p = "C:\thorcam\src\path_setup.py") then "C:\thorcam\src"
  else p.

(** [os.add_dll_directory] on a directory that does not exist. *)
Definition no_such_directory : string → result unit :=
  λ _, Raise (Exn FileNotFoundError "The system cannot find the file specified").

(** * Properties of the acquisition loop *)

Section acquisition_facts.

Variable transform_to_24 : ndarray → Z → Z → result ndarray.
Variable processor_dispose : result unit.
Variable color_sdk_dispose : result unit.

Abbreviation convert := (convert transform_to_24).
Abbreviation try_block := (try_block transform_to_24).
Abbreviation iteration := (iteration transform_to_24).
Abbreviation loop := (loop transform_to_24).
Abbreviation after_loop := (after_loop processor_dispose color_sdk_dispose).
Abbreviation run := (run transform_to_24 processor_dispose color_sdk_dispose).
Abbreviation history := (history transform_to_24).
Abbreviation pass_outcome := (pass_outcome transform_to_24).

Ltac run_monad :=
  unfold bind, call, gets, ret, modify, raise in *; simpl in *.

Lemma _get_image_frame frame t t' r :
  _get_image frame t = (t', r) → t' = t.
Proof. unfold _get_image. run_monad. congruence. Qed.

Lemma _get_color_image_frame frame t t' r :
  _get_color_image transform_to_24 frame t = (t', r) → same_but_dims t t'.
Proof.
  unfold _get_color_image, same_but_dims. run_monad.
  destruct (shape_at (image_buffer frame) 1); [|by intros [= <- _]].
  destruct (shape_at (image_buffer frame) 0); [|by intros [= <- _]].
  destruct (_ || _); simpl.
  - destruct (transform_to_24 _ _ _) as [out|]; [|by intros [= <- _]].
    destruct (reshape _ _ _ _); by intros [= <- _].
  - destruct (transform_to_24 _ _ _) as [out|]; [|by intros [= <- _]].
    destruct (reshape _ _ _ _); by intros [= <- _].
Qed.

Lemma convert_frame frame t t' r :
  convert frame t = (t', r) → same_but_dims t t'.
Proof.
  unfold convert. destruct (_is_color t).
  - apply _get_color_image_frame.
  - intros H. apply _get_image_frame in H as ->. by repeat split.
Qed.

(** The [try] block, path by path. *)
Lemma try_block_unfold emit_signal nr tk t :
  try_block emit_signal nr tk t =
  match poll tk with
  | Raise e => (t, Raise e)
  | Ok None => (t, Ok nr)
  | Ok (Some frame) =>
      match convert frame t with
      | (t1, Raise e) => (t1, Raise e)
      | (t1, Ok pil_image) =>
          match put_nowait (_image_queue t1) pil_image with
          | Raise e => (t1, Raise e)
          | Ok q =>
              if Nat.eqb (S nr) 2
              then ((if emit_signal then emit true else id) (set_queue q t1),
                    Ok 0%nat)
              else (set_queue q t1, Ok (S nr))
          end
      end
  end.
Proof.
  unfold try_block, convert, enqueue. run_monad.
  destruct (poll tk) as [[frame|]|]; try done.
  destruct (_is_color t).
  - destruct (_get_color_image _ _ _) as [t1 [img|]]; [|done].
    destruct (put_nowait _ _); [|done].
    destruct (Nat.eqb _ _); [|done]. by destruct emit_signal.
  - destruct (_get_image _ _) as [t1 [img|]]; [|done].
    destruct (put_nowait _ _); [|done].
    destruct (Nat.eqb _ _); [|done]. by destruct emit_signal.
Qed.

Lemma consume_bound n q :
  qsize q ≤ maxsize q → qsize (consume n q) ≤ maxsize (consume n q).
Proof. unfold qsize, consume. simpl. rewrite length_drop. lia. Qed.

(** One pass, path by path: [t0] is the thread once the consumer has
    taken its images. *)
Lemma iteration_unfold emit_signal tk t nr :
  iteration emit_signal tk (t, nr) =
  let t0 := set_queue (consume (consumer_gets tk) (_image_queue t)) t in
  match poll tk with
  | Raise e => handle e t0 nr
  | Ok None => (t0, nr, Continue)
  | Ok (Some frame) =>
      match convert frame t0 with
      | (t1, Raise e) => handle e t1 nr
      | (t1, Ok pil_image) =>
          if full (_image_queue t1) then (t1, 0%nat, Continue)
          else
            let q := {| maxsize := maxsize (_image_queue t1);
                        items := items (_image_queue t1) ++ [pil_image] |} in
            if Nat.eqb (S nr) 2
            then ((if emit_signal then emit true else id) (set_queue q t1),
                  0%nat, Continue)
            else (set_queue q t1, S nr, Continue)
      end
  end.
Proof.
  unfold iteration, handle, fatal_line. rewrite try_block_unfold. simpl.
  destruct (poll tk) as [[frame|]|e]; try done.
  destruct (convert frame _) as [t1 [img|e]]; [|done].
  unfold put_nowait. destruct (full _); [done|].
  by destruct (Nat.eqb _ _).
Qed.

Lemma pass_outcome_unfold emit_signal tk t nr :
  pass_outcome emit_signal tk (t, nr) =
  let t0 := set_queue (consume (consumer_gets tk) (_image_queue t)) t in
  match poll tk with
  | Raise e => if decide (exn_cls e = QueueFull) then Dropped else Fatal
  | Ok None => Idle
  | Ok (Some frame) =>
      match convert frame t0 with
      | (t1, Raise e) =>
          if decide (exn_cls e = QueueFull) then Dropped else Fatal
      | (t1, Ok pil_image) =>
          if full (_image_queue t1) then Dropped else Enqueued
      end
  end.
Proof.
  unfold pass_outcome. rewrite try_block_unfold. simpl.
  destruct (poll tk) as [[frame|]|e]; try done.
  - destruct (convert frame _) as [t1 [img|e]] eqn:Hc; [|done].
    apply convert_frame in Hc as (Hq & _). simpl in Hq.
    unfold put_nowait. destruct (full _); [done|].
    assert (∀ t', _image_queue t' =
              {| maxsize := maxsize (_image_queue t1);
                 items := items (_image_queue t1) ++ [img] |} →
            (if decide (qsize (_image_queue t') =
                        qsize (consume (consumer_gets tk) (_image_queue t)))
             then Idle else Enqueued) = Enqueued) as Hgrow.
    { intros t' ->. rewrite decide_False; [done|].
      unfold qsize. simpl. rewrite Hq, length_app. simpl. lia. }
    destruct (Nat.eqb _ _); [destruct emit_signal|]; by apply Hgrow.
  - by rewrite decide_True.
Qed.

Lemma iteration_effect emit_signal tk t nr :
  let '(t', nr', c) := iteration emit_signal tk (t, nr) in
  pass_effect emit_signal tk t nr (pass_outcome emit_signal tk (t, nr))
              t' nr' c.
Proof.
  rewrite iteration_unfold, pass_outcome_unfold. simpl.
  unfold pass_effect, handle.
  destruct (poll tk) as [[frame|]|e].
  - destruct (convert frame _) as [t1 [img|e]] eqn:Hc;
      apply convert_frame in Hc as (Hq & Hs & Hcol & Hem & Hp & Hd);
      simpl in *.
    + destruct (full (_image_queue t1)) eqn:Hfull.
      * rewrite Hq, Hcol, Hs, Hem, Hp, Hd. by repeat split.
      * assert (full (consume (consumer_gets tk) (_image_queue t)) = false)
          by (by rewrite <- Hq).
        destruct (Nat.eqb _ _); [destruct emit_signal|]; simpl;
          rewrite ?Hq, ?Hcol, ?Hs, ?Hem, ?Hp, ?Hd, ?app_nil_r;
          repeat split; eauto.
    + destruct (decide _); simpl;
        rewrite ?Hq, ?Hcol, ?Hs, ?Hem, ?Hp, ?Hd; by repeat split.
  - by repeat split.
  - destruct (decide _); by repeat split.
Qed.

Lemma loop_cons emit_signal tk tks st :
  loop emit_signal (tk :: tks) st =
  match iteration emit_signal tk st with
  | (t, nr, Continue) => loop emit_signal tks (t, nr)
  | (t, nr, Break) => (t, nr)
  end.
Proof. done. Qed.

Lemma history_cons emit_signal tk tks st :
  history emit_signal (tk :: tks) st =
  pass_outcome emit_signal tk st ::
  match iteration emit_signal tk st with
  | (t, nr, Continue) => history emit_signal tks (t, nr)
  | (_, _, Break) => []
  end.
Proof. done. Qed.

(** A property of the thread kept by every pass is kept by the loop. *)
Lemma loop_invariant (P : ImageAcquisitionThread → Prop) emit_signal :
  (∀ tk t nr, P t → P (iteration emit_signal tk (t, nr)).1.1) →
  ∀ tks t nr, P t → P (loop emit_signal tks (t, nr)).1.
Proof.
  intros Hstep tks. induction tks as [|tk tks IH]; intros t nr HP; [done|].
  rewrite loop_cons. specialize (Hstep tk t nr HP).
  destruct (iteration emit_signal tk (t, nr)) as [[t' nr'] [|]]; simpl in *.
  - by apply IH.
  - done.
Qed.

Lemma iteration_bounded emit_signal tk t nr m :
  0 < m →
  maxsize (_image_queue t) = m ∧ bounded (_image_queue t) →
  let t' := (iteration emit_signal tk (t, nr)).1.1 in
  maxsize (_image_queue t') = m ∧ bounded (_image_queue t').
Proof.
  intros Hm [Hmax Hb]. pose proof (iteration_effect emit_signal tk t nr) as H.
  destruct (iteration emit_signal tk (t, nr)) as [[t' nr'] c]. simpl.
  destruct H as (Hmax' & _ & _ & _ & _ & H). split; [congruence|].
  pose proof (consume_bound (consumer_gets tk) _ Hb) as Hb0.
  assert (∀ img, full (consume (consumer_gets tk) (_image_queue t)) = false →
            Z.of_nat (length (drop (consumer_gets tk)
                                (items (_image_queue t)) ++ [img])) ≤ m)
    as Hput.
  { intros img Hfull. unfold full, qsize, consume in Hfull. simpl in Hfull.
    rewrite length_app. simpl.
    apply andb_false_iff in Hfull as [?%Z.ltb_ge | ?%Z.leb_gt]; lia. }
  unfold bounded, qsize, consume in *. simpl in Hb0. rewrite Hmax', Hmax.
  destruct (pass_outcome emit_signal tk (t, nr)).
  - destruct H as (_ & _ & _ & ->). lia.
  - destruct H as (_ & _ & _ & Hfull & img & ->). by apply Hput.
  - destruct H as (_ & _ & _ & ->). lia.
  - destruct H as (_ & _ & ->). lia.
Qed.

Lemma loop_bounded emit_signal tks t nr m :
  0 < m →
  maxsize (_image_queue t) = m → bounded (_image_queue t) →
  let t' := (loop emit_signal tks (t, nr)).1 in
  maxsize (_image_queue t') = m ∧ bounded (_image_queue t').
Proof.
  intros Hm Hmax Hb.
  apply (loop_invariant
           (λ t, maxsize (_image_queue t) = m ∧ bounded (_image_queue t)));
    [|done].
  intros tk t0 nr0. by apply iteration_bounded.
Qed.

(** [after_loop] as one step on the thread. *)
Lemma after_loop_unfold t :
  after_loop t =
  let t1 := print "Image acquisition has stopped" t in
  if _is_color t then
    match processor_dispose with
    | Raise e => (t1, Raise e)
    | Ok _ =>
        match color_sdk_dispose with
        | Raise e => (set_processor_disposed t1, Raise e)
        | Ok _ => (set_sdk_disposed (set_processor_disposed t1), Ok tt)
        end
    end
  else (t1, Ok tt).
Proof.
  unfold after_loop, bind, modify, gets, call, ret. cbn.
  destruct (_is_color t); [|done].
  destruct processor_dispose as [[]|e]; [|done]. cbn.
  by destruct color_sdk_dispose as [[]|e].
Qed.

Lemma after_loop_emitted t : emitted (after_loop t).1 = emitted t.
Proof.
  rewrite after_loop_unfold. cbn zeta. destruct (_is_color t); [|done].
  destruct processor_dispose as [[]|e]; [|done].
  by destruct color_sdk_dispose as [[]|e].
Qed.

Lemma loop_is_color emit_signal tks t nr :
  _is_color (loop emit_signal tks (t, nr)).1 = _is_color t.
Proof.
  apply (loop_invariant (λ t', _is_color t' = _is_color t)); [|done].
  intros tk t0 nr0 <-. pose proof (iteration_effect emit_signal tk t0 nr0) as H.
  destruct (iteration emit_signal tk (t0, nr0)) as [[t' nr'] c].
  by destruct H as (_ & ? & _).
Qed.

(** A pass that breaks ends the loop: the later passes do not happen. *)
Lemma loop_break emit_signal tk tks t nr t' nr' :
  iteration emit_signal tk (t, nr) = (t', nr', Break) →
  loop emit_signal (tk :: tks) (t, nr) = (t', nr').
Proof. rewrite loop_cons. by intros ->. Qed.

(** *** Counting the notifications *)

Lemma stretch_counts_no_drop cur os :
  Dropped ∉ os →
  stretch_counts cur os =
  [(cur + length (filter (λ o, o = Enqueued) os))%nat].
Proof.
  revert cur. induction os as [|o os IH]; intros cur Hno; simpl.
  - f_equal. lia.
  - apply not_elem_of_cons in Hno as [Hne Hno].
    destruct o; try done.
    + rewrite filter_cons_False by done. by apply IH.
    + rewrite filter_cons_True by done. rewrite IH by done. simpl.
      f_equal. lia.
    + rewrite filter_cons_False by done. by apply IH.
Qed.

Lemma pairs_due_no_drop os :
  Dropped ∉ os → pairs_due 0 os = pairs_claimed os.
Proof.
  intros Hno. unfold pairs_due, pairs_claimed.
  rewrite stretch_counts_no_drop by done. simpl. lia.
Qed.

Lemma div2_succ cur :
  (S cur `div` 2 = cur `div` 2 + (if Nat.eqb (S (cur `mod` 2)) 2 then 1 else 0))%nat.
Proof.
  pose proof (Nat.div_mod_eq cur 2) as Hc.
  pose proof (Nat.mod_upper_bound cur 2) as Hlt.
  pose proof (Nat.div_mod_eq (S cur) 2) as Hc'.
  pose proof (Nat.mod_upper_bound (S cur) 2) as Hlt'.
  destruct (Nat.eqb_spec (S (cur `mod` 2)) 2); lia.
Qed.

Lemma mod2_succ cur :
  ((if Nat.eqb (S (cur `mod` 2)) 2 then 0 else S (cur `mod` 2)) =
   S cur `mod` 2)%nat.
Proof.
  pose proof (Nat.div_mod_eq cur 2) as Hc.
  pose proof (Nat.mod_upper_bound cur 2) as Hlt.
  pose proof (Nat.div_mod_eq (S cur) 2) as Hc'.
  pose proof (Nat.mod_upper_bound (S cur) 2) as Hlt'.
  destruct (Nat.eqb_spec (S (cur `mod` 2)) 2); lia.
Qed.

Lemma pairs_due_nil cur : pairs_due cur [] = (cur `div` 2)%nat.
Proof. change (pairs_due cur []) with (cur `div` 2 + 0)%nat. apply Nat.add_0_r. Qed.

Lemma pairs_due_cons cur o os :
  pairs_due cur (o :: os) =
  match o with
  | Dropped => (cur `div` 2 + pairs_due 0 os)%nat
  | Enqueued => pairs_due (S cur) os
  | _ => pairs_due cur os
  end.
Proof. by destruct o. Qed.

(** The loop's counter is the current stretch's count modulo 2, and the
    notifications sent are the pairs due. *)
Lemma loop_emitted emit_signal tks t cur :
  ∃ k, emitted (loop emit_signal tks (t, (cur `mod` 2)%nat)).1 =
       emitted t ++ replicate k true ∧
       (k + cur `div` 2)%nat =
       if emit_signal
       then pairs_due cur (history emit_signal tks (t, (cur `mod` 2)%nat))
       else (cur `div` 2)%nat.
Proof.
  revert t cur. induction tks as [|tk tks IH]; intros t cur.
  { exists 0%nat. cbn [loop history fst replicate]. rewrite app_nil_r, pairs_due_nil.
    split; [done|]. by destruct emit_signal. }
  rewrite loop_cons, history_cons, pairs_due_cons.
  pose proof (iteration_effect emit_signal tk t (cur `mod` 2)%nat) as H.
  destruct (iteration emit_signal tk (t, (cur `mod` 2)%nat))
    as [[t' nr'] c].
  destruct H as (_ & _ & _ & _ & _ & H).
  destruct (pass_outcome emit_signal tk (t, (cur `mod` 2)%nat)).
  - destruct H as (-> & -> & Hem & _).
    destruct (IH t' cur) as (k & Hk & Hsum). exists k.
    by rewrite Hk, Hem.
  - destruct H as (-> & -> & Hem & _).
    rewrite mod2_succ. destruct (IH t' (S cur)) as (k & Hk & Hsum).
    rewrite Hk, Hem, <- app_assoc. rewrite div2_succ in Hsum.
    destruct (Nat.eqb _ _), emit_signal; cbn [andb app] in *.
    + exists (S k). split; [done|]. lia.
    + exists k. split; [done|]. lia.
    + exists k. split; [done|]. lia.
    + exists k. split; [done|]. lia.
  - destruct H as (-> & -> & Hem & _).
    destruct (IH t' 0%nat) as (k & Hk & Hsum). exists k.
    change (0 `mod` 2)%nat with 0%nat in *.
    change (0 `div` 2)%nat with 0%nat in *. rewrite Hk, Hem.
    split; [done|]. destruct emit_signal; lia.
  - destruct H as (-> & Hem & _). exists 0%nat. cbn [fst replicate].
    rewrite Hem, app_nil_r, pairs_due_nil. split; [done|].
    by destruct emit_signal.
Qed.

End acquisition_facts.

(** ** The colour and monochrome conversions *)

(** [_get_color_image] on a 2-D frame: the cached dimensions become the
    frame's, and the vendor's transform is called with them. *)
Lemma _get_color_image_unfold transform_to_24 frame t H W :
  shape (image_buffer frame) = [H; W] →
  _get_color_image transform_to_24 frame t =
  let t' := if bool_decide (W ≠ _image_width t) ||
               bool_decide (H ≠ _image_height t)
            then print dimension_change_line (set_dims W H t) else t in
  match transform_to_24 (image_buffer frame) W H with
  | Raise e => (t', Raise e)
  | Ok out =>
      match reshape out H W 3 with
      | Raise e => (t', Raise e)
      | Ok a => (t', fromarray_RGB a)
      end
  end.
Proof.
  intros Hshape. unfold _get_color_image, shape_at, bind, call, gets, modify, ret.
  rewrite Hshape. simpl.
  destruct (bool_decide (W ≠ _image_width t)) eqn:HW;
    destruct (bool_decide (H ≠ _image_height t)) eqn:HH; simpl;
    try (destruct (transform_to_24 _ _ _) as [out|]; [|done];
         by destruct (reshape _ _ _ _)).
  apply bool_decide_eq_false in HW, HH.
  apply dec_stable in HW, HH. rewrite <- HW, <- HH.
  destruct (transform_to_24 _ _ _) as [out|]; [|done].
  by destruct (reshape _ _ _ _).
Qed.

Lemma cached_dims_after t H W :
  let t' := if bool_decide (W ≠ _image_width t) ||
               bool_decide (H ≠ _image_height t)
            then print dimension_change_line (set_dims W H t) else t in
  _image_width t' = W ∧ _image_height t' = H.
Proof.
  simpl. destruct (bool_decide (W ≠ _image_width t)) eqn:HW;
    destruct (bool_decide (H ≠ _image_height t)) eqn:HH; simpl; try done.
  apply bool_decide_eq_false in HW, HH. by apply dec_stable in HW, HH.
Qed.



(** ** The acquisition loop: notifications, capacity, errors *)

(** C1 (amended). With a signal, [run] sends one notification for every two
    successful enqueues of each stretch of passes not interrupted by a
    dropped enqueue, and nothing else (without a signal it sends none); in a
    run without drops that is one for every two successful enqueues. A poll
    that returns no frame leaves the pairing counter as it was, and a
    dropped enqueue sets it to 0. *)
Theorem pair_ready_once_per_two_enqueues_of_a_stretch
    transform_to_24 processor_dispose color_sdk_dispose
    (tks : list tick) (t : ImageAcquisitionThread) :
  let os := history transform_to_24 (_signal t) tks (t, 0%nat) in
  emitted (run transform_to_24 processor_dispose color_sdk_dispose tks t).1 =
    emitted t ++ replicate (if _signal t then pairs_due 0 os else 0%nat) true
  ∧ (Dropped ∉ os → pairs_due 0 os = pairs_claimed os)
  ∧ (∀ emit_signal tk t0 nr,
       poll tk = Ok None →
       ∃ t', iteration transform_to_24 emit_signal tk (t0, nr) =
             (t', nr, Continue) ∧ emitted t' = emitted t0)
  ∧ (∀ emit_signal tk t0 nr,
       pass_outcome transform_to_24 emit_signal tk (t0, nr) = Dropped →
       ∃ t', iteration transform_to_24 emit_signal tk (t0, nr) =
             (t', 0%nat, Continue) ∧ emitted t' = emitted t0).
Proof.
  intros os. split; [|split; [|split]].
  - unfold run. rewrite after_loop_emitted.
    destruct (loop_emitted transform_to_24 (_signal t) tks t 0)
      as (k & Hk & Hsum).
    change (0 `mod` 2)%nat with 0%nat in *.
    change (0 `div` 2)%nat with 0%nat in *.
    rewrite Hk. f_equal. f_equal. subst os.
    destruct (_signal t); lia.
  - apply pairs_due_no_drop.
  - intros emit_signal tk t0 nr Hpoll.
    rewrite iteration_unfold, Hpoll. simpl. eauto.
  - intros emit_signal tk t0 nr Ho.
    pose proof (iteration_effect transform_to_24 emit_signal tk t0 nr) as H.
    destruct (iteration _ _ _ _) as [[t' nr'] c].
    destruct H as (_ & _ & _ & _ & _ & H). rewrite Ho in H.
    destruct H as (-> & -> & Hem & _). eauto.
Qed.

Lemma pair_ready_once_per_two_enqueues_of_a_stretch_witness :
  emitted (run no_transform (Ok tt) (Ok tt) [got 0 1; got 0 2]
             mono_thread).1 = [true] ∧
  pairs_due 0 (history no_transform true [got 0 1; got 0 2]
                 (mono_thread, 0%nat)) =
  pairs_claimed (history no_transform true [got 0 1; got 0 2]
                   (mono_thread, 0%nat)).
Proof.
  destruct (pair_ready_once_per_two_enqueues_of_a_stretch
              no_transform (Ok tt) (Ok tt) [got 0 1; got 0 2] mono_thread)
    as (Hrun & Hclean & _).
  split.
  - exact Hrun.
  - apply Hclean. vm_compute. intros Hin.
    repeat (apply elem_of_cons in Hin as [Hin|Hin]; [discriminate Hin|]).
    by apply elem_of_nil in Hin.
Defined.

(** C1 as stated fails: in [drained_run] the internally owned queue takes
    four images, one pass in between is dropped, and one notification is
    sent where one for every two successful enqueues would be two. *)
Lemma pair_ready_not_once_per_two_enqueues :
  history no_transform true drained_run (mono_thread, 0%nat) =
    [Enqueued; Enqueued; Enqueued; Dropped; Enqueued] ∧
  emitted (run no_transform (Ok tt) (Ok tt) drained_run mono_thread).1 =
    [true] ∧
  pairs_claimed (history no_transform true drained_run (mono_thread, 0%nat))
    = 2%nat ∧
  length (emitted (run no_transform (Ok tt) (Ok tt) drained_run
                     mono_thread).1) ≠
    pairs_claimed (history no_transform true drained_run (mono_thread, 0%nat)).
Proof. vm_compute. repeat split; congruence. Qed.

(** C2. The queue of a thread never holds more images than its capacity:
    at most 2 in the queue the thread makes for itself, and at most
    [maxsize] in a bounded shared queue that starts within its bound. When
    the queue is full at enqueue time the pass ends with the queue's older
    entries as they were, the new image nowhere in the thread, the pairing
    counter 0 and the loop going on. *)
Theorem queue_never_exceeds_capacity transform_to_24 :
  (∀ camera signal emit_signal tks,
     let t := (loop transform_to_24 emit_signal tks
                 (ImageAcquisitionThread_init camera None signal, 0%nat)).1 in
     maxsize (_image_queue t) = 2 ∧ qsize (_image_queue t) ≤ 2)
  ∧ (∀ camera q signal emit_signal tks,
       0 < maxsize q → qsize q ≤ maxsize q →
       let t := (loop transform_to_24 emit_signal tks
                   (ImageAcquisitionThread_init camera (Some q) signal,
                    0%nat)).1 in
       maxsize (_image_queue t) = maxsize q ∧
       qsize (_image_queue t) ≤ maxsize q)
  ∧ (∀ emit_signal tk t nr frame t1 pil_image,
       let t0 := set_queue (consume (consumer_gets tk) (_image_queue t)) t in
       poll tk = Ok (Some frame) →
       convert transform_to_24 frame t0 = (t1, Ok pil_image) →
       full (_image_queue t0) = true →
       iteration transform_to_24 emit_signal tk (t, nr) =
         (t1, 0%nat, Continue) ∧
       items (_image_queue t1) =
         drop (consumer_gets tk) (items (_image_queue t)) ∧
       same_but_dims t0 t1).
Proof.
  split; [|split].
  - intros camera signal emit_signal tks t.
    assert (maxsize (_image_queue t) = 2 ∧ bounded (_image_queue t)) as [Hm Hb].
    { apply loop_bounded; [lia| |];
        unfold ImageAcquisitionThread_init; by destruct (decide _). }
    unfold bounded in Hb. rewrite Hm in Hb. done.
  - intros camera q signal emit_signal tks Hpos Hq t.
    assert (maxsize (_image_queue t) = maxsize q ∧ bounded (_image_queue t))
      as [Hm Hb].
    { apply loop_bounded; [done| |];
        unfold ImageAcquisitionThread_init; by destruct (decide _). }
    unfold bounded in Hb. rewrite Hm in Hb. done.
  - intros emit_signal tk t nr frame t1 img t0 Hpoll Hconv Hfull.
    pose proof (convert_frame _ _ _ _ _ Hconv) as Hsame.
    destruct Hsame as (Hq & Hrest). rewrite iteration_unfold, Hpoll. simpl.
    fold t0. rewrite Hconv, Hq, Hfull. repeat split; try done.
    all: by destruct Hrest as (? & ? & ? & ? & ?).
Qed.

Lemma queue_never_exceeds_capacity_witness :
  qsize (_image_queue
           (loop no_transform false drained_run (shared_thread, 0%nat)).1) ≤ 1
  ∧ iteration no_transform false full_tick (shared_thread_full, 1%nat) =
    (shared_thread_full, 0%nat, Continue).
Proof.
  destruct (queue_never_exceeds_capacity no_transform) as (_ & Hshared & Hdrop).
  split.
  - exact (proj2 (Hshared mono_camera single_slot false false drained_run
                    eq_refl (Z.le_0_1))).
  - exact (proj1 (Hdrop false full_tick shared_thread_full 1%nat (frame1 3)
                    shared_thread_full
                    {| im_mode := I16; im_width := 1; im_height := 1;
                       im_data := [3] |}
                    eq_refl eq_refl eq_refl)).
Defined.

(** C3 (amended). A pass that ends in the queue-full clause is not fatal:
    the loop goes on with the passes that follow it, from the thread as
    that pass left it and with the counter 0. An error of any other class
    raised by the poll or by the conversion is printed and ends the loop
    there: no later pass happens. Whatever ended the loop, [run] then
    prints its last line and, on a colour thread, calls [dispose()] on the
    processor and, only if that call returns, [dispose()] on the
    processor's SDK; what either raises comes out of [run]. So both are
    released when neither call raises, and when the processor's
    [dispose()] raises the SDK is not released. A monochrome thread
    touches neither. *)
Theorem fatal_error_stops_loop_and_color_is_disposed_in_order
    transform_to_24 :
  (∀ emit_signal tk tks t nr,
     pass_outcome transform_to_24 emit_signal tk (t, nr) = Dropped →
     ∃ t',
       iteration transform_to_24 emit_signal tk (t, nr) =
         (t', 0%nat, Continue) ∧
       emitted t' = emitted t ∧
       items (_image_queue t') =
         drop (consumer_gets tk) (items (_image_queue t)) ∧
       loop transform_to_24 emit_signal (tk :: tks) (t, nr) =
         loop transform_to_24 emit_signal tks (t', 0%nat) ∧
       history transform_to_24 emit_signal (tk :: tks) (t, nr) =
         Dropped :: history transform_to_24 emit_signal tks (t', 0%nat))
  ∧ (∀ emit_signal tk tks t nr e,
       let t0 := set_queue (consume (consumer_gets tk) (_image_queue t)) t in
       exn_cls e ≠ QueueFull →
       poll tk = Raise e →
       loop transform_to_24 emit_signal (tk :: tks) (t, nr) =
       (print (fatal_line e) t0, nr))
  ∧ (∀ emit_signal tk tks t nr frame t1 e,
       let t0 := set_queue (consume (consumer_gets tk) (_image_queue t)) t in
       exn_cls e ≠ QueueFull →
       poll tk = Ok (Some frame) →
       convert transform_to_24 frame t0 = (t1, Raise e) →
       loop transform_to_24 emit_signal (tk :: tks) (t, nr) =
       (print (fatal_line e) t1, nr))
  ∧ (∀ processor_dispose color_sdk_dispose tks t,
       let t' := (run transform_to_24 processor_dispose color_sdk_dispose
                    tks t).1 in
       let r := (run transform_to_24 processor_dispose color_sdk_dispose
                   tks t).2 in
       last (stdout t') = Some "Image acquisition has stopped" ∧
       if _is_color t then
         match processor_dispose, color_sdk_dispose with
         | Ok _, Ok _ =>
             r = Ok tt ∧
             processor_disposed t' = true ∧ sdk_disposed t' = true
         | Ok _, Raise e =>
             r = Raise e ∧
             processor_disposed t' = true ∧ sdk_disposed t' = sdk_disposed t
         | Raise e, _ =>
             r = Raise e ∧
             processor_disposed t' = processor_disposed t ∧
             sdk_disposed t' = sdk_disposed t
         end
       else r = Ok tt ∧
            processor_disposed t' = processor_disposed t ∧
            sdk_disposed t' = sdk_disposed t).
Proof.
  split; [|split; [|split]].
  - intros emit_signal tk tks t nr Ho.
    pose proof (iteration_effect transform_to_24 emit_signal tk t nr) as H.
    rewrite loop_cons, history_cons, Ho.
    destruct (iteration _ _ _ _) as [[t' nr'] c].
    destruct H as (_ & _ & _ & _ & _ & H). rewrite Ho in H.
    destruct H as (-> & -> & Hem & Hitems). by exists t'.
  - intros emit_signal tk tks t nr e t0 Hcls Hpoll.
    apply loop_break. rewrite iteration_unfold, Hpoll. simpl.
    unfold handle. by rewrite decide_False.
  - intros emit_signal tk tks t nr frame t1 e t0 Hcls Hpoll Hconv.
    apply loop_break. rewrite iteration_unfold, Hpoll. simpl. fold t0.
    rewrite Hconv. unfold handle. by rewrite decide_False.
  - intros processor_dispose color_sdk_dispose tks t t' r. subst t' r.
    unfold run. rewrite after_loop_unfold. cbn zeta.
    set (st := loop transform_to_24 (_signal t) tks (t, 0%nat)).
    assert (_is_color st.1 = _is_color t) as Hcol by apply loop_is_color.
    assert (processor_disposed st.1 = processor_disposed t ∧
            sdk_disposed st.1 = sdk_disposed t) as [Hp Hs].
    { apply (loop_invariant transform_to_24
               (λ t', processor_disposed t' = processor_disposed t ∧
                      sdk_disposed t' = sdk_disposed t)); [|done].
      intros tk t0 nr0 [<- <-].
      pose proof (iteration_effect transform_to_24 (_signal t) tk t0 nr0) as H.
      destruct (iteration _ _ _ _) as [[t' nr'] c].
      by destruct H as (_ & _ & _ & ? & ? & _). }
    rewrite Hcol. destruct (_is_color t).
    + destruct processor_dispose as [[]|e1].
      * destruct color_sdk_dispose as [[]|e2]; cbn;
          rewrite ?last_snoc; done.
      * cbn. rewrite last_snoc. done.
    + cbn. rewrite last_snoc. done.
Qed.

Lemma fatal_error_stops_loop_and_color_is_disposed_in_order_witness :
  loop gray_to_24 true (poll_fails :: drained_run) (bayer_thread, 0%nat) =
    (print "Encountered error: camera disconnected, image acquisition will stop."
           bayer_thread, 0%nat) ∧
  (∃ t',
     loop no_transform false [full_tick; got 1 4] (shared_thread_full, 1%nat) =
       loop no_transform false [got 1 4] (t', 0%nat) ∧
     history no_transform false [full_tick; got 1 4]
       (shared_thread_full, 1%nat) =
       Dropped :: history no_transform false [got 1 4] (t', 0%nat)).
Proof.
  destruct (fatal_error_stops_loop_and_color_is_disposed_in_order gray_to_24)
    as (_ & Hpoll & _).
  destruct (fatal_error_stops_loop_and_color_is_disposed_in_order no_transform)
    as (Hfull & _).
  split.
  - apply (Hpoll true poll_fails drained_run bayer_thread 0%nat sdk_failure).
    + discriminate.
    + reflexivity.
  - destruct (Hfull false full_tick [got 1 4] shared_thread_full 1%nat)
      as (t' & _ & _ & _ & Hloop & Hhist).
    + vm_compute. reflexivity.
    + by exists t'.
Defined.

(** C3 as stated fails: on a colour thread stopped by the stop event, and
    on one stopped by a fatal error, a [dispose()] of the processor that
    raises leaves the processor's SDK not released, and the error comes out
    of [run]; with a [dispose()] that returns the SDK is released. *)
Lemma color_sdk_is_not_released_when_processor_dispose_raises :
  _is_color bayer_thread = true ∧
  (run gray_to_24 (Raise sdk_failure) (Ok tt) [] bayer_thread).2 =
    Raise sdk_failure ∧
  sdk_disposed
    (run gray_to_24 (Raise sdk_failure) (Ok tt) [] bayer_thread).1 = false ∧
  (run gray_to_24 (Raise sdk_failure) (Ok tt) [poll_fails] bayer_thread).2 =
    Raise sdk_failure ∧
  sdk_disposed
    (run gray_to_24 (Raise sdk_failure) (Ok tt) [poll_fails] bayer_thread).1 =
    false ∧
  sdk_disposed
    (run gray_to_24 (Ok tt) (Ok tt) [poll_fails] bayer_thread).1 = true.
Proof. vm_compute. done. Qed.

(** The spec's scenario: five frames polled, the consumer never takes
    any. The queue ends with the first two images, the other three are
    dropped, and the one notification is that of the first pair. *)
Example five_frames_never_drained :
  let t := (run no_transform (Ok tt) (Ok tt)
                [got 0 1; got 0 2; got 0 3; got 0 4; got 0 5] mono_thread).1 in
  im_data <$> items (_image_queue t) = [[1]; [2]] ∧
  emitted t = [true] ∧
  history no_transform true [got 0 1; got 0 2; got 0 3; got 0 4; got 0 5]
          (mono_thread, 0%nat) =
  [Enqueued; Enqueued; Dropped; Dropped; Dropped].
Proof. vm_compute. done. Qed.

(** * The JSON stand-in reads back what it writes *)

Module PyJsonFacts.

Import PyJson.














































End PyJsonFacts.

(** * Properties of the settings store *)








Lemma load_config_missing json_loads m (fs : files) :
  fs !! config_file_path m = None → load_config json_loads m fs = Ok (JObj []).
Proof. intros H. unfold load_config, read_file. rewrite H. by simpl. Qed.

Lemma load_config_present json_loads m (fs : files) text :
  fs !! config_file_path m = Some text →
  load_config json_loads m fs =
  match json_loads text with
  | Ok c => Ok c
  | Raise e =>
      if decide (exn_cls e = FileNotFoundError) then Ok (JObj []) else Raise e
  end.
Proof. intros H. unfold load_config, read_file. by rewrite H. Qed.

(** C6. [load_config] on a path with no file returns the empty store and
    raises nothing; on a file whose text the JSON parser rejects with a
    JSONDecodeError it raises that error, and so does not return the empty
    store. *)
Theorem load_config_missing_is_empty_malformed_raises
    json_loads (m : ConfigurationManager) (fs : files) :
  (fs !! config_file_path m = None →
   load_config json_loads m fs = Ok (JObj []))
  ∧ (∀ text e,
       fs !! config_file_path m = Some text →
       json_loads text = Raise e →
       exn_cls e = JSONDecodeError →
       load_config json_loads m fs = Raise e ∧
       load_config json_loads m fs ≠ Ok (JObj [])).
Proof.
  split.
  - apply load_config_missing.
  - intros text e Hfile Hbad Hcls.
    rewrite (load_config_present _ _ _ _ Hfile), Hbad.
    rewrite decide_False by (rewrite Hcls; done). done.
Qed.

Lemma load_config_missing_is_empty_malformed_raises_witness :
  load_config PyJson.loads manager_1000 ∅ = Ok (JObj []) ∧
  load_config PyJson.loads manager_1000 {["config.json" := truncated_text]} =
  Raise (Exn JSONDecodeError "Expecting value").
Proof.
  split.
  - apply (load_config_missing_is_empty_malformed_raises
             PyJson.loads manager_1000 ∅). reflexivity.
  - apply (proj2 (load_config_missing_is_empty_malformed_raises
                    PyJson.loads manager_1000
                    {["config.json" := truncated_text]})
             truncated_text); reflexivity.
Defined.




(** The spec's scenario: from a file holding the settings written by
    [save_config], [get("settings")["exposureTime_us"]] is 1000. *)
Example exposure_time_is_read_back :
  load_config PyJson.loads manager_1000 watched_fs = Ok settings_1000 ∧
  get manager_1000 "settings" = Ok exposure_1000 ∧
  Camera.settings_get exposure_1000 "exposureTime_us" = Ok (JInt 1000).
Proof. vm_compute. done. Qed.

(** ** The watcher's flag *)

Section watcher_facts.

Variable json_loads : string → result json.
Variable json_dumps : json → string.

Abbreviation step := (step json_loads json_dumps).
Abbreviation exec := (exec json_loads json_dumps).
Abbreviation watcher_step := (watcher_step json_loads).
Abbreviation init := (ConfigurationManager_init json_loads).

Lemma exec_cons a acts w : exec (a :: acts) w = exec acts (step a w).
Proof. done. Qed.

(** A property kept by every action holds after any sequence of them. *)
Lemma exec_invariant (P : world → Prop) :
  (∀ a w, P w → P (step a w)) → ∀ acts w, P w → P (exec acts w).
Proof.
  intros Hstep acts. induction acts as [|a acts IH]; intros w HP; [done|].
  rewrite exec_cons. by apply IH, Hstep.
Qed.

(** A thread that has ended stays as it is, and so does the flag. *)
Lemma step_terminated a w th :
  config_watcher_thread (mgr w) = Some th → terminated th = true →
  config_watcher_thread (mgr (step a w)) = Some th.
Proof.
  intros Hth Hterm. destruct a; simpl; try done.
  - unfold watcher_step. rewrite Hth.
    unfold terminated in Hterm. destruct (pc th); try done.
  - unfold set. destruct (config (mgr w)); done.
  - unfold stop. destruct (stop_event (mgr w)); done.
Qed.

Lemma step_terminated_flag a w th :
  config_watcher_thread (mgr w) = Some th → terminated th = true →
  file_change (mgr (step a w)) = file_change (mgr w).
Proof.
  intros Hth Hterm. destruct a; simpl; try done.
  - unfold watcher_step. rewrite Hth.
    unfold terminated in Hterm. destruct (pc th); try done.
  - unfold set. destruct (config (mgr w)); done.
  - unfold stop. destruct (stop_event (mgr w)); done.
Qed.

Lemma exec_terminated acts w th :
  config_watcher_thread (mgr w) = Some th → terminated th = true →
  config_watcher_thread (mgr (exec acts w)) = Some th ∧
  file_change (mgr (exec acts w)) = file_change (mgr w).
Proof.
  revert w. induction acts as [|a acts IH]; intros w Hth Hterm; [done|].
  rewrite exec_cons.
  destruct (IH (step a w)) as [Hth' Hflag'];
    [by apply step_terminated|done|].
  split; [done|]. rewrite Hflag'. by eapply step_terminated_flag.
Qed.





Lemma watcher_step_watched w : watched w → watched (watcher_step w).
Proof.
  intros [[th Hth] [Hflag|(Hneg & Hup & Hpc)]].
  - unfold watched, watcher_pc_of, is_updated, in_window in *.
    unfold watcher_step. rewrite Hth in *.
    destruct (pc th) as [| | |content| | |[|]|[|]| |e] eqn:Hpc; simpl in *;
      repeat match goal with
        | |- context [read_file ?f ?p] => destruct (read_file f p)
        | |- context [stop_event ?m] => destruct (stop_event m) as [[|]|]
        | |- context [decide ?P] => destruct (decide P)
        | |- context [load_config ?l ?m ?f] => destruct (load_config l m f)
        end; simpl; rewrite ?Hth, ?Hpc; eauto 6.
  - unfold watcher_pc_of in Hpc. rewrite Hth in Hpc. injection Hpc as Hpc.
    assert (watcher_step w = w) as ->.
    { unfold watcher_step. by rewrite Hth, Hpc. }
    split; [by eexists|]. right. unfold watcher_pc_of.
    by rewrite Hth; simpl; rewrite Hpc.
Qed.

Lemma step_watched a w : watched w → watched (step a w).
Proof.
  destruct a; simpl; try done.
  - apply watcher_step_watched.
  - unfold set. destruct (config (mgr w)); done.
  - unfold stop. destruct (stop_event (mgr w)); done.
Qed.

Lemma init_watched path delay (fs0 : files) w0 :
  init path true delay fs0 = Ok w0 → watched w0.
Proof.
  unfold init, ConfigurationManager_init.
  destruct (load_config _ _ _); [|done]. intros [= <-].
  split; [by eexists|by left].
Qed.

Lemma exec_watched path delay (fs0 : files) w0 acts :
  init path true delay fs0 = Ok w0 → watched (exec acts w0).
Proof.
  intros Hinit. apply (exec_invariant watched).
  - intros a w'. apply step_watched.
  - by apply (init_watched path delay fs0).
Qed.


(** Outside the window the flag is down, unless the sleep ended the
    thread. *)
Lemma watched_flag_at w th :
  watched w → config_watcher_thread (mgr w) = Some th →
  pc th ≠ W_crashed sleep_error →
  is_updated (mgr w) = in_window w.
Proof.
  intros [_ [Hflag|(_ & _ & Hpc)]] Hth Hne; [done|].
  unfold watcher_pc_of in Hpc. rewrite Hth in Hpc. by injection Hpc.
Qed.

Lemma step_unwatched a w : unwatched w → unwatched (step a w).
Proof.
  intros [Hs Ht]. destruct a; simpl; try done.
  - unfold watcher_step. by rewrite Ht.
  - unfold set. destruct (config (mgr w)); done.
  - unfold stop. by rewrite Hs.
Qed.

End watcher_facts.




(** C9. Constructed with [watch_file=True] on a path with no file, the
    manager starts with the empty store, and the watcher's first statement,
    the read of the file before its loop, raises FileNotFoundError with
    nothing to catch it: the thread ends there, before any test of the stop
    event or read of a poll, and stays ended whatever happens next. *)
Theorem watcher_dies_on_missing_file
    json_loads json_dumps path delay (fs0 : files) :
  fs0 !! path = None →
  ∃ w0,
    ConfigurationManager_init json_loads path true delay fs0 = Ok w0 ∧
    config (mgr w0) = JObj [] ∧
    watcher_pc_of w0 = Some W_start ∧
    let w1 := watcher_step json_loads w0 in
    watcher_pc_of w1 = Some (W_crashed file_not_found) ∧
    ∀ acts,
      watcher_pc_of (exec json_loads json_dumps acts w1) =
      Some (W_crashed file_not_found) ∧
      join (exec json_loads json_dumps acts w1) = Ok true ∧
      is_updated (mgr (exec json_loads json_dumps acts w1)) = false.
Proof.
  intros Hmissing. eexists. split.
  { unfold ConfigurationManager_init.
    rewrite load_config_missing by done. reflexivity. }
  split; [done|]. split; [done|].
  assert (read_file fs0 path = Raise file_not_found) as Hread.
  { unfold read_file. by rewrite Hmissing. }
  unfold watcher_step. simpl. rewrite Hread. simpl. split; [done|].
  intros acts.
  set (th := {| pc := W_crashed file_not_found; comandosText := "" |}).
  match goal with |- context [exec _ _ acts ?w] => set (w1 := w) end.
  assert (config_watcher_thread (mgr (exec json_loads json_dumps acts w1)) =
          Some th ∧ watched (exec json_loads json_dumps acts w1))
    as [Hth Hwatched].
  { apply (exec_invariant json_loads json_dumps
             (λ w, config_watcher_thread (mgr w) = Some th ∧
                   watched w)).
    - intros a w [Hw Hwatched]. split.
      + by apply step_terminated.
      + by apply step_watched.
    - split; [done|]. split; [by eexists|by left]. }
  unfold watcher_pc_of, join.
  rewrite (watched_flag_at _ th Hwatched Hth) by (by intros [=]).
  unfold in_window. rewrite Hth. done.
Qed.

Lemma watcher_dies_on_missing_file_witness :
  ConfigurationManager_init PyJson.loads "config.json" true 2000 ∅ =
  Ok missing_world ∧
  watcher_pc_of
    (exec PyJson.loads PyJson.dumps [FileWrite watched_text; Watcher]
       (watcher_step PyJson.loads missing_world)) =
  Some (W_crashed file_not_found).
Proof.
  assert ((∅ : files) !! "config.json" = None) as Hmissing by reflexivity.
  destruct (watcher_dies_on_missing_file PyJson.loads PyJson.dumps
              "config.json" 2000 ∅ Hmissing)
    as (w0 & Hinit & _ & _ & _ & Hdead).
  assert (ConfigurationManager_init PyJson.loads "config.json" true 2000 ∅ =
          Ok missing_world) as Hinit' by reflexivity.
  rewrite Hinit' in Hinit. injection Hinit as <-.
  split; [exact Hinit'|].
  exact (proj1 (Hdead [FileWrite watched_text; Watcher])).
Defined.

(** C10. On a manager constructed with [watch_file=False], [stop] and
    [join] raise AttributeError, at once and after anything else that
    happens: nothing but [__init__] with [watch_file=True] creates the stop
    event and the thread object. *)
Theorem stop_and_join_raise_without_watcher
    json_loads json_dumps path delay (fs0 : files) w0 acts :
  ConfigurationManager_init json_loads path false delay fs0 = Ok w0 →
  let w := exec json_loads json_dumps acts w0 in
  stop w = Raise (no_attribute "stop_event") ∧
  join w = Raise (no_attribute "config_watcher_thread") ∧
  exn_cls (no_attribute "stop_event") = AttributeError ∧
  exn_cls (no_attribute "config_watcher_thread") = AttributeError.
Proof.
  intros Hinit w.
  assert (unwatched w) as [Hs Ht].
  { apply (exec_invariant json_loads json_dumps unwatched).
    - intros a w'. apply step_unwatched.
    - unfold ConfigurationManager_init in Hinit.
      destruct (load_config _ _ _); [|done]. by injection Hinit as <-. }
  unfold stop, join. by rewrite Hs, Ht.
Qed.

Lemma stop_and_join_raise_without_watcher_witness :
  ConfigurationManager_init PyJson.loads "config.json" false 2000 watched_fs =
  Ok unwatched_world ∧
  stop (exec PyJson.loads PyJson.dumps [CallSet "a" JNull; CallSave]
          unwatched_world) =
  Raise (Exn AttributeError
           "'ConfigurationManager' object has no attribute 'stop_event'").
Proof.
  assert (ConfigurationManager_init PyJson.loads "config.json" false 2000
            watched_fs = Ok unwatched_world) as Hinit
    by (vm_compute; reflexivity).
  split; [exact Hinit|].
  exact (proj1 (stop_and_join_raise_without_watcher
                  PyJson.loads PyJson.dumps "config.json" 2000 watched_fs
                  unwatched_world [CallSet "a" JNull; CallSave] Hinit)).
Defined.

(** * Initialization without a camera *)

Lemma Camera_init_without_camera env cfg :
  TLCameraSDK env = Ok tt → discover_available_cameras env = Ok [] →
  Camera.init env cfg =
  ({| Camera.config_manager := cfg; Camera.connected := false;
      Camera.sdk := true; Camera.camera := Some None;
      Camera.printed := [not_found_line] |}, Ok tt).
Proof.
  intros Hsdk Hnone.
  unfold Camera.init, Camera.initialize_camera, Camera.try_block.
  unfold bind, call, modify, raise. rewrite Hsdk, Hnone. done.
Qed.

(** C5 (amended). When the SDK discovers no camera, the
    CameraNotFoundError raised in [Camera.initialize_camera] is caught
    there: its message is printed, [camera] is set to [None] and
    [connected] stays false. The handler's initialization then returns
    normally, raising nothing, with [connected] false, no
    ImageAcquisitionThread created and none started; a later
    [activate_camera_instance] raises AttributeError before any thread
    starts. *)
Theorem device_not_found_is_caught_and_pipeline_not_created
    (env : sdk_env) cfg shared_queue signal :
  TLCameraSDK env = Ok tt →
  discover_available_cameras env = Ok [] →
  ∃ h cam,
    ThorlabsCameraHandler.init env cfg shared_queue signal = (h, Ok tt) ∧
    ThorlabsCameraHandler._camera h = Some (Some cam) ∧
    Camera.camera cam = Some None ∧ Camera.is_connected cam = false ∧
    ThorlabsCameraHandler.printed h = [not_found_line] ∧
    ThorlabsCameraHandler.connected h = false ∧
    ThorlabsCameraHandler.is_alive h = false ∧
    ThorlabsCameraHandler.image_acquisition_thread h = None ∧
    ThorlabsCameraHandler.thread_started h = false ∧
    ∃ h' e,
      ThorlabsCameraHandler.activate_camera_instance h = (h', Raise e) ∧
      exn_cls e = AttributeError ∧
      ThorlabsCameraHandler.thread_started h' = false.
Proof.
  intros Hsdk Hnone. eexists _, _. split.
  { unfold ThorlabsCameraHandler.init, ThorlabsCameraHandler.initialize_camera,
      ThorlabsCameraHandler.try_block.
    unfold bind at 1. unfold gets at 1. cbn beta iota.
    cbn [ThorlabsCameraHandler.config].
    rewrite (Camera_init_without_camera env cfg Hsdk Hnone).
    reflexivity. }
  repeat split. eexists _, _. split; [reflexivity|]. done.
Qed.

Lemma device_not_found_is_caught_and_pipeline_not_created_witness :
  (ThorlabsCameraHandler.init sdk_without_camera manager_1000 None true).2 =
    Ok tt ∧
  ThorlabsCameraHandler.connected
    (ThorlabsCameraHandler.init sdk_without_camera manager_1000 None true).1 =
    false ∧
  ThorlabsCameraHandler.image_acquisition_thread
    (ThorlabsCameraHandler.init sdk_without_camera manager_1000 None true).1 =
    None.
Proof.
  destruct (device_not_found_is_caught_and_pipeline_not_created
              sdk_without_camera manager_1000 None true eq_refl eq_refl)
    as (h & cam & Hinit & _ & _ & _ & _ & Hconn & _ & Hthread & _).
  rewrite Hinit. split; [reflexivity|]. split; [exact Hconn|exact Hthread].
Defined.

(** C5 as stated fails: with no camera discovered, neither constructor
    hands an error to its caller, and what the caller of the handler can
    read, [connected] and the state of the pipeline, is the same as after
    any other failure of the SDK. *)
Lemma device_not_found_is_not_surfaced :
  (Camera.init sdk_without_camera manager_1000).2 = Ok tt ∧
  (ThorlabsCameraHandler.init sdk_without_camera manager_1000 None true).2 =
    Ok tt ∧
  (¬ ∃ e,
     (ThorlabsCameraHandler.init sdk_without_camera manager_1000 None true).2 =
     Raise e) ∧
  ThorlabsCameraHandler.connected
    (ThorlabsCameraHandler.init sdk_without_camera manager_1000 None true).1 =
  ThorlabsCameraHandler.connected
    (ThorlabsCameraHandler.init sdk_broken manager_1000 None true).1 ∧
  ThorlabsCameraHandler.image_acquisition_thread
    (ThorlabsCameraHandler.init sdk_without_camera manager_1000 None true).1 =
  ThorlabsCameraHandler.image_acquisition_thread
    (ThorlabsCameraHandler.init sdk_broken manager_1000 None true).1.
Proof.
  vm_compute. repeat split. intros [e He]. discriminate He.
Qed.

(** * More properties of the acquisition thread *)

Lemma _get_color_image_result transform_to_24 frame t :
  (_get_color_image transform_to_24 frame t).2 =
  color_image transform_to_24 frame.
Proof.
  unfold _get_color_image, color_image, bind, call, gets, modify, ret.
  destruct (shape_at (image_buffer frame) 1) as [width|]; [|done].
  destruct (shape_at (image_buffer frame) 0) as [height|]; [|done].
  destruct (bool_decide (width ≠ _image_width t)) eqn:HW;
    destruct (bool_decide (height ≠ _image_height t)) eqn:HH; cbn;
    try (destruct (transform_to_24 _ _ _) as [a|]; [|done];
         by destruct (reshape _ _ _ _)).
  apply bool_decide_eq_false in HW, HH. apply dec_stable in HW, HH.
  rewrite <- HW, <- HH.
  destruct (transform_to_24 _ _ _) as [a|]; [|done].
  by destruct (reshape _ _ _ _).
Qed.

Lemma convert_rendered transform_to_24 frame t :
  (convert transform_to_24 frame t).2 =
  rendered transform_to_24 (_is_color t) frame.
Proof.
  unfold convert, rendered. destruct (_is_color t).
  - apply _get_color_image_result.
  - done.
Qed.

Lemma polled_images_cons transform_to_24 is_color tk tks :
  polled_images transform_to_24 is_color (tk :: tks) =
  polled_images transform_to_24 is_color [tk] ++
  polled_images transform_to_24 is_color tks.
Proof.
  unfold polled_images. cbn [omap list_omap].
  destruct (poll tk) as [[frame|]|]; [|done..].
  by destruct (rendered _ _ _).
Qed.

(** What one pass does to the queue: the consumer's takes at the head,
    at most the image of the polled frame at the tail. *)
Lemma iteration_queue transform_to_24 emit_signal tk t nr :
  ∃ put,
    put `sublist_of` polled_images transform_to_24 (_is_color t) [tk] ∧
    items (_image_queue (iteration transform_to_24 emit_signal tk (t, nr)).1.1)
    = drop (consumer_gets tk) (items (_image_queue t)) ++ put.
Proof.
  rewrite iteration_unfold. cbn zeta. unfold polled_images, handle.
  cbn [omap list_omap].
  destruct (poll tk) as [[frame|]|e].
  - pose proof (convert_rendered transform_to_24 frame
                  (set_queue (consume (consumer_gets tk) (_image_queue t)) t))
      as Hr.
    destruct (convert transform_to_24 frame _) as [t1 r] eqn:Hc.
    apply convert_frame in Hc as (Hq & _). cbn in Hr, Hq. rewrite <- Hr.
    destruct r as [img|e].
    + destruct (full (_image_queue t1)).
      * exists []. rewrite app_nil_r. split; [apply sublist_nil_l|].
        cbn. by rewrite Hq.
      * exists [img]. split; [done|].
        destruct (Nat.eqb _ _); [destruct emit_signal|]; cbn; by rewrite Hq.
    + exists []. rewrite app_nil_r. split; [done|].
      destruct (decide _); cbn; by rewrite Hq.
  - exists []. rewrite app_nil_r. done.
  - exists []. rewrite app_nil_r. split; [done|]. by destruct (decide _).
Qed.

Lemma drop_drop_app {A} (k g : nat) (l put rest : list A) :
  ∃ k', drop k ((drop g l ++ put) ++ rest) = drop k' (l ++ put ++ rest).
Proof.
  destruct (decide (g ≤ length l)%nat) as [Hle|Hgt].
  - exists (g + k)%nat. rewrite <- app_assoc.
    rewrite <- (drop_app_le l (put ++ rest) g) by done.
    by rewrite drop_drop.
  - exists (length l + k)%nat. rewrite <- app_assoc.
    rewrite (drop_ge l g) by lia.
    rewrite <- drop_drop. by rewrite drop_app_length.
Qed.

(** X1. The queue is first in, first out over a whole run: what it holds
    at any time is what it held at the start followed by images of polled
    frames in poll order, some left out, less a number of entries taken
    from the head. Nothing is reordered, duplicated or made up. *)
Theorem queue_is_fifo_of_polled_frames
    transform_to_24 emit_signal (tks : list tick)
    (t : ImageAcquisitionThread) (nr : nat) :
  ∃ accepted k,
    accepted `sublist_of` polled_images transform_to_24 (_is_color t) tks ∧
    items (_image_queue (loop transform_to_24 emit_signal tks (t, nr)).1) =
    drop k (items (_image_queue t) ++ accepted).
Proof.
  revert t nr. induction tks as [|tk tks IH]; intros t nr.
  { exists [], 0%nat. by rewrite app_nil_r. }
  rewrite loop_cons, polled_images_cons.
  destruct (iteration_queue transform_to_24 emit_signal tk t nr)
    as (put & Hput & Hitems).
  pose proof (iteration_effect transform_to_24 emit_signal tk t nr) as Heff.
  destruct (iteration transform_to_24 emit_signal tk (t, nr))
    as [[t' nr'] c]. cbn [fst] in Hitems.
  destruct Heff as (_ & Hcol & _).
  destruct c.
  - destruct (IH t' nr') as (accepted & k & Hacc & Hfinal).
    rewrite Hcol in Hacc. rewrite Hfinal, Hitems.
    destruct (drop_drop_app k (consumer_gets tk) (items (_image_queue t))
                put accepted) as [k' Hk'].
    exists (put ++ accepted), k'. split; [by apply sublist_app|done].
  - destruct (drop_drop_app 0 (consumer_gets tk) (items (_image_queue t))
                put []) as [k' Hk'].
    exists put, k'. split.
    + by apply sublist_inserts_r.
    + cbn [fst]. rewrite Hitems. rewrite drop_0, !app_nil_r in Hk'. done.
Qed.

(** X3. A change of frame dimensions is printed once: after a frame of
    height H and width W, a further frame of the same dimensions leaves
    the colour thread exactly as it was, printed lines included, and every
    call prints at most one line. *)
Theorem dimension_change_is_printed_once
    transform_to_24 (frame1 frame2 : Frame) (t : ImageAcquisitionThread)
    (H W : Z) :
  shape (image_buffer frame1) = [H; W] →
  shape (image_buffer frame2) = [H; W] →
  let t1 := (_get_color_image transform_to_24 frame1 t).1 in
  (_get_color_image transform_to_24 frame2 t1).1 = t1 ∧
  (length (stdout t1) ≤ length (stdout t) + 1)%nat ∧
  (_image_width t = W → _image_height t = H → t1 = t).
Proof.
  intros H1 H2 t1.
  assert (t1 = if bool_decide (W ≠ _image_width t) ||
                  bool_decide (H ≠ _image_height t)
               then print dimension_change_line (set_dims W H t) else t)
    as Ht1.
  { subst t1. rewrite (_get_color_image_unfold _ _ _ H W H1). cbn zeta.
    destruct (transform_to_24 _ _ _) as [out|]; [|done].
    by destruct (reshape _ _ _ _). }
  destruct (cached_dims_after t H W) as [Hw Hh]. cbn zeta in Hw, Hh.
  rewrite <- Ht1 in Hw, Hh.
  split; [|split].
  - rewrite (_get_color_image_unfold _ _ _ H W H2). cbn zeta.
    rewrite Hw, Hh.
    rewrite !bool_decide_eq_false_2 by (by intros ?). cbn [orb].
    destruct (transform_to_24 _ _ _) as [out|]; [|done].
    by destruct (reshape _ _ _ _).
  - rewrite Ht1. destruct (_ || _); cbn; [rewrite length_app; cbn|]; lia.
  - intros HW HH. rewrite Ht1, HW, HH.
    by rewrite !bool_decide_eq_false_2 by (by intros ?).
Qed.

Lemma dimension_change_is_printed_once_witness :
  stdout (_get_color_image gray_to_24 frame_1x2_next
            (_get_color_image gray_to_24 frame_1x2 bayer_thread).1).1 =
  [dimension_change_line].
Proof.
  rewrite (proj1 (dimension_change_is_printed_once gray_to_24 frame_1x2
                    frame_1x2_next bayer_thread 1 2 eq_refl eq_refl)).
  reflexivity.
Defined.

(** X4. When the vendor's transform returns an array that does not hold
    H*W*3 values, the conversion raises ValueError at the reshape; the
    pass prints it and ends the loop with nothing enqueued, the cached
    dimensions already set to the frame's. A frame whose buffer has one
    dimension only raises IndexError before anything is cached. *)
Theorem wrong_size_transform_stops_the_loop
    transform_to_24 emit_signal (tk : tick) (tks : list tick)
    (t : ImageAcquisitionThread) (nr : nat) (frame : Frame) :
  _is_color t = true →
  poll tk = Ok (Some frame) →
  let t0 := set_queue (consume (consumer_gets tk) (_image_queue t)) t in
  (∀ H W out,
     shape (image_buffer frame) = [H; W] →
     transform_to_24 (image_buffer frame) W H = Ok out →
     ndarray_size out ≠ H * W * 3 →
     let t1 := if bool_decide (W ≠ _image_width t0) ||
                  bool_decide (H ≠ _image_height t0)
               then print dimension_change_line (set_dims W H t0) else t0 in
     loop transform_to_24 emit_signal (tk :: tks) (t, nr) =
     (print (fatal_line (Exn ValueError "cannot reshape array")) t1, nr) ∧
     _image_width t1 = W ∧ _image_height t1 = H ∧
     _image_queue t1 = _image_queue t0 ∧ emitted t1 = emitted t)
  ∧ (∀ n,
       shape (image_buffer frame) = [n] →
       loop transform_to_24 emit_signal (tk :: tks) (t, nr) =
       (print (fatal_line (Exn IndexError "tuple index out of range")) t0,
        nr)).
Proof.
  intros Hcol Hpoll t0. split.
  - intros H W out Hshape Hout Hsize t1. split; [apply loop_break|].
    + rewrite iteration_unfold, Hpoll. cbn zeta. fold t0.
      unfold convert. replace (_is_color t0) with true by done.
      rewrite (_get_color_image_unfold _ _ _ H W Hshape). cbn zeta.
      rewrite Hout. unfold reshape.
      destruct (Z.eqb_spec (ndarray_size out) (H * W * 3)); [done|].
      unfold handle. rewrite decide_False by done. reflexivity.
    + destruct (cached_dims_after t0 H W) as [Hw Hh]. cbn zeta in Hw, Hh.
      split; [done|]. split; [done|]. subst t1.
      by destruct (_ || _).
  - intros n Hshape. apply loop_break.
    rewrite iteration_unfold, Hpoll. cbn zeta. fold t0.
    unfold convert. replace (_is_color t0) with true by done.
    unfold _get_color_image, shape_at, bind, call. rewrite Hshape. cbn.
    unfold handle. rewrite decide_False by done. reflexivity.
Qed.

Lemma wrong_size_transform_stops_the_loop_witness :
  loop short_transform true (frame_tick frame_1x2 :: drained_run)
       (bayer_thread, 0%nat) =
  (print "Encountered error: cannot reshape array, image acquisition will stop."
     (print dimension_change_line (set_dims 2 1 bayer_thread)), 0%nat).
Proof.
  refine (proj1 (proj1 (wrong_size_transform_stops_the_loop short_transform
                          true (frame_tick frame_1x2) drained_run bayer_thread
                          0%nat frame_1x2 eq_refl eq_refl)
                   1 2 {| shape := [2]; dt := uint8; data := [0; 0] |}
                   eq_refl eq_refl _)).
  discriminate.
Defined.

Lemma sum_stretch_counts cur os :
  sum_list (stretch_counts cur os) =
  (cur + length (filter (λ o, o = Enqueued) os))%nat.
Proof.
  revert cur. induction os as [|o os IH]; intros cur.
  - cbn. lia.
  - destruct o; cbn [stretch_counts sum_list].
    + rewrite filter_cons_False by done. apply IH.
    + rewrite filter_cons_True by done. rewrite IH. cbn [length]. lia.
    + rewrite filter_cons_False by done. by rewrite IH.
    + rewrite filter_cons_False by done. apply IH.
Qed.

Lemma sum_halves (l : list nat) :
  (sum_list ((λ n, n `div` 2) <$> l) ≤ sum_list l `div` 2)%nat.
Proof.
  induction l as [|a l IH]; [done|]. rewrite fmap_cons. cbn [sum_list].
  etrans; [apply Nat.add_le_mono_l, IH|].
  generalize (sum_list l). intros b. unfold id.
  pose proof (Nat.div_mod_eq a 2). pose proof (Nat.mod_upper_bound a 2).
  pose proof (Nat.div_mod_eq b 2). pose proof (Nat.mod_upper_bound b 2).
  pose proof (Nat.div_mod_eq (a + b) 2).
  pose proof (Nat.mod_upper_bound (a + b) 2).
  lia.
Qed.

(** X5. A run never sends more notifications than one for every two
    images enqueued in each stretch of passes without a drop, and that is
    at most one for every two images it has put in the queue in all,
    whatever was dropped, polled empty or raised in between. *)
Theorem notifications_at_most_half_the_enqueues
    transform_to_24 processor_dispose color_sdk_dispose
    (tks : list tick) (t : ImageAcquisitionThread) :
  let os := history transform_to_24 (_signal t) tks (t, 0%nat) in
  (length (emitted (run transform_to_24 processor_dispose color_sdk_dispose
                      tks t).1) ≤
   length (emitted t) + pairs_due 0 os)%nat ∧
  (pairs_due 0 os ≤ pairs_claimed os)%nat.
Proof.
  intros os. split.
  - unfold run. rewrite after_loop_emitted.
    destruct (loop_emitted transform_to_24 (_signal t) tks t 0)
      as (k & Hk & Hsum).
    change (0 `mod` 2)%nat with 0%nat in *.
    change (0 `div` 2)%nat with 0%nat in *.
    rewrite Hk, length_app, length_replicate.
    apply Nat.add_le_mono_l. fold os in Hsum.
    destruct (_signal t); lia.
  - unfold pairs_due, pairs_claimed.
    etrans; [apply sum_halves|]. by rewrite sum_stretch_counts.
Qed.

Lemma current_stretch_last cur os :
  last (stretch_counts cur os) = Some (current_stretch cur os).
Proof.
  revert cur. induction os as [|o os IH]; intros cur; [done|].
  destruct o; cbn [stretch_counts current_stretch]; try apply IH.
  rewrite last_cons, IH. done.
Qed.

Lemma loop_counter transform_to_24 emit_signal tks t cur :
  Fatal ∉ history transform_to_24 emit_signal tks (t, (cur `mod` 2)%nat) →
  (loop transform_to_24 emit_signal tks (t, (cur `mod` 2)%nat)).2 =
  (current_stretch cur
     (history transform_to_24 emit_signal tks (t, (cur `mod` 2)%nat))
   `mod` 2)%nat.
Proof.
  revert t cur. induction tks as [|tk tks IH]; intros t cur; [done|].
  rewrite loop_cons, history_cons.
  pose proof (iteration_effect transform_to_24 emit_signal tk t
                (cur `mod` 2)%nat) as H.
  destruct (iteration transform_to_24 emit_signal tk (t, (cur `mod` 2)%nat))
    as [[t' nr'] c].
  destruct H as (_ & _ & _ & _ & _ & H).
  destruct (pass_outcome transform_to_24 emit_signal tk
              (t, (cur `mod` 2)%nat)); cbn [current_stretch].
  - destruct H as (-> & -> & _). intros [_ Hno]%not_elem_of_cons. by apply IH.
  - destruct H as (-> & -> & _). rewrite mod2_succ.
    intros [_ Hno]%not_elem_of_cons. by apply IH.
  - destruct H as (-> & -> & _). intros [_ Hno]%not_elem_of_cons.
    by apply (IH t' 0%nat).
  - intros Hno. exfalso. apply Hno. left.
Qed.

(** X6. Between passes the pairing counter is 0 or 1: in a run that met
    no fatal error it is the number of images enqueued since the last
    drop or start, modulo 2. *)
Theorem pairing_counter_is_parity_of_stretch
    transform_to_24 emit_signal (tks : list tick)
    (t : ImageAcquisitionThread) :
  let os := history transform_to_24 emit_signal tks (t, 0%nat) in
  Fatal ∉ os →
  let nr := (loop transform_to_24 emit_signal tks (t, 0%nat)).2 in
  nr = (current_stretch 0 os `mod` 2)%nat ∧ (nr < 2)%nat ∧
  last (stretch_counts 0 os) = Some (current_stretch 0 os).
Proof.
  intros os Hno nr.
  assert (nr = (current_stretch 0 os `mod` 2)%nat) as Hnr
    by apply (loop_counter transform_to_24 emit_signal tks t 0 Hno).
  split; [done|]. split; [|apply current_stretch_last].
  rewrite Hnr. apply Nat.mod_upper_bound. done.
Qed.

Lemma pairing_counter_is_parity_of_stretch_witness :
  (loop no_transform true drained_run (mono_thread, 0%nat)).2 = 1%nat.
Proof.
  refine (proj1 (pairing_counter_is_parity_of_stretch no_transform true
                   drained_run mono_thread _)).
  vm_compute. intros Hin.
  repeat (apply elem_of_cons in Hin as [Hin|Hin]; [discriminate Hin|]).
  by apply elem_of_nil in Hin.
Defined.

Lemma rendered_error_class transform_to_24 is_color frame e :
  (∀ buf w h e, transform_to_24 buf w h = Raise e → exn_cls e ≠ QueueFull) →
  rendered transform_to_24 is_color frame = Raise e →
  exn_cls e ≠ QueueFull.
Proof.
  intros Htr. unfold rendered, color_image, shape_at, reshape, fromarray_RGB,
    fromarray.
  destruct is_color.
  - destruct (shape (image_buffer frame) !! 1%nat); [|by intros [= <-]].
    destruct (shape (image_buffer frame) !! 0%nat); [|by intros [= <-]].
    destruct (transform_to_24 _ _ _) as [out|e'] eqn:Hout;
      [|intros [= <-]; by eapply Htr].
    destruct (_ =? _); [|by intros [= <-]]. cbn. by intros [= <-].
  - repeat case_match; by intros [= <-].
Qed.

Lemma pass_not_dropped transform_to_24 emit_signal tk t nr :
  maxsize (_image_queue t) ≤ 0 →
  (∀ buf w h e, transform_to_24 buf w h = Raise e → exn_cls e ≠ QueueFull) →
  (∀ e, poll tk = Raise e → exn_cls e ≠ QueueFull) →
  pass_outcome transform_to_24 emit_signal tk (t, nr) ≠ Dropped.
Proof.
  intros Hmax Htr Hpoll. rewrite pass_outcome_unfold. cbn zeta.
  destruct (poll tk) as [[frame|]|e]; [| done |].
  - pose proof (convert_rendered transform_to_24 frame
                  (set_queue (consume (consumer_gets tk) (_image_queue t)) t))
      as Hr.
    destruct (convert transform_to_24 frame _) as [t1 r] eqn:Hc.
    apply convert_frame in Hc as (Hq & _). cbn in Hr, Hq.
    destruct r as [img|e].
    + unfold full. rewrite Hq. cbn.
      destruct (Z.ltb_spec 0 (maxsize (_image_queue t))); [lia|done].
    + rewrite decide_False; [done|].
      by apply (rendered_error_class transform_to_24 (_is_color t) frame).
  - rewrite decide_False; [done|]. by apply Hpoll.
Qed.

Lemma unbounded_history_no_drop transform_to_24 emit_signal tks t nr :
  maxsize (_image_queue t) ≤ 0 →
  full_only_from_queue transform_to_24 tks →
  Dropped ∉ history transform_to_24 emit_signal tks (t, nr).
Proof.
  intros Hmax [Htr Hpolls]. revert t nr Hmax.
  induction Hpolls as [|tk tks Hpoll Hpolls IH]; intros t nr Hmax.
  { apply not_elem_of_nil. }
  rewrite history_cons. apply not_elem_of_cons. split.
  { intros Heq. by eapply pass_not_dropped. }
  pose proof (iteration_effect transform_to_24 emit_signal tk t nr) as H.
  destruct (iteration transform_to_24 emit_signal tk (t, nr)) as [[t' nr'] c].
  destruct H as (Hmax' & _). destruct c; [|apply not_elem_of_nil].
  apply IH. by rewrite Hmax'.
Qed.

(** X7. A queue without a bound ([maxsize] 0 or less) never drops a
    frame: when [queue.Full] can come from the queue only, no pass ends in
    the queue-full clause, and the notifications sent are exactly one for
    every two images enqueued. *)
Theorem unbounded_queue_never_drops
    transform_to_24 processor_dispose color_sdk_dispose
    (tks : list tick) (t : ImageAcquisitionThread) :
  maxsize (_image_queue t) ≤ 0 →
  full_only_from_queue transform_to_24 tks →
  let os := history transform_to_24 (_signal t) tks (t, 0%nat) in
  (Dropped ∉ os) ∧
  emitted (run transform_to_24 processor_dispose color_sdk_dispose tks t).1 =
  emitted t ++ replicate (if _signal t then pairs_claimed os else 0%nat) true.
Proof.
  intros Hmax Henv os.
  assert (Dropped ∉ os) as Hno
    by (apply unbounded_history_no_drop; done).
  split; [done|]. unfold run. rewrite after_loop_emitted.
  destruct (loop_emitted transform_to_24 (_signal t) tks t 0)
    as (k & Hk & Hsum).
  change (0 `mod` 2)%nat with 0%nat in *.
  change (0 `div` 2)%nat with 0%nat in *.
  rewrite Hk. f_equal. f_equal. rewrite Nat.add_0_r in Hsum.
  destruct (_signal t); [|done].
  rewrite Hsum. by apply pairs_due_no_drop.
Qed.

Lemma full_only_from_queue_six : full_only_from_queue no_transform six_frames.
Proof.
  split.
  - intros buf w h e [= <-]. discriminate.
  - repeat constructor; intros e; discriminate.
Qed.

Lemma unbounded_queue_never_drops_witness :
  emitted (run no_transform (Ok tt) (Ok tt) six_frames unbounded_thread).1 =
  [true; true; true].
Proof.
  rewrite (proj2 (unbounded_queue_never_drops no_transform (Ok tt) (Ok tt)
                    six_frames unbounded_thread (Z.le_refl 0)
                    full_only_from_queue_six)).
  reflexivity.
Defined.

Lemma pass_fatal_iff_break transform_to_24 emit_signal tk st :
  pass_outcome transform_to_24 emit_signal tk st = Fatal ↔
  (iteration transform_to_24 emit_signal tk st).2 = Break.
Proof.
  destruct st as [t nr].
  pose proof (iteration_effect transform_to_24 emit_signal tk t nr) as H.
  destruct (iteration transform_to_24 emit_signal tk (t, nr)) as [[t' nr'] c].
  destruct H as (_ & _ & _ & _ & _ & H).
  destruct (pass_outcome transform_to_24 emit_signal tk (t, nr)); cbn;
    destruct H as (-> & _); done.
Qed.

(** X8. Runs compose: the passes [tks1] followed by the passes [tks2]
    leave the thread where [tks2] leaves it from the state after [tks1],
    unless [tks1] met a fatal error, after which nothing more happens; the
    outcomes compose the same way. *)
Theorem loop_over_appended_passes
    transform_to_24 emit_signal (tks1 tks2 : list tick)
    (st : ImageAcquisitionThread * nat) :
  let os1 := history transform_to_24 emit_signal tks1 st in
  let st1 := loop transform_to_24 emit_signal tks1 st in
  (Fatal ∈ os1 →
   loop transform_to_24 emit_signal (tks1 ++ tks2) st = st1 ∧
   history transform_to_24 emit_signal (tks1 ++ tks2) st = os1)
  ∧ (Fatal ∉ os1 →
     loop transform_to_24 emit_signal (tks1 ++ tks2) st =
       loop transform_to_24 emit_signal tks2 st1 ∧
     history transform_to_24 emit_signal (tks1 ++ tks2) st =
       os1 ++ history transform_to_24 emit_signal tks2 st1).
Proof.
  revert st. induction tks1 as [|tk tks1 IH]; intros st.
  { cbn. split; [by intros ?%elem_of_nil|done]. }
  cbn zeta. rewrite <- app_comm_cons, !loop_cons, !history_cons.
  pose proof (pass_fatal_iff_break transform_to_24 emit_signal tk st) as Hf.
  destruct (iteration transform_to_24 emit_signal tk st) as [[t' nr'] c].
  cbn [snd] in Hf. destruct c.
  - assert (pass_outcome transform_to_24 emit_signal tk st ≠ Fatal) as Hne
      by (intros H%Hf; done).
    destruct (IH (t', nr')) as [IHf IHn]. split.
    + intros [Heq|Hin]%elem_of_cons; [done|].
      destruct (IHf Hin) as [-> ->]. done.
    + intros [_ Hno]%not_elem_of_cons. destruct (IHn Hno) as [-> ->]. done.
  - assert (pass_outcome transform_to_24 emit_signal tk st = Fatal) as ->
      by (by apply Hf).
    split; [done|]. intros Hno. exfalso. apply Hno. left.
Qed.

Lemma loop_over_appended_passes_witness :
  loop no_transform true ([got 0 1; got 0 2] ++ [got 1 3; got 0 4; got 2 5])
       (mono_thread, 0%nat) =
  loop no_transform true [got 1 3; got 0 4; got 2 5]
       (loop no_transform true [got 0 1; got 0 2] (mono_thread, 0%nat)).
Proof.
  refine (proj1 (proj2 (loop_over_appended_passes no_transform true
                          [got 0 1; got 0 2] [got 1 3; got 0 4; got 2 5]
                          (mono_thread, 0%nat)) _)).
  vm_compute. intros Hin.
  repeat (apply elem_of_cons in Hin as [Hin|Hin]; [discriminate Hin|]).
  by apply elem_of_nil in Hin.
Defined.

(** * More properties of the configuration manager *)

Lemma dict_set_keys_order key value kvs :
  (dict_set key value kvs).*1 =
  if decide (key ∈ kvs.*1) then kvs.*1 else kvs.*1 ++ [key].
Proof.
  induction kvs as [|[k v] kvs IH]; [done|].
  cbn [dict_set fmap list_fmap fst].
  destruct (decide (k = key)) as [->|Hne]; cbn [fmap list_fmap fst].
  - rewrite decide_True; [done|left].
  - change (list_fmap _ _ fst ?l) with (l.*1) in *. rewrite IH.
    destruct (decide (key ∈ kvs.*1)) as [Hin|Hnin].
    + rewrite decide_True; [done|by right].
    + rewrite decide_False; [done|].
      intros [?|?]%elem_of_cons; done.
Qed.

Lemma dict_set_length key value kvs :
  length (dict_set key value kvs) =
  if decide (key ∈ kvs.*1) then length kvs else S (length kvs).
Proof.
  rewrite <- (length_fmap fst (dict_set key value kvs)), dict_set_keys_order.
  destruct (decide _); rewrite ?length_app, length_fmap; cbn; lia.
Qed.

(** X9. [set] keeps the order in which keys were first set: a key the
    map has keeps its place and the map its size, a new key goes to the
    end; nothing of the manager but the map changes. *)
Theorem set_keeps_insertion_order
    (m m' : ConfigurationManager) key value kvs :
  config m = JObj kvs →
  set key value m = Ok m' →
  ∃ kvs',
    m' = set_config (JObj kvs') m ∧
    kvs'.*1 = (if decide (key ∈ kvs.*1) then kvs.*1 else kvs.*1 ++ [key]) ∧
    length kvs' =
      (if decide (key ∈ kvs.*1) then length kvs else S (length kvs)).
Proof.
  intros Hc. unfold set. rewrite Hc. intros [= <-].
  exists (dict_set key value kvs). split; [done|].
  split; [apply dict_set_keys_order|apply dict_set_length].
Qed.

Lemma set_keeps_insertion_order_witness :
  ∃ kvs',
    updated_manager = set_config (JObj kvs') named_manager ∧
    kvs'.*1 = ["name"; "settings"] ∧ length kvs' = 2%nat.
Proof.
  exact (set_keeps_insertion_order named_manager updated_manager "settings"
           exposure_1000 [("name", JStr "left")] eq_refl eq_refl).
Defined.

Lemma dict_set_dict_set key v1 v2 kvs :
  dict_set key v2 (dict_set key v1 kvs) = dict_set key v2 kvs.
Proof.
  induction kvs as [|[k v] kvs IH]; cbn [dict_set].
  - by rewrite decide_True.
  - destruct (decide (k = key)) as [->|Hne]; cbn [dict_set].
    + by rewrite decide_True.
    + rewrite decide_False by done. by rewrite IH.
Qed.

(** X10. The last [set] of a key wins: setting a key twice leaves the
    manager as the second call alone would, and setting it to the value
    it has changes nothing. *)
Theorem set_last_write_wins
    (m m1 : ConfigurationManager) key v1 v2 :
  set key v1 m = Ok m1 →
  set key v2 m1 = set key v2 m ∧ set key v1 m1 = Ok m1.
Proof.
  unfold set. destruct (config m) as [| | | | | |kvs]; try done.
  intros [= <-]. cbn [config set_config].
  rewrite !dict_set_dict_set. done.
Qed.

Lemma set_last_write_wins_witness :
  set "settings" (JInt 7) updated_manager =
  set "settings" (JInt 7) named_manager.
Proof.
  exact (proj1 (set_last_write_wins named_manager updated_manager "settings"
                  exposure_1000 (JInt 7) eq_refl)).
Defined.

Lemma dict_get_missing key kvs : key ∉ kvs.*1 → dict_get key kvs = JNull.
Proof.
  induction kvs as [|[k v] kvs IH]; [done|]. cbn [fmap list_fmap fst dict_get].
  intros [Hne Hnin]%not_elem_of_cons. rewrite decide_False by done.
  by apply IH.
Qed.

Lemma dict_get_present key v kvs :
  NoDup kvs.*1 → (key, v) ∈ kvs → dict_get key kvs = v.
Proof.
  induction kvs as [|[k' v'] kvs IH]; [by intros _ ?%elem_of_nil|].
  cbn [fmap list_fmap fst dict_get]. intros [Hk' Hkvs]%NoDup_cons.
  intros [[= <- <-]|Hin]%elem_of_cons.
  - by rewrite decide_True.
  - rewrite decide_False; [by apply IH|].
    intros ->. apply Hk'. apply list_elem_of_fmap. by exists (key, v).
Qed.

(** X11. [get] never raises on a map: for a key the map does not have it
    returns None, as it does for a key set to null, and in a map of
    distinct keys it returns the value stored under the key. *)
Theorem get_missing_key_is_none (m : ConfigurationManager) key kvs :
  config m = JObj kvs →
  (key ∉ kvs.*1 → get m key = Ok JNull)
  ∧ (∀ v, NoDup kvs.*1 → (key, v) ∈ kvs → get m key = Ok v)
  ∧ ∃ v, get m key = Ok v.
Proof.
  intros Hc. unfold get. rewrite Hc. split; [|split].
  - intros Hnin. by rewrite dict_get_missing.
  - intros v Hnd Hin. by rewrite (dict_get_present key v).
  - by eexists.
Qed.

Lemma get_missing_key_is_none_witness :
  get manager_1000 "exposureTime_us" = Ok JNull.
Proof.
  apply (proj1 (get_missing_key_is_none manager_1000 "exposureTime_us"
                  [("settings", JObj [("exposureTime_us", JInt 1000)])]
                  eq_refl)).
  intros Hin. apply list_elem_of_singleton in Hin. discriminate.
Defined.

Lemma exec_invariant_on json_loads json_dumps
    (Q : action → Prop) (P : world → Prop) :
  (∀ a w, Q a → P w → P (step json_loads json_dumps a w)) →
  ∀ acts w, Forall Q acts → P w → P (exec json_loads json_dumps acts w).
Proof.
  intros Hstep acts. induction acts as [|a acts IH]; intros w HQ HP; [done|].
  apply Forall_cons in HQ as [Ha HQ]. rewrite exec_cons. by apply IH, Hstep.
Qed.

Lemma read_file_Some (fs : files) path text :
  fs !! path = Some text → read_file fs path = Ok text.
Proof. unfold read_file. by intros ->. Qed.

Lemma watcher_step_calm json_loads fs0 w :
  calm fs0 w → calm fs0 (watcher_step json_loads w).
Proof.
  intros (Hfs & Hflag & Hth). unfold calm in *. unfold watcher_step.
  destruct (config_watcher_thread (mgr w)) as [th|] eqn:Heq;
    [|by rewrite Heq].
  destruct (pc th) as [| | |content| | |[|]|[|]| |e] eqn:Hpc; try done.
  - rewrite Hfs. unfold read_file.
    by destruct (fs0 !! config_file_path (mgr w)) as [text|] eqn:Hfile.
  - by destruct (stop_event (mgr w)) as [[|]|].
  - by rewrite Hfs, (read_file_Some _ _ _ Hth).
  - destruct Hth as [Hfile ->]. by rewrite decide_False by (by intros ?).
  - by destruct (decide _).
  - by rewrite Heq, Hpc.
  - by rewrite Heq, Hpc.
Qed.

Lemma step_calm json_loads json_dumps fs0 a w :
  leaves_file a → calm fs0 w → calm fs0 (step json_loads json_dumps a w).
Proof.
  destruct a; cbn; try done.
  - intros _. apply watcher_step_calm.
  - intros _ Hcalm. unfold set. by destruct (config (mgr w)).
  - intros _ Hcalm. unfold stop. by destruct (stop_event (mgr w)).
Qed.

Lemma init_calm json_loads path watch_file delay (fs0 : files) w0 :
  ConfigurationManager_init json_loads path watch_file delay fs0 = Ok w0 →
  calm fs0 w0.
Proof.
  unfold ConfigurationManager_init.
  destruct (load_config _ _ _); [|done].
  destruct watch_file; intros [= <-]; done.
Qed.

Lemma watcher_step_config json_loads w :
  match watcher_pc_of w with
  | Some W_reload => True
  | _ => config (mgr (watcher_step json_loads w)) = config (mgr w)
  end.
Proof.
  unfold watcher_pc_of, watcher_step.
  destruct (config_watcher_thread (mgr w)) as [th|]; [|done]. cbn.
  destruct (pc th); try done.
  - by destruct (read_file _ _).
  - by destruct (stop_event _) as [[|]|].
  - by destruct (read_file _ _).
  - by destruct (decide _).
  - by destruct (decide _).
Qed.



(** X14. While nothing writes or removes the backing file, the watcher
    reports nothing: [is_updated] is false at all times, the watcher
    never reaches its reload, and if no [set] is called either, the map is
    the one loaded at construction. *)
Theorem unchanged_file_is_never_reported
    json_loads json_dumps path watch_file delay (fs0 : files) w0 acts :
  ConfigurationManager_init json_loads path watch_file delay fs0 = Ok w0 →
  Forall leaves_file acts →
  let w := exec json_loads json_dumps acts w0 in
  is_updated (mgr w) = false ∧
  watcher_pc_of w ≠ Some W_reload ∧ watcher_pc_of w ≠ Some W_flag ∧
  (Forall leaves_map acts → config (mgr w) = config (mgr w0)).
Proof.
  intros Hinit Hacts w.
  assert (calm fs0 w) as (_ & Hflag & Hth).
  { apply (exec_invariant_on json_loads json_dumps leaves_file (calm fs0));
      [|done|by apply (init_calm json_loads path watch_file delay)].
    intros a w'. apply step_calm. }
  split; [done|]. unfold watcher_pc_of.
  split; [|split].
  - destruct (config_watcher_thread (mgr w)) as [th|]; [|done]. cbn.
    intros [= Hpc]. by rewrite Hpc in Hth.
  - destruct (config_watcher_thread (mgr w)) as [th|]; [|done]. cbn.
    intros [= Hpc]. by rewrite Hpc in Hth.
  - intros Hmap.
    assert (Forall (λ a, leaves_file a ∧ leaves_map a) acts) as Hboth.
    { apply Forall_and. done. }
    apply (exec_invariant_on json_loads json_dumps
             (λ a, leaves_file a ∧ leaves_map a)
             (λ w, calm fs0 w ∧ config (mgr w) = config (mgr w0)));
      [|done|split; [by apply (init_calm json_loads path watch_file delay)|done]].
    intros a w' [Hf Hm] [Hcalm Hcfg]. split; [by apply step_calm|].
    destruct a; try done; cbn [step].
    + pose proof (watcher_step_config json_loads w') as Hstep.
      destruct Hcalm as (_ & _ & Hth'). revert Hth' Hstep.
      unfold watcher_pc_of.
      destruct (config_watcher_thread (mgr w')) as [th|]; cbn;
        [|by intros _ ->].
      destruct (pc th) as [| | |content| | |[|]|[|]| |e];
        first [by intros _ -> | by intros []].
    + unfold stop. by destruct (stop_event (mgr w')).
Qed.

Lemma unchanged_file_is_never_reported_witness :
  is_updated
    (mgr (exec PyJson.loads PyJson.dumps
            (replicate 9 Watcher ++ [CallSet "a" JNull; Watcher])
            watched_world)) = false.
Proof.
  refine (proj1 (unchanged_file_is_never_reported PyJson.loads PyJson.dumps
                   "config.json" true 2000 watched_fs watched_world
                   (replicate 9 Watcher ++ [CallSet "a" JNull; Watcher])
                   _ _)).
  - vm_compute. reflexivity.
  - repeat constructor.
Defined.












(** Once the watcher's thread has ended, nothing raises the flag again and
    only [set] changes the map. *)
Lemma exec_ended json_loads json_dumps acts w th :
  is_updated (mgr w) = false → config_watcher_thread (mgr w) = Some th →
  terminated th = true →
  config_watcher_thread (mgr (exec json_loads json_dumps acts w)) = Some th ∧
  is_updated (mgr (exec json_loads json_dumps acts w)) = false ∧
  (Forall leaves_map acts →
   config (mgr (exec json_loads json_dumps acts w)) = config (mgr w)).
Proof.
  intros Hw Hth Hend.
  destruct (exec_terminated json_loads json_dumps acts w th Hth Hend)
    as [Hth' Hflag'].
  split; [done|]. split.
  { unfold is_updated in *. by rewrite Hflag'. }
  intros Hmap.
  apply (exec_invariant_on json_loads json_dumps leaves_map
           (λ w', config_watcher_thread (mgr w') = Some th ∧
                  config (mgr w') = config (mgr w))); [|done|done].
  intros a w' Ha [Hth1 Hcfg]. split; [by apply step_terminated|].
  destruct a; try done; cbn [step].
  - unfold watcher_step. rewrite Hth1.
    unfold terminated in Hend. by destruct (pc th).
  - unfold stop. by destruct (stop_event (mgr w')).
Qed.

Lemma exec_path json_loads json_dumps acts w :
  config_file_path (mgr (exec json_loads json_dumps acts w)) =
  config_file_path (mgr w).
Proof.
  apply (exec_invariant json_loads json_dumps
           (λ w', config_file_path (mgr w') = config_file_path (mgr w)));
    [|done].
  intros a w' Hp. destruct a; cbn [step]; try done.
  - unfold watcher_step.
    destruct (config_watcher_thread (mgr w')) as [th|]; [|done].
    destruct (pc th); try done;
      repeat match goal with
        | |- context [read_file ?f ?p] => destruct (read_file f p)
        | |- context [match stop_event ?m with _ => _ end] =>
            destruct (stop_event m) as [[|]|]
        | |- context [decide ?P] => destruct (decide P)
        | |- context [load_config ?l ?m ?f] => destruct (load_config l m f)
        end; done.
  - unfold set. by destruct (config (mgr w')).
  - unfold stop. by destruct (stop_event (mgr w')).
Qed.

(** X16. A file that another program has half written when the watcher
    reloads it ends the watcher: [load_config] raises inside the thread,
    the map in memory stays as it was, the change is never reported, and no
    later change of the file is picked up. *)
Theorem malformed_reload_ends_the_watcher
    json_loads json_dumps path delay (fs0 : files) w0 acts0 text e acts :
  ConfigurationManager_init json_loads path true delay fs0 = Ok w0 →
  let w := exec json_loads json_dumps acts0 w0 in
  watcher_pc_of w = Some W_reload →
  fs w !! path = Some text →
  json_loads text = Raise e →
  exn_cls e ≠ FileNotFoundError →
  let w' := exec json_loads json_dumps (Watcher :: acts) w in
  watcher_pc_of w' = Some (W_crashed e) ∧
  join w' = Ok true ∧
  is_updated (mgr w') = false ∧
  (Forall leaves_map acts → config (mgr w') = config (mgr w)).
Proof.
  intros Hinit w Hpc Hfile Hloads Hcls w'.
  assert (watched w) as Hw by (by eapply exec_watched).
  assert (config_file_path (mgr w) = path) as Hpath.
  { unfold w. rewrite exec_path. unfold ConfigurationManager_init in Hinit.
    destruct (load_config _ _ _); [|done]. by injection Hinit as <-. }
  unfold watcher_pc_of in Hpc.
  destruct (config_watcher_thread (mgr w)) as [th|] eqn:Hth; [|done].
  injection Hpc as Hpc.
  set (th1 := {| pc := W_crashed e; comandosText := comandosText th |}).
  assert (step json_loads json_dumps Watcher w =
          with_mgr (set_thread th1) w) as Hstep.
  { cbn [step]. unfold watcher_step. rewrite Hth, Hpc.
    rewrite (load_config_present json_loads _ _ text) by by rewrite Hpath.
    rewrite Hloads. by destruct (decide _). }
  subst w'. rewrite exec_cons, Hstep.
  destruct (exec_ended json_loads json_dumps acts
              (with_mgr (set_thread th1) w) th1)
    as (Hth' & Hflag & Hcfg); [|done|done|].
  { change (is_updated (mgr w) = false).
    rewrite (watched_flag_at w th Hw Hth) by by rewrite Hpc.
    unfold in_window. by rewrite Hth, Hpc. }
  unfold watcher_pc_of, join. rewrite Hth'. done.
Qed.

Lemma malformed_reload_ends_the_watcher_witness :
  watcher_pc_of
    (exec PyJson.loads PyJson.dumps [Watcher; FileWrite edited_text; Watcher]
       (exec PyJson.loads PyJson.dumps half_written watched_world)) =
  Some (W_crashed (Exn JSONDecodeError "Expecting value")).
Proof.
  refine (proj1 (malformed_reload_ends_the_watcher PyJson.loads PyJson.dumps
                   "config.json" 2000 watched_fs watched_world half_written
                   truncated_text (Exn JSONDecodeError "Expecting value")
                   [FileWrite edited_text; Watcher] _ _ _ _ _)).
  - vm_compute. reflexivity.
  - vm_compute. reflexivity.
  - vm_compute. reflexivity.
  - vm_compute. reflexivity.
  - done.
Defined.

(** X17. A file removed while the watcher goes round its loop ends the
    watcher at its next read: the thread dies with FileNotFoundError, the
    removal is never reported, and the map in memory is not emptied. *)
Theorem removed_file_ends_the_watcher
    json_loads json_dumps path delay (fs0 : files) w0 acts0 acts :
  ConfigurationManager_init json_loads path true delay fs0 = Ok w0 →
  let w := exec json_loads json_dumps acts0 w0 in
  watcher_pc_of w = Some W_read →
  fs w !! path = None →
  let w' := exec json_loads json_dumps (Watcher :: acts) w in
  watcher_pc_of w' = Some (W_crashed file_not_found) ∧
  join w' = Ok true ∧
  is_updated (mgr w') = false ∧
  (Forall leaves_map acts → config (mgr w') = config (mgr w)).
Proof.
  intros Hinit w Hpc Hfile w'.
  assert (watched w) as Hw by (by eapply exec_watched).
  assert (config_file_path (mgr w) = path) as Hpath.
  { unfold w. rewrite exec_path. unfold ConfigurationManager_init in Hinit.
    destruct (load_config _ _ _); [|done]. by injection Hinit as <-. }
  unfold watcher_pc_of in Hpc.
  destruct (config_watcher_thread (mgr w)) as [th|] eqn:Hth; [|done].
  injection Hpc as Hpc.
  set (th1 := {| pc := W_crashed file_not_found;
                 comandosText := comandosText th |}).
  assert (step json_loads json_dumps Watcher w =
          with_mgr (set_thread th1) w) as Hstep.
  { cbn [step]. unfold watcher_step. rewrite Hth, Hpc.
    unfold read_file. by rewrite Hpath, Hfile. }
  subst w'. rewrite exec_cons, Hstep.
  destruct (exec_ended json_loads json_dumps acts
              (with_mgr (set_thread th1) w) th1)
    as (Hth' & Hflag & Hcfg); [|done|done|].
  { change (is_updated (mgr w) = false).
    rewrite (watched_flag_at w th Hw Hth) by by rewrite Hpc.
    unfold in_window. by rewrite Hth, Hpc. }
  unfold watcher_pc_of, join. rewrite Hth'. done.
Qed.

Lemma removed_file_ends_the_watcher_witness :
  config
    (mgr (exec PyJson.loads PyJson.dumps [Watcher; Watcher]
            (exec PyJson.loads PyJson.dumps removed_in_loop watched_world))) =
  config
    (mgr (exec PyJson.loads PyJson.dumps removed_in_loop watched_world)).
Proof.
  refine (proj2 (proj2 (proj2
    (removed_file_ends_the_watcher PyJson.loads PyJson.dumps
       "config.json" 2000 watched_fs watched_world removed_in_loop
       [Watcher] _ _ _))) _).
  - vm_compute. reflexivity.
  - vm_compute. reflexivity.
  - vm_compute. reflexivity.
  - repeat constructor.
Defined.

(** X18. A file removed between the watcher's read and its reload is
    reported as a change to the empty map: [load_config] takes the missing
    file for a new configuration, so the map in memory is emptied and
    [is_updated] goes up. *)
Theorem removal_before_reload_empties_the_map
    json_loads json_dumps (w : world) :
  watcher_pc_of w = Some W_reload →
  fs w !! config_file_path (mgr w) = None →
  let w' := exec json_loads json_dumps [Watcher; Watcher] w in
  config (mgr w') = JObj [] ∧ is_updated (mgr w') = true ∧
  watcher_pc_of w' = Some (W_sleep true).
Proof.
  intros Hpc Hfile w'. unfold watcher_pc_of in Hpc.
  destruct (config_watcher_thread (mgr w)) as [th|] eqn:Hth; [|done].
  injection Hpc as Hpc.
  assert (watcher_step json_loads w =
          goto W_flag th (with_mgr (set_config (JObj [])) w)) as Hstep.
  { unfold watcher_step. rewrite Hth, Hpc.
    by rewrite load_config_missing. }
  subst w'. rewrite !exec_cons. cbn [exec foldl step]. by rewrite Hstep.
Qed.

Lemma removal_before_reload_empties_the_map_witness :
  config
    (mgr (exec PyJson.loads PyJson.dumps [Watcher; Watcher]
            (exec PyJson.loads PyJson.dumps removed_before_reload
               watched_world))) = JObj [].
Proof.
  refine (proj1 (removal_before_reload_empties_the_map
                   PyJson.loads PyJson.dumps
                   (exec PyJson.loads PyJson.dumps removed_before_reload
                      watched_world) _ _)).
  - vm_compute. reflexivity.
  - vm_compute. reflexivity.
Defined.

(** X19. The manager's own [save_config] is reported like a change made by
    another program: after [set] and [save_config], the watcher finds the
    text of the file changed, reloads it and raises [is_updated]. *)
Theorem own_save_is_reported
    json_loads json_dumps (w : world) th key value kvs :
  config_watcher_thread (mgr w) = Some th →
  pc th = W_test →
  stop_event (mgr w) = Some false →
  config (mgr w) = JObj kvs →
  json_dumps (JObj (dict_set key value kvs)) ≠ comandosText th →
  json_loads (json_dumps (JObj (dict_set key value kvs))) =
    Ok (JObj (dict_set key value kvs)) →
  let w' := exec json_loads json_dumps
              ([CallSet key value; CallSave] ++ replicate 5 Watcher) w in
  is_updated (mgr w') = true ∧
  config (mgr w') = JObj (dict_set key value kvs) ∧
  out w' = out w ++ ["File was modified! Reloading it..."].
Proof.
  intros Hth Hpc Hstop Hcfg Hne Hloads w'.
  destruct w as [[p d fc c se t] files0 o]. cbn in Hth, Hpc, Hstop, Hcfg.
  subst t se c. destruct th as [pc0 seen]. cbn in Hpc, Hne. subst pc0.
  set (c' := JObj (dict_set key value kvs)) in *.
  set (W := λ pcv seenv cfg fcv ov,
         {| mgr := {| config_file_path := p; file_watcher_delay := d;
                      file_change := fcv; config := cfg;
                      stop_event := Some false;
                      config_watcher_thread :=
                        Some {| pc := pcv; comandosText := seenv |} |};
            fs := <[p := json_dumps c']> files0; out := ov |}).
  assert (watcher_step json_loads (W W_test seen c' fc o) =
          W W_read seen c' fc o) as H1 by done.
  assert (watcher_step json_loads (W W_read seen c' fc o) =
          W (W_compare (json_dumps c')) seen c' fc o) as H2.
  { unfold watcher_step, read_file. cbn. by rewrite lookup_insert_eq. }
  assert (watcher_step json_loads
            (W (W_compare (json_dumps c')) seen c' fc o) =
          W W_reload (json_dumps c') c' fc
            (o ++ ["File was modified! Reloading it..."])) as H3.
  { unfold watcher_step. cbn. by rewrite decide_True. }
  assert (watcher_step json_loads
            (W W_reload (json_dumps c') c' fc
               (o ++ ["File was modified! Reloading it..."])) =
          W W_flag (json_dumps c') c' fc
            (o ++ ["File was modified! Reloading it..."])) as H4.
  { unfold watcher_step, load_config, read_file. cbn.
    by rewrite lookup_insert_eq, Hloads. }
  assert (watcher_step json_loads
            (W W_flag (json_dumps c') c' fc
               (o ++ ["File was modified! Reloading it..."])) =
          W (W_sleep true) (json_dumps c') c' true
            (o ++ ["File was modified! Reloading it..."])) as H5 by done.
  subst w'.
  change (exec json_loads json_dumps
            ([CallSet key value; CallSave] ++ replicate 5 Watcher) _)
    with (watcher_step json_loads (watcher_step json_loads
            (watcher_step json_loads (watcher_step json_loads
               (watcher_step json_loads (W W_test seen c' fc o)))))).
  by rewrite H1, H2, H3, H4, H5.
Qed.

Lemma own_save_is_reported_witness :
  is_updated
    (mgr (exec PyJson.loads PyJson.dumps
            ([CallSet "gain" (JInt 3); CallSave] ++ replicate 5 Watcher)
            (exec PyJson.loads PyJson.dumps [Watcher] watched_world))) = true.
Proof.
  refine (proj1 (own_save_is_reported PyJson.loads PyJson.dumps
                   (exec PyJson.loads PyJson.dumps [Watcher] watched_world)
                   {| pc := W_test; comandosText := watched_text |}
                   "gain" (JInt 3)
                   [("settings", JObj [("exposureTime_us", JInt 1000)])]
                   _ _ _ _ _ _)).
  - vm_compute. reflexivity.
  - reflexivity.
  - vm_compute. reflexivity.
  - vm_compute. reflexivity.
  - vm_compute. discriminate.
  - vm_compute. reflexivity.
Defined.

(** * Properties of the camera's life cycle *)

(** What [Camera(config_manager)] leaves, case by case. *)
Lemma Camera_init_cases env cm :
  let c := (Camera.init env cm).1 in
  (Camera.init env cm).2 = Ok tt ∧
  Camera.config_manager c = cm ∧
  ((Camera.connected c = true ∧ Camera.printed c = [] ∧
    Camera.sdk c = true ∧
    ∃ first rest cam kvs skvs,
      discover_available_cameras env = Ok (first :: rest) ∧
      open_camera env first = Ok cam ∧
      Camera.camera c = Some (Some cam) ∧
      config cm = JObj kvs ∧ dict_get "settings" kvs = JObj skvs ∧
      set_exposure_time_us env (dict_get "exposureTime_us" skvs) = Ok tt ∧
      arm env 2 = Ok tt) ∨
   (Camera.connected c = false ∧ length (Camera.printed c) = 1%nat ∧
    (Camera.camera c = None ∨ Camera.camera c = Some None))).
Proof.
  unfold Camera.init, Camera.initialize_camera, Camera.try_block.
  unfold bind, call, modify, raise, gets, get, Camera.settings_get.
  cbn.
  destruct (TLCameraSDK env) as [[]|e1] eqn:H1; cbn.
  2: { destruct (decide _); cbn; (split; [done|]); (split; [done|]);
       right; auto. }
  destruct (discover_available_cameras env) as [[|first rest]|e2] eqn:H2; cbn.
  1,3: destruct (decide _); cbn; (split; [done|]); (split; [done|]);
       right; auto.
  destruct (open_camera env first) as [cam|e3] eqn:H3; cbn.
  2: { destruct (decide _); cbn; (split; [done|]); (split; [done|]);
       right; auto. }
  destruct (config cm) as [| | | | | |kvs] eqn:Hcm; cbn.
  1-6: (split; [done|]); (split; [done|]); right; auto.
  destruct (dict_get "settings" kvs) as [| | | | | |skvs] eqn:Hs; cbn.
  1-6: (split; [done|]); (split; [done|]); right; auto.
  destruct (set_exposure_time_us env _) as [[]|e4] eqn:H4; cbn.
  2: { destruct (decide _); cbn; (split; [done|]); (split; [done|]);
       right; auto. }
  destruct (set_frames_per_trigger_zero_for_unlimited env 1)
    as [[]|e5] eqn:H5; cbn.
  2: { destruct (decide _); cbn; (split; [done|]); (split; [done|]);
       right; auto. }
  destruct (set_operation_mode env 1) as [[]|e6] eqn:H6; cbn.
  2: { destruct (decide _); cbn; (split; [done|]); (split; [done|]);
       right; auto. }
  destruct (set_trigger_polarity env 1) as [[]|e7] eqn:H7; cbn.
  2: { destruct (decide _); cbn; (split; [done|]); (split; [done|]);
       right; auto. }
  destruct (arm env 2) as [[]|e8] eqn:H8; cbn.
  2: { destruct (decide _); cbn; (split; [done|]); (split; [done|]);
       right; auto. }
  split; [done|]. split; [done|]. left.
  split; [done|]. split; [done|]. split; [done|].
  by exists first, rest, cam, kvs, skvs.
Qed.

(** What [ThorlabsCameraHandler(config_manager, shared_queue, signal)]
    leaves, case by case. *)
Lemma Handler_init_cases env cm q sg :
  let h := (ThorlabsCameraHandler.init env cm q sg).1 in
  let c := (Camera.init env cm).1 in
  (ThorlabsCameraHandler.init env cm q sg).2 = Ok tt ∧
  ThorlabsCameraHandler.config h = cm ∧
  ThorlabsCameraHandler.shared_queue h = q ∧
  ThorlabsCameraHandler.signal h = sg ∧
  ThorlabsCameraHandler.is_alive h = false ∧
  ThorlabsCameraHandler.thread_started h = false ∧
  ThorlabsCameraHandler.connected h = Camera.connected c ∧
  ((Camera.connected c = true ∧
    ThorlabsCameraHandler._camera h = Some (Some c) ∧
    ∃ th,
      ThorlabsCameraHandler.new_thread env (Camera.camera c) q sg = Ok th ∧
      ThorlabsCameraHandler.image_acquisition_thread h = Some th) ∨
   (Camera.connected c = true ∧
    ThorlabsCameraHandler._camera h = Some None ∧
    ThorlabsCameraHandler.image_acquisition_thread h = None ∧
    ∃ e, ThorlabsCameraHandler.new_thread env (Camera.camera c) q sg =
         Raise e) ∨
   (Camera.connected c = false ∧
    ThorlabsCameraHandler._camera h = Some (Some c) ∧
    ThorlabsCameraHandler.image_acquisition_thread h = None)).
Proof.
  intros h c. subst h.
  destruct (Camera_init_cases env cm) as (Hr & _ & _).
  fold c in Hr. revert Hr. subst c.
  destruct (ThorlabsCameraHandler.init env cm q sg) as [h r] eqn:Hinit.
  revert Hinit.
  unfold ThorlabsCameraHandler.init, ThorlabsCameraHandler.initialize_camera,
    ThorlabsCameraHandler.try_block.
  unfold bind at 1. unfold gets at 1. cbn beta iota.
  cbn [ThorlabsCameraHandler.config].
  destruct (Camera.init env cm) as [c rc]. cbn [fst snd]. intros Hinit ->.
  revert Hinit.
  unfold bind, call, modify, gets, ret, Camera.is_connected. cbn.
  destruct (Camera.connected c) eqn:Hc; cbn.
  - destruct (ThorlabsCameraHandler.new_thread env (Camera.camera c) q sg)
      as [th|e] eqn:Hth; cbn; intros [= <- <-]; cbn.
    + repeat (split; [done|]). left. repeat (split; [done|]). by exists th.
    + repeat (split; [done|]). right. left. repeat (split; [done|]).
      by exists e.
  - intros [= <- <-]; cbn. repeat (split; [done|]). right. right. done.
Qed.

(** On a handler whose thread was never started, [initialize_camera] of
    the life cycle is the one of [ThorlabsCameraHandler]. *)
Lemma initialize_camera_agrees env s :
  ThorlabsCameraHandler.thread_started (Lifecycle.handler s) = false →
  Lifecycle.initialize_camera env s =
  ({| Lifecycle.handler :=
        (ThorlabsCameraHandler.initialize_camera env
           (Lifecycle.handler s)).1;
      Lifecycle.sdk_calls := Lifecycle.sdk_calls s |},
   (ThorlabsCameraHandler.initialize_camera env (Lifecycle.handler s)).2).
Proof.
  intros Hfresh. destruct s as [h calls]. cbn in Hfresh.
  unfold Lifecycle.initialize_camera, Lifecycle.try_block,
    ThorlabsCameraHandler.initialize_camera, ThorlabsCameraHandler.try_block.
  unfold bind, call, modify, gets, ret, Camera.is_connected,
    Lifecycle.on_handler. cbn.
  destruct (Camera.init env (ThorlabsCameraHandler.config h)) as [c rc].
  destruct rc as [[]|e]; cbn; [|done].
  destruct (Camera.connected c); cbn; [|done].
  destruct (ThorlabsCameraHandler.new_thread _ _ _ _); cbn; [|done].
  destruct h. cbn in *. by subst.
Qed.

(** On a handler whose thread was never started,
    [activate_camera_instance] of the life cycle is the one of
    [ThorlabsCameraHandler]. *)
Lemma activate_camera_instance_agrees s :
  ThorlabsCameraHandler.thread_started (Lifecycle.handler s) = false →
  Lifecycle.activate_camera_instance s =
  ({| Lifecycle.handler :=
        (ThorlabsCameraHandler.activate_camera_instance
           (Lifecycle.handler s)).1;
      Lifecycle.sdk_calls := Lifecycle.sdk_calls s |},
   (ThorlabsCameraHandler.activate_camera_instance (Lifecycle.handler s)).2).
Proof.
  intros Hfresh. destruct s as [h calls]. cbn in Hfresh.
  unfold Lifecycle.activate_camera_instance,
    ThorlabsCameraHandler.activate_camera_instance.
  unfold bind, gets, modify, raise, Lifecycle.on_handler. cbn.
  destruct (ThorlabsCameraHandler.image_acquisition_thread h); cbn; [|done].
  by rewrite Hfresh.
Qed.

(** What [initialize_camera] leaves on a handler in use, case by case. *)
Lemma initialize_camera_cases env s :
  let s' := (Lifecycle.initialize_camera env s).1 in
  let h := Lifecycle.handler s in
  let h' := Lifecycle.handler s' in
  let c := (Camera.init env (ThorlabsCameraHandler.config h)).1 in
  (Lifecycle.initialize_camera env s).2 = Ok tt ∧
  Lifecycle.sdk_calls s' = Lifecycle.sdk_calls s ∧
  ThorlabsCameraHandler.config h' = ThorlabsCameraHandler.config h ∧
  ThorlabsCameraHandler.shared_queue h' =
    ThorlabsCameraHandler.shared_queue h ∧
  ThorlabsCameraHandler.signal h' = ThorlabsCameraHandler.signal h ∧
  ThorlabsCameraHandler.is_alive h' = ThorlabsCameraHandler.is_alive h ∧
  ThorlabsCameraHandler.connected h' = Camera.connected c ∧
  ((Camera.connected c = true ∧
    ThorlabsCameraHandler._camera h' = Some (Some c) ∧
    ThorlabsCameraHandler.thread_started h' = false ∧
    ∃ th,
      ThorlabsCameraHandler.new_thread env (Camera.camera c)
        (ThorlabsCameraHandler.shared_queue h)
        (ThorlabsCameraHandler.signal h) = Ok th ∧
      ThorlabsCameraHandler.image_acquisition_thread h' = Some th) ∨
   (ThorlabsCameraHandler.image_acquisition_thread h' =
      ThorlabsCameraHandler.image_acquisition_thread h ∧
    ThorlabsCameraHandler.thread_started h' =
      ThorlabsCameraHandler.thread_started h ∧
    ((Camera.connected c = true ∧
      ThorlabsCameraHandler._camera h' = Some None ∧
      ∃ e, ThorlabsCameraHandler.new_thread env (Camera.camera c)
             (ThorlabsCameraHandler.shared_queue h)
             (ThorlabsCameraHandler.signal h) = Raise e) ∨
     (Camera.connected c = false ∧
      ThorlabsCameraHandler._camera h' = Some (Some c))))).
Proof.
  intros s' h h' c. subst s' h' c h.
  destruct (Camera_init_cases env
              (ThorlabsCameraHandler.config (Lifecycle.handler s)))
    as (Hr & _ & _). revert Hr.
  destruct (Lifecycle.initialize_camera env s) as [s' r] eqn:Hinit.
  revert Hinit.
  unfold Lifecycle.initialize_camera, Lifecycle.try_block.
  unfold bind at 1. unfold gets at 1. cbn beta iota.
  destruct (Camera.init env _) as [c rc]. cbn [fst snd]. intros Hinit ->.
  revert Hinit.
  unfold bind, call, modify, gets, ret, Camera.is_connected,
    Lifecycle.on_handler. cbn.
  destruct (Camera.connected c) eqn:Hc; cbn.
  - destruct (ThorlabsCameraHandler.new_thread env (Camera.camera c) _ _)
      as [th|e] eqn:Hth; cbn; intros [= <- <-]; cbn.
    + repeat (split; [done|]). left. repeat (split; [done|]). by exists th.
    + repeat (split; [done|]). right. repeat (split; [done|]). left.
      repeat (split; [done|]). by exists e.
  - intros [= <- <-]; cbn. repeat (split; [done|]). right.
    repeat (split; [done|]). by right.
Qed.

Lemma new_thread_made env camera q sg th :
  ThorlabsCameraHandler.new_thread env camera q sg = Ok th →
  ∃ cam, camera = Some (Some cam) ∧
    th = ImageAcquisitionThread_init cam q sg ∧
    (camera_sensor_type cam = BAYER → MonoToColorProcessorSDK env = Ok tt).
Proof.
  unfold ThorlabsCameraHandler.new_thread.
  destruct camera as [[cam|]|]; try done.
  destruct (decide _) as [Hne|Heq].
  - intros [= <-]. exists cam. by repeat split.
  - destruct (MonoToColorProcessorSDK env) as [[]|e]; [|done].
    intros [= <-]. exists cam. by repeat split.
Qed.

Lemma ImageAcquisitionThread_init_queue cam q sg :
  get_output_queue (ImageAcquisitionThread_init cam q sg) =
  default {| maxsize := 2; items := [] |} q.
Proof.
  unfold ImageAcquisitionThread_init, get_output_queue.
  by destruct (decide _), q.
Qed.

(** X20. Constructing a [Camera] never raises. It ends connected exactly
    when it holds an opened camera, and then the store has a settings
    object whose exposure time the SDK took and the camera was armed with
    two buffers; otherwise one line was printed and no camera is held. *)
Theorem Camera_connects_only_when_armed env cm :
  let c := (Camera.init env cm).1 in
  (Camera.init env cm).2 = Ok tt ∧
  (Camera.is_connected c = true ↔ ∃ cam, Camera.camera c = Some (Some cam)) ∧
  (Camera.is_connected c = true →
   Camera.printed c = [] ∧
   ∃ kvs skvs,
     config cm = JObj kvs ∧ dict_get "settings" kvs = JObj skvs ∧
     set_exposure_time_us env (dict_get "exposureTime_us" skvs) = Ok tt ∧
     arm env 2 = Ok tt) ∧
  (Camera.is_connected c = false → length (Camera.printed c) = 1%nat).
Proof.
  intros c. unfold Camera.is_connected.
  destruct (Camera_init_cases env cm) as (Hr & _ & Hcases). fold c in Hcases.
  split; [done|].
  destruct Hcases as
    [(Hc & Hp & _ & first & rest & cam & kvs & skvs &
      _ & _ & Hcam & Hcm & Hs & Hexp & Harm)
    |(Hc & Hp & Hcam)].
  - rewrite Hc. split; [split; [by exists cam|done]|].
    split; [|done]. intros _. split; [done|]. by exists kvs, skvs.
  - rewrite Hc. split; [|done]. split; [done|].
    intros [cam Hsome]. destruct Hcam as [Hcam|Hcam]; congruence.
Qed.

(** X21. Disposing the [Camera] that a construction left: the SDK's
    objects are released in the order disarm, camera, SDK, stopping at the
    first call that raises, so the SDK is released only after the camera
    was; a [Camera] that did not connect raises AttributeError before any
    call, and its SDK object is never released. *)
Theorem dispose_releases_in_order env cm denv s :
  let c := (Camera.init env cm).1 in
  let s' := (Lifecycle.dispose denv c s).1 in
  let r := (Lifecycle.dispose denv c s).2 in
  Lifecycle.handler s' = Lifecycle.handler s ∧
  ∃ made,
    Lifecycle.sdk_calls s' = Lifecycle.sdk_calls s ++ made ∧
    made `prefix_of` [Disarm; Dispose_camera; Dispose_sdk] ∧
    (Camera.is_connected c = false →
     made = [] ∧ ∃ e, r = Raise e ∧ exn_cls e = AttributeError) ∧
    (r = Ok tt ↔
     Camera.is_connected c = true ∧ disarm denv = Ok tt ∧
     camera_dispose denv = Ok tt ∧ sdk_dispose denv = Ok tt) ∧
    (Dispose_sdk ∈ made ↔
     Camera.is_connected c = true ∧ disarm denv = Ok tt ∧
     camera_dispose denv = Ok tt).
Proof.
  intros c s' r. subst s' r. unfold Camera.is_connected.
  destruct (Camera_init_cases env cm) as (_ & _ & Hcases). fold c in Hcases.
  unfold Lifecycle.dispose.
  destruct Hcases as
    [(Hc & _ & Hsdk & first & rest & cam & kvs & skvs &
      _ & _ & Hcam & _)
    |(Hc & _ & [Hcam|Hcam])];
    rewrite Hcam, Hc; cbn.
  - rewrite Hsdk. unfold bind, modify, call, Lifecycle.called. cbn.
    destruct (disarm denv) as [[]|e1]; cbn.
    2: { split; [done|]. exists [Disarm]. split; [done|].
         split; [by exists [Dispose_camera; Dispose_sdk]|].
         split; [done|]. split; [split; [done|]; by intros (_ & ? & _)|].
         split; [|by intros (_ & ? & _)].
         by intros ?%list_elem_of_singleton. }
    destruct (camera_dispose denv) as [[]|e2]; cbn.
    2: { split; [done|]. exists [Disarm; Dispose_camera].
         split; [by rewrite <- app_assoc|].
         split; [by exists [Dispose_sdk]|].
         split; [done|]. split; [split; [done|]; by intros (_ & _ & ? & _)|].
         split; [|by intros (_ & _ & ?)].
         intros [?|?%list_elem_of_singleton]%elem_of_cons; done. }
    split; [done|]. exists [Disarm; Dispose_camera; Dispose_sdk].
    split; [by rewrite <- !app_assoc|]. split; [done|]. split; [done|].
    split.
    + destruct (sdk_dispose denv) as [[]|e3]; [done|].
      split; [done|]. by intros (_ & _ & _ & ?).
    + split; [done|]. intros _. set_solver.
  - split; [done|]. exists []. split; [by rewrite app_nil_r|].
    split; [by exists [Disarm; Dispose_camera; Dispose_sdk]|].
    split; [intros _; split; [done|]; by eexists|].
    split; [split; [done|]; by intros (? & _)|].
    split; [by intros ?%elem_of_nil|by intros (? & _)].
  - split; [done|]. exists []. split; [by rewrite app_nil_r|].
    split; [by exists [Disarm; Dispose_camera; Dispose_sdk]|].
    split; [intros _; split; [done|]; by eexists|].
    split; [split; [done|]; by intros (? & _)|].
    split; [by intros ?%elem_of_nil|by intros (? & _)].
Qed.

(** X22. When the handler's construction makes an acquisition thread, the
    handler is connected and holds the [Camera]; the thread has not been
    started, puts its images in the queue given to the handler, or in a
    queue of its own of capacity 2 when none was given, and is a colour
    thread exactly for a Bayer sensor. *)
Theorem handler_thread_uses_the_shared_queue env cm q sg th :
  let h := (ThorlabsCameraHandler.init env cm q sg).1 in
  ThorlabsCameraHandler.image_acquisition_thread h = Some th →
  ThorlabsCameraHandler.connected h = true ∧
  ThorlabsCameraHandler.is_alive h = false ∧
  ThorlabsCameraHandler.thread_started h = false ∧
  get_output_queue th = default {| maxsize := 2; items := [] |} q ∧
  ∃ c cam,
    ThorlabsCameraHandler._camera h = Some (Some c) ∧
    Camera.camera c = Some (Some cam) ∧
    th = ImageAcquisitionThread_init cam q sg ∧
    _is_color th = bool_decide (camera_sensor_type cam = BAYER).
Proof.
  intros h Hth.
  destruct (Handler_init_cases env cm q sg)
    as (_ & _ & _ & _ & Halive & Hstarted & Hconn & Hcases).
  fold h in Halive, Hstarted, Hconn, Hcases.
  destruct Hcases as [(Hc & Hcam & th' & Hnew & Hth')|
                      [(_ & _ & Hnone & _)|(_ & _ & Hnone)]];
    [|congruence|congruence].
  assert (th' = th) as -> by congruence.
  apply new_thread_made in Hnew as (cam & Hcamera & -> & _).
  split; [congruence|]. split; [done|]. split; [done|].
  rewrite ImageAcquisitionThread_init_queue. split; [done|].
  exists (Camera.init env cm).1, cam. split; [done|]. split; [done|].
  split; [done|]. unfold ImageAcquisitionThread_init.
  destruct (decide (camera_sensor_type cam ≠ BAYER)) as [Hne|Heq]; cbn.
  - by rewrite bool_decide_eq_false_2.
  - rewrite bool_decide_eq_true_2; [done|].
    by destruct (decide (camera_sensor_type cam = BAYER)).
Qed.

Lemma handler_thread_uses_the_shared_queue_witness :
  get_output_queue (ImageAcquisitionThread_init mono_camera
                      (Some single_slot) true) = single_slot.
Proof.
  refine (proj1 (proj2 (proj2 (proj2
    (handler_thread_uses_the_shared_queue (sdk_with mono_camera)
       manager_1000 (Some single_slot) true
       (ImageAcquisitionThread_init mono_camera (Some single_slot) true)
       _))))).
  vm_compute. reflexivity.
Defined.

Lemma session_snoc rs r s :
  Lifecycle.session (rs ++ [r]) s =
  (Lifecycle.serve r (Lifecycle.session rs s)).1.
Proof. unfold Lifecycle.session. by rewrite foldl_app. Qed.

Lemma session_cons r rs s :
  Lifecycle.session (r :: rs) s =
  Lifecycle.session rs (Lifecycle.serve r s).1.
Proof. done. Qed.

(** Nothing a handler without a thread and without an opened camera is
    asked to do gets past its first use of one of them. *)
Lemma serve_without_thread r s :
  ThorlabsCameraHandler.image_acquisition_thread (Lifecycle.handler s)
    = None →
  Lifecycle.holds_no_camera (Lifecycle.handler s) →
  let s' := (Lifecycle.serve r s).1 in
  ThorlabsCameraHandler.image_acquisition_thread (Lifecycle.handler s')
    = None ∧
  Lifecycle.holds_no_camera (Lifecycle.handler s') ∧
  Lifecycle.sdk_calls s' = Lifecycle.sdk_calls s ∧
  ThorlabsCameraHandler.connected (Lifecycle.handler s') =
    ThorlabsCameraHandler.connected (Lifecycle.handler s) ∧
  (Lifecycle.camera_state s' = true ↔
   Lifecycle.camera_state s = true ∨ r = Lifecycle.Activate).
Proof.
  intros Hth Hcam. destruct s as [h calls]. cbn in Hth, Hcam.
  unfold Lifecycle.holds_no_camera in *. unfold Lifecycle.camera_state.
  assert (∀ denv,
    ∃ e, Lifecycle.dispose_camera_instance denv
           {| Lifecycle.handler := h; Lifecycle.sdk_calls := calls |} =
         ({| Lifecycle.handler := h; Lifecycle.sdk_calls := calls |},
          Raise e)) as Hdispose.
  { intros denv. unfold Lifecycle.dispose_camera_instance.
    unfold bind, gets, raise, ret, modify, Lifecycle.on_handler. cbn.
    destruct (ThorlabsCameraHandler.is_alive h); cbn;
      [rewrite Hth; by eauto|].
    destruct (ThorlabsCameraHandler._camera h) as [[c|]|]; cbn;
      [|by eauto|by eauto].
    unfold Lifecycle.dispose.
    destruct Hcam as [-> | ->]; cbn; by eauto. }
  cbn zeta.
  destruct (Lifecycle.serve r _) as [s' res] eqn:Hserve. cbn [fst].
  revert Hserve.
  destruct r as [|denv|env denv|cm]; cbn [Lifecycle.serve].
  - unfold Lifecycle.activate_camera_instance.
    unfold bind, gets, modify, raise, Lifecycle.on_handler. cbn.
    rewrite Hth. intros [= <- <-]. cbn.
    repeat (split; [done|]). split; [by right|done].
  - destruct (Hdispose denv) as [e ->]. intros [= <- <-]. cbn.
    repeat (split; [done|]). split; [by left|]. by intros [?|?].
  - unfold Lifecycle.reinitialize. unfold bind at 1. unfold gets at 1.
    cbn [Lifecycle.handler].
    destruct (ThorlabsCameraHandler.connected h) eqn:Hconn.
    + unfold bind at 1. destruct (Hdispose denv) as [e ->].
      intros [= <- <-]. cbn.
      repeat (split; [done|]). split; [by left|]. by intros [?|?].
    + intros [= <- <-]. cbn.
      repeat (split; [done|]). split; [by left|]. by intros [?|?].
  - intros [= <- <-]. cbn.
    repeat (split; [done|]). split; [by left|]. by intros [?|?].
Qed.

(** X23. A handler whose construction made no acquisition thread never
    gets one: whatever it is asked afterwards, it stays without a thread,
    [connected] keeps its value, and no SDK object is ever released;
    [camera_state] is nevertheless True once [activate_camera_instance]
    has been called. *)
Theorem handler_without_thread_stays_without env cm q sg rs :
  let s0 := Lifecycle.start env cm q sg in
  ThorlabsCameraHandler.image_acquisition_thread (Lifecycle.handler s0)
    = None →
  let s := Lifecycle.session rs s0 in
  ThorlabsCameraHandler.image_acquisition_thread (Lifecycle.handler s)
    = None ∧
  Lifecycle.sdk_calls s = [] ∧
  ThorlabsCameraHandler.connected (Lifecycle.handler s) =
    ThorlabsCameraHandler.connected (Lifecycle.handler s0) ∧
  (Lifecycle.camera_state s = true ↔ Lifecycle.Activate ∈ rs).
Proof.
  intros s0 Hth s.
  assert (Lifecycle.holds_no_camera (Lifecycle.handler s0)) as Hcam.
  { unfold Lifecycle.holds_no_camera. subst s0. cbn in *.
    destruct (Handler_init_cases env cm q sg)
      as (_ & _ & _ & _ & _ & _ & _ & Hcases).
    destruct Hcases as [(_ & _ & th & _ & Hsome)|
                        [(_ & -> & _)|(Hc & -> & _)]];
      [congruence|done|].
    destruct (Camera_init_cases env cm) as (_ & _ & Hcases).
    destruct Hcases as [(Hc' & _)|(_ & _ & Hnone)]; [congruence|done]. }
  assert (Lifecycle.camera_state s0 = false) as Halive.
  { subst s0. unfold Lifecycle.camera_state. cbn.
    by destruct (Handler_init_cases env cm q sg)
      as (_ & _ & _ & _ & ? & _). }
  assert (Lifecycle.sdk_calls s0 = []) as Hcalls by done.
  subst s. clearbody s0.
  enough (ThorlabsCameraHandler.image_acquisition_thread
            (Lifecycle.handler (Lifecycle.session rs s0)) = None ∧
          Lifecycle.holds_no_camera
            (Lifecycle.handler (Lifecycle.session rs s0)) ∧
          Lifecycle.sdk_calls (Lifecycle.session rs s0) = [] ∧
          ThorlabsCameraHandler.connected
            (Lifecycle.handler (Lifecycle.session rs s0)) =
          ThorlabsCameraHandler.connected (Lifecycle.handler s0) ∧
          (Lifecycle.camera_state (Lifecycle.session rs s0) = true ↔
           Lifecycle.Activate ∈ rs)) as (? & _ & ? & ? & ?) by done.
  induction rs as [|r rs IH] using rev_ind.
  - cbn. repeat (split; [done|]). rewrite Halive.
    split; [done|]. by intros ?%elem_of_nil.
  - destruct IH as (IHth & IHcam & IHcalls & IHconn & IHalive).
    rewrite session_snoc.
    destruct (serve_without_thread r _ IHth IHcam)
      as (Hth' & Hcam' & Hcalls' & Hconn' & Halive').
    split; [done|]. split; [done|]. split; [congruence|].
    split; [congruence|]. rewrite Halive', IHalive, elem_of_app.
    rewrite list_elem_of_singleton.
    split; (intros [?|?]; [by left|by right]).
Qed.

Lemma handler_without_thread_stays_without_witness :
  Lifecycle.sdk_calls
    (Lifecycle.session
       [Lifecycle.Activate; Lifecycle.Reinitialize (sdk_with mono_camera) releasing;
        Lifecycle.Dispose releasing]
       (Lifecycle.start sdk_without_color manager_1000 None true)) = [].
Proof.
  refine (proj1 (proj2
    (handler_without_thread_stays_without sdk_without_color manager_1000
       None true
       [Lifecycle.Activate; Lifecycle.Reinitialize (sdk_with mono_camera) releasing;
        Lifecycle.Dispose releasing] _))).
  vm_compute. reflexivity.
Defined.

Lemma bind_Ok {S A B} (m : M S A) (k : A → M S B) s s' a :
  m s = (s', Ok a) → bind m k s = k a s'.
Proof. unfold bind. by intros ->. Qed.

Lemma bind_Raise {S A B} (m : M S A) (k : A → M S B) s s' e :
  m s = (s', Raise e) → bind m k s = (s', Raise e).
Proof. unfold bind. by intros ->. Qed.

(** What [dispose] and [dispose_camera_instance] leave alone. *)
Lemma dispose_handler denv c s :
  Lifecycle.handler (Lifecycle.dispose denv c s).1 = Lifecycle.handler s.
Proof.
  unfold Lifecycle.dispose.
  destruct (Camera.camera c) as [[cam|]|]; [|done|done].
  unfold bind, modify, call, raise, Lifecycle.called. cbn.
  destruct (disarm denv); [|done]. destruct (camera_dispose denv); [|done].
  destruct (Camera.sdk c); [|done]. by destruct (sdk_dispose denv).
Qed.

Lemma dispose_camera_instance_frame denv s :
  let h := Lifecycle.handler s in
  let h' := Lifecycle.handler (Lifecycle.dispose_camera_instance denv s).1 in
  ThorlabsCameraHandler.config h' = ThorlabsCameraHandler.config h ∧
  ThorlabsCameraHandler.signal h' = ThorlabsCameraHandler.signal h ∧
  ThorlabsCameraHandler.shared_queue h' =
    ThorlabsCameraHandler.shared_queue h ∧
  ThorlabsCameraHandler.connected h' = ThorlabsCameraHandler.connected h ∧
  ThorlabsCameraHandler._camera h' = ThorlabsCameraHandler._camera h ∧
  ThorlabsCameraHandler.image_acquisition_thread h' =
    ThorlabsCameraHandler.image_acquisition_thread h ∧
  ThorlabsCameraHandler.thread_started h' =
    ThorlabsCameraHandler.thread_started h ∧
  ((Lifecycle.dispose_camera_instance denv s).2 = Ok tt →
   ThorlabsCameraHandler.is_alive h' = false).
Proof.
  destruct s as [h calls]. cbn zeta. cbn [Lifecycle.handler].
  destruct (Lifecycle.dispose_camera_instance denv _) as [s' r] eqn:Hrun.
  cbn [fst snd].
  lazy beta iota zeta delta
    [Lifecycle.dispose_camera_instance bind gets modify raise ret
     Lifecycle.on_handler Lifecycle.handler Lifecycle.sdk_calls] in Hrun.
  revert Hrun.
  destruct (ThorlabsCameraHandler.is_alive h) eqn:Halive.
  - destruct (ThorlabsCameraHandler.image_acquisition_thread h) eqn:Hth;
      [|by intros [= <- <-]].
    destruct (ThorlabsCameraHandler.thread_started h) eqn:Hst;
      [|by intros [= <- <-]].
    cbn [ThorlabsCameraHandler._camera ThorlabsCameraHandler.set_is_alive
         ThorlabsCameraHandler.print].
    destruct (ThorlabsCameraHandler._camera h) as [[c|]|] eqn:Hcam;
      [|by intros [= <- <-]|by intros [= <- <-]].
    intros Hrun.
    pose proof (dispose_handler denv c
      {| Lifecycle.handler :=
           ThorlabsCameraHandler.set_is_alive false
             (ThorlabsCameraHandler.print ["Image thred alive: False"] h);
         Lifecycle.sdk_calls := calls |}) as Hframe.
    rewrite Hrun in Hframe. cbn in Hframe. rewrite Hframe. cbn.
    by rewrite Hth, Hst.
  - destruct (ThorlabsCameraHandler._camera h) as [[c|]|] eqn:Hcam;
      [|by intros [= <- <-]|by intros [= <- <-]].
    intros Hrun.
    pose proof (dispose_handler denv c
      {| Lifecycle.handler := h; Lifecycle.sdk_calls := calls |}) as Hframe.
    rewrite Hrun in Hframe. cbn in Hframe. by rewrite Hframe.
Qed.

Lemma activate_fresh s th :
  ThorlabsCameraHandler.image_acquisition_thread (Lifecycle.handler s)
    = Some th →
  ThorlabsCameraHandler.thread_started (Lifecycle.handler s) = false →
  Lifecycle.activate_camera_instance s =
  (Lifecycle.on_handler
     (λ h, ThorlabsCameraHandler.print ["Image thred alive: True"]
             (ThorlabsCameraHandler.set_started
                (ThorlabsCameraHandler.set_is_alive true
                   (ThorlabsCameraHandler.print
                      ["Starting image acquisition thread..."] h)))) s,
   Ok tt).
Proof.
  intros Hth Hst. destruct s as [h calls]. cbn in Hth, Hst.
  unfold Lifecycle.activate_camera_instance.
  unfold bind, gets, modify, raise, Lifecycle.on_handler. cbn.
  rewrite Hth. cbn. by rewrite Hst.
Qed.

Lemma activate_used s th :
  ThorlabsCameraHandler.image_acquisition_thread (Lifecycle.handler s)
    = Some th →
  ThorlabsCameraHandler.thread_started (Lifecycle.handler s) = true →
  Lifecycle.activate_camera_instance s =
  (Lifecycle.on_handler
     (λ h, ThorlabsCameraHandler.set_is_alive true
             (ThorlabsCameraHandler.print
                ["Starting image acquisition thread..."] h)) s,
   Raise (Exn OtherError "threads can only be started once")).
Proof.
  intros Hth Hst. destruct s as [h calls]. cbn in Hth, Hst.
  unfold Lifecycle.activate_camera_instance.
  unfold bind, gets, modify, raise, Lifecycle.on_handler. cbn.
  rewrite Hth. cbn. by rewrite Hst.
Qed.

Lemma activate_frame s :
  let h := Lifecycle.handler s in
  let s' := (Lifecycle.activate_camera_instance s).1 in
  let h' := Lifecycle.handler s' in
  Lifecycle.sdk_calls s' = Lifecycle.sdk_calls s ∧
  ThorlabsCameraHandler.config h' = ThorlabsCameraHandler.config h ∧
  ThorlabsCameraHandler.signal h' = ThorlabsCameraHandler.signal h ∧
  ThorlabsCameraHandler.shared_queue h' =
    ThorlabsCameraHandler.shared_queue h ∧
  ThorlabsCameraHandler.connected h' = ThorlabsCameraHandler.connected h ∧
  ThorlabsCameraHandler._camera h' = ThorlabsCameraHandler._camera h ∧
  ThorlabsCameraHandler.image_acquisition_thread h' =
    ThorlabsCameraHandler.image_acquisition_thread h ∧
  ThorlabsCameraHandler.is_alive h' = true.
Proof.
  destruct s as [h calls]. cbn zeta.
  unfold Lifecycle.activate_camera_instance.
  unfold bind, gets, modify, raise, Lifecycle.on_handler. cbn.
  destruct (ThorlabsCameraHandler.image_acquisition_thread h) eqn:Hth;
    cbn; [|by rewrite Hth].
  destruct (ThorlabsCameraHandler.thread_started h); cbn; by rewrite Hth.
Qed.

(** Disposing on a handler whose thread runs and whose [Camera] holds an
    opened camera, when the SDK releases everything. *)
Lemma dispose_camera_instance_active denv s th c cam :
  ThorlabsCameraHandler.is_alive (Lifecycle.handler s) = true →
  ThorlabsCameraHandler.image_acquisition_thread (Lifecycle.handler s)
    = Some th →
  ThorlabsCameraHandler.thread_started (Lifecycle.handler s) = true →
  ThorlabsCameraHandler._camera (Lifecycle.handler s) = Some (Some c) →
  Camera.camera c = Some (Some cam) → Camera.sdk c = true →
  disarm denv = Ok tt → camera_dispose denv = Ok tt →
  sdk_dispose denv = Ok tt →
  Lifecycle.dispose_camera_instance denv s =
  ({| Lifecycle.handler :=
        ThorlabsCameraHandler.set_is_alive false
          (ThorlabsCameraHandler.print ["Image thred alive: False"]
             (Lifecycle.handler s));
      Lifecycle.sdk_calls :=
        Lifecycle.sdk_calls s ++ [Disarm; Dispose_camera; Dispose_sdk] |},
   Ok tt).
Proof.
  intros Halive Hth Hst Hcam Hcamera Hsdk Hd1 Hd2 Hd3.
  destruct s as [h calls]. cbn in Halive, Hth, Hst, Hcam.
  unfold Lifecycle.dispose_camera_instance, Lifecycle.dispose.
  unfold bind, gets, modify, raise, ret, call, Lifecycle.on_handler,
    Lifecycle.called.
  cbn. rewrite Halive. cbn. rewrite Hth. cbn. rewrite Hst. cbn.
  rewrite Hcam. cbn. rewrite Hcamera. cbn. rewrite Hd1. cbn.
  rewrite Hd2. cbn. rewrite Hsdk. cbn. rewrite Hd3. cbn.
  by rewrite <- !app_assoc.
Qed.

(** Without a shared queue, [reinitialize] stops before it makes a new
    [Camera]. *)
Lemma reinitialize_without_queue env denv s :
  ThorlabsCameraHandler.shared_queue (Lifecycle.handler s) = None →
  let h := Lifecycle.handler s in
  let s' := (Lifecycle.reinitialize env denv s).1 in
  let r := (Lifecycle.reinitialize env denv s).2 in
  let h' := Lifecycle.handler s' in
  ThorlabsCameraHandler.config h' = ThorlabsCameraHandler.config h ∧
  ThorlabsCameraHandler.signal h' = ThorlabsCameraHandler.signal h ∧
  ThorlabsCameraHandler.shared_queue h' = None ∧
  ThorlabsCameraHandler.connected h' = ThorlabsCameraHandler.connected h ∧
  ThorlabsCameraHandler._camera h' = ThorlabsCameraHandler._camera h ∧
  ThorlabsCameraHandler.image_acquisition_thread h' =
    ThorlabsCameraHandler.image_acquisition_thread h ∧
  ThorlabsCameraHandler.thread_started h' =
    ThorlabsCameraHandler.thread_started h ∧
  (ThorlabsCameraHandler.connected h = true → ∃ e, r = Raise e) ∧
  (ThorlabsCameraHandler.connected h = true →
   (Lifecycle.dispose_camera_instance denv s).2 = Ok tt →
   r = Raise (Lifecycle.no_attribute "NoneType" "mutex") ∧
   Lifecycle.camera_state s' = false).
Proof.
  intros Hq h s' r h'. subst h s' r h'.
  pose proof (dispose_camera_instance_frame denv s) as Hframe.
  cbn zeta in Hframe.
  destruct (Lifecycle.reinitialize env denv s) as [s' r] eqn:Hrun.
  cbn [fst snd]. revert Hrun.
  unfold Lifecycle.reinitialize. unfold bind at 1. unfold gets at 1.
  destruct (ThorlabsCameraHandler.connected (Lifecycle.handler s)) eqn:Hc.
  2: { intros [= <- <-]. by repeat split. }
  destruct (Lifecycle.dispose_camera_instance denv s) as [s1 r1] eqn:Hd.
  cbn [fst snd] in Hframe.
  destruct Hframe as (Hf1 & Hf2 & Hf3 & Hf4 & Hf5 & Hf6 & Hf7 & Hf8).
  destruct r1 as [[]|e1].
  - rewrite (bind_Ok _ _ _ _ _ Hd).
    unfold bind at 1. unfold bind at 1. unfold gets at 1.
    rewrite Hf3, Hq. unfold raise. intros [= <- <-].
    repeat (split; [congruence|]). split; [by eauto|].
    intros _ _. split; [done|]. unfold Lifecycle.camera_state. by apply Hf8.
  - rewrite (bind_Raise _ _ _ _ _ Hd). intros [= <- <-].
    repeat (split; [congruence|]). split; [by eauto|]. by intros _ [=].
Qed.

(** X24. A handler made without a shared queue is never reinitialized:
    whatever it was asked before, [reinitialize] on a connected handler
    raises, after the camera was disposed at the latest with
    AttributeError on the queue, and it leaves the handler with the
    [Camera] and the thread it had and with acquisition stopped. *)
Theorem reinitialize_needs_a_shared_queue env cm sg rs env' denv :
  let s := Lifecycle.session rs (Lifecycle.start env cm None sg) in
  let s' := (Lifecycle.reinitialize env' denv s).1 in
  let r := (Lifecycle.reinitialize env' denv s).2 in
  ThorlabsCameraHandler._camera (Lifecycle.handler s') =
    ThorlabsCameraHandler._camera (Lifecycle.handler s) ∧
  ThorlabsCameraHandler.image_acquisition_thread (Lifecycle.handler s') =
    ThorlabsCameraHandler.image_acquisition_thread (Lifecycle.handler s) ∧
  ThorlabsCameraHandler.connected (Lifecycle.handler s') =
    ThorlabsCameraHandler.connected (Lifecycle.handler s) ∧
  (ThorlabsCameraHandler.connected (Lifecycle.handler s) = true →
   ∃ e, r = Raise e) ∧
  (ThorlabsCameraHandler.connected (Lifecycle.handler s) = true →
   (Lifecycle.dispose_camera_instance denv s).2 = Ok tt →
   r = Raise (Lifecycle.no_attribute "NoneType" "mutex") ∧
   Lifecycle.camera_state s' = false).
Proof.
  intros s s' r.
  assert (ThorlabsCameraHandler.shared_queue (Lifecycle.handler s) = None)
    as Hq.
  { subst s. induction rs as [|r0 rs IH] using rev_ind.
    - cbn. by destruct (Handler_init_cases env cm None sg)
        as (_ & _ & ? & _).
    - rewrite session_snoc.
      destruct r0 as [|denv0|env0 denv0|cm0]; cbn [Lifecycle.serve].
      + destruct (activate_frame (Lifecycle.session rs
                    (Lifecycle.start env cm None sg)))
          as (_ & _ & _ & -> & _). done.
      + destruct (dispose_camera_instance_frame denv0
                    (Lifecycle.session rs (Lifecycle.start env cm None sg)))
          as (_ & _ & -> & _). done.
      + by destruct (reinitialize_without_queue env0 denv0 _ IH)
          as (_ & _ & ? & _).
      + done. }
  destruct (reinitialize_without_queue env' denv s Hq)
    as (_ & _ & _ & Hconn & Hcam & Hth & _ & Hraise & Hmutex).
  done.
Qed.

(** The handler after its construction made a thread and
    [activate_camera_instance] started it. *)
Lemma activated_handler env cm q sg th0 :
  let s0 := Lifecycle.start env cm q sg in
  ThorlabsCameraHandler.image_acquisition_thread (Lifecycle.handler s0)
    = Some th0 →
  let s := (Lifecycle.activate_camera_instance s0).1 in
  let h := Lifecycle.handler s in
  (Lifecycle.activate_camera_instance s0).2 = Ok tt ∧
  Lifecycle.sdk_calls s = [] ∧
  ThorlabsCameraHandler.config h = cm ∧
  ThorlabsCameraHandler.signal h = sg ∧
  ThorlabsCameraHandler.shared_queue h = q ∧
  ThorlabsCameraHandler.connected h = true ∧
  ThorlabsCameraHandler.is_alive h = true ∧
  ThorlabsCameraHandler.thread_started h = true ∧
  ThorlabsCameraHandler.image_acquisition_thread h = Some th0 ∧
  ∃ c cam,
    ThorlabsCameraHandler._camera h = Some (Some c) ∧
    Camera.camera c = Some (Some cam) ∧ Camera.sdk c = true.
Proof.
  intros s0 Hth s h. subst s h.
  destruct (Handler_init_cases env cm q sg)
    as (_ & Hcfg & Hq & Hsg & Halive & Hst & Hconn & Hcases).
  destruct Hcases as [(Hc & Hcam & th' & Hnew & Hth')|
                      [(_ & _ & Hnone & _)|(_ & _ & Hnone)]];
    [|subst s0; cbn in Hth; congruence|subst s0; cbn in Hth; congruence].
  rewrite (activate_fresh s0 th0 Hth Hst). subst s0. cbn.
  repeat (split; [done|]). split; [congruence|].
  repeat (split; [done|]).
  destruct (Camera_init_cases env cm) as (_ & _ & Hcases).
  destruct Hcases as
    [(_ & _ & Hsdk & first & rest & cam & kvs & skvs & _ & _ & Hcamera & _)
    |(Hc' & _)]; [|congruence].
  by exists (Camera.init env cm).1, cam.
Qed.


Lemma reinitialize_steps env denv s s1 q s3 :
  ThorlabsCameraHandler.connected (Lifecycle.handler s) = true →
  Lifecycle.dispose_camera_instance denv s = (s1, Ok tt) →
  ThorlabsCameraHandler.shared_queue (Lifecycle.handler s1) = Some q →
  Lifecycle.initialize_camera env
    (Lifecycle.on_handler (Lifecycle.clear_shared_queue q) s1) =
    (s3, Ok tt) →
  Lifecycle.reinitialize env denv s = Lifecycle.activate_camera_instance s3.
Proof.
  intros Hc Hd Hq Hi. unfold Lifecycle.reinitialize.
  rewrite (bind_Ok _ _ s s true); [|by unfold gets; rewrite Hc].
  rewrite (bind_Ok _ _ _ _ _ Hd).
  erewrite (bind_Ok _ _ s1 _ tt); [by rewrite (bind_Ok _ _ _ _ _ Hi)|].
  rewrite (bind_Ok _ _ s1 s1 (Some q)); [done|].
  unfold gets. by rewrite Hq.
Qed.

(** X25. [reinitialize] on a running handler with a shared queue, when the
    SDK releases the old camera and opens one again: the old camera is
    disarmed and disposed and its SDK released, in this order; the shared
    queue is emptied and keeps its capacity; the new thread puts its
    images in that queue and has been started; the handler holds the
    [Camera] made from the settings as they are at that time. *)
Theorem reinitialize_restarts_on_the_emptied_queue
    env cm q sg th0 denv env' cm' th' :
  let s0 := Lifecycle.start env cm (Some q) sg in
  let emptied := {| maxsize := maxsize q; items := [] |} in
  ThorlabsCameraHandler.image_acquisition_thread (Lifecycle.handler s0)
    = Some th0 →
  disarm denv = Ok tt → camera_dispose denv = Ok tt →
  sdk_dispose denv = Ok tt →
  ThorlabsCameraHandler.image_acquisition_thread
    (Lifecycle.handler (Lifecycle.start env' cm' (Some emptied) sg))
    = Some th' →
  let s := Lifecycle.session [Lifecycle.Activate; Lifecycle.Settings cm'] s0 in
  let s' := (Lifecycle.reinitialize env' denv s).1 in
  let h' := Lifecycle.handler s' in
  (Lifecycle.reinitialize env' denv s).2 = Ok tt ∧
  Lifecycle.sdk_calls s' = [Disarm; Dispose_camera; Dispose_sdk] ∧
  ThorlabsCameraHandler.shared_queue h' = Some emptied ∧
  ThorlabsCameraHandler.image_acquisition_thread h' = Some th' ∧
  get_output_queue th' = emptied ∧
  ThorlabsCameraHandler.thread_started h' = true ∧
  ThorlabsCameraHandler.connected h' = true ∧
  Lifecycle.camera_state s' = true ∧
  ThorlabsCameraHandler._camera h' = Some (Some (Camera.init env' cm').1).
Proof.
  intros s0 emptied Hth Hd1 Hd2 Hd3 Hth' s s' h'. subst s' h' s.
  change (Lifecycle.session _ s0)
    with (Lifecycle.on_handler (Lifecycle.set_config cm')
            (Lifecycle.activate_camera_instance s0).1).
  destruct (activated_handler env cm (Some q) sg th0 Hth)
    as (_ & Hcalls & Hcfg & Hsg & Hq & Hconn & Halive & Hst & Hth1 &
        c & cam & Hcam & Hcamera & Hsdk).
  fold s0 in Hcalls, Hcfg, Hsg, Hq, Hconn, Halive, Hst, Hth1, Hcam.
  destruct (Lifecycle.activate_camera_instance s0).1 as [h1 calls1]. cbn in Hcalls, Hcfg, Hsg, Hq, Hconn, Halive,
    Hst, Hth1, Hcam. subst calls1.
  set (s := Lifecycle.on_handler (Lifecycle.set_config cm')
              {| Lifecycle.handler := h1; Lifecycle.sdk_calls := [] |}).
  (* the new thread, as a fresh construction would make it *)
  destruct (Handler_init_cases env' cm' (Some emptied) sg)
    as (_ & _ & _ & _ & _ & _ & _ & Hcases).
  destruct Hcases as [(Hc' & _ & th'' & Hnew & Hsome)|
                      [(_ & _ & Hnone & _)|(_ & _ & Hnone)]];
    [|cbn in Hth'; congruence|cbn in Hth'; congruence].
  assert (th'' = th') as -> by (cbn in Hth'; congruence).
  (* dispose_camera_instance *)
  pose proof (dispose_camera_instance_active denv s th0 c cam) as Hd.
  cbn in Hd. specialize (Hd Halive Hth1 Hst Hcam Hcamera Hsdk Hd1 Hd2 Hd3).
  match type of Hd with _ = (?x, _) => set (s1 := x) in * end.
  (* initialize_camera on the emptied queue *)
  set (s2 := Lifecycle.on_handler (Lifecycle.clear_shared_queue q) s1).
  pose proof (initialize_camera_cases env' s2) as Hinit. cbn zeta in Hinit.
  destruct (Lifecycle.initialize_camera env' s2) as [s3 r3] eqn:Hrun.
  cbn [fst snd] in Hinit.
  destruct Hinit as (-> & Hcalls3 & Hcfg3 & Hq3 & Hsg3 & Halive3 & Hconn3 &
                     Hcases3).
  assert (ThorlabsCameraHandler.config (Lifecycle.handler s2) = cm')
    as Hcfg2 by done.
  assert (ThorlabsCameraHandler.shared_queue (Lifecycle.handler s2) =
          Some emptied) as Hq2 by done.
  assert (ThorlabsCameraHandler.signal (Lifecycle.handler s2) = sg)
    as Hsg2 by done.
  rewrite Hcfg2 in Hconn3, Hcases3. rewrite Hq2, Hsg2 in Hcases3.
  destruct Hcases3 as [(_ & Hcam3 & Hst3 & th3 & Hnew3 & Hth3)|
                       (_ & _ & [(_ & _ & e & He)|(Hc3 & _)])];
    [|congruence|congruence].
  assert (th3 = th') as -> by congruence.
  rewrite (reinitialize_steps env' denv s s1 q s3);
    [|done|done|done|done].
  rewrite (activate_fresh s3 th' Hth3 Hst3).
  cbn. rewrite Hcalls3, Hq3, Hq2, Hth3, Hconn3, Hc', Hcam3.
  repeat (split; [done|]). split; [|done].
  apply new_thread_made in Hnew as (cam' & _ & -> & _).
  by rewrite ImageAcquisitionThread_init_queue.
Qed.

Lemma reinitialize_restarts_on_the_emptied_queue_witness :
  ThorlabsCameraHandler.shared_queue
    (Lifecycle.handler
       (Lifecycle.reinitialize (sdk_with bayer_camera) releasing
          (Lifecycle.session
             [Lifecycle.Activate;
              Lifecycle.Settings (set_config settings_2500 manager_1000)]
             (Lifecycle.start (sdk_with mono_camera) manager_1000
                (Some (get_output_queue shared_thread_full)) true))).1) =
  Some single_slot.
Proof.
  refine (proj1 (proj2 (proj2
    (reinitialize_restarts_on_the_emptied_queue
       (sdk_with mono_camera) manager_1000
       (get_output_queue shared_thread_full) true
       (ImageAcquisitionThread_init mono_camera
          (Some (get_output_queue shared_thread_full)) true)
       releasing (sdk_with bayer_camera)
       (set_config settings_2500 manager_1000)
       (ImageAcquisitionThread_init bayer_camera (Some single_slot) true)
       _ _ _ _ _)))).
  - vm_compute. reflexivity.
  - reflexivity.
  - reflexivity.
  - reflexivity.
  - vm_compute. reflexivity.
Defined.

(** X26. [reinitialize] on a running handler when the camera is no longer
    found: the old camera is disposed and the queue emptied, the new
    [Camera] does not connect and no thread is made, so
    [activate_camera_instance] starts the old, ended thread again and
    RuntimeError comes out of [reinitialize]. The handler is left not
    connected with [camera_state] True, and every later [reinitialize]
    does nothing. *)
Theorem reinitialize_without_camera_raises
    env cm q sg th0 denv env' :
  let s0 := Lifecycle.start env cm (Some q) sg in
  ThorlabsCameraHandler.image_acquisition_thread (Lifecycle.handler s0)
    = Some th0 →
  disarm denv = Ok tt → camera_dispose denv = Ok tt →
  sdk_dispose denv = Ok tt →
  Camera.is_connected (Camera.init env' cm).1 = false →
  let s := Lifecycle.session [Lifecycle.Activate] s0 in
  let s' := (Lifecycle.reinitialize env' denv s).1 in
  let h' := Lifecycle.handler s' in
  (Lifecycle.reinitialize env' denv s).2 =
    Raise (Exn OtherError "threads can only be started once") ∧
  Lifecycle.sdk_calls s' = [Disarm; Dispose_camera; Dispose_sdk] ∧
  ThorlabsCameraHandler.connected h' = false ∧
  Lifecycle.camera_state s' = true ∧
  ThorlabsCameraHandler.image_acquisition_thread h' = Some th0 ∧
  ThorlabsCameraHandler.shared_queue h' =
    Some {| maxsize := maxsize q; items := [] |} ∧
  ∀ env'' denv'', Lifecycle.reinitialize env'' denv'' s' = (s', Ok tt).
Proof.
  intros s0 Hth Hd1 Hd2 Hd3 Hgone s s' h'. subst s' h' s.
  unfold Camera.is_connected in Hgone.
  change (Lifecycle.session _ s0)
    with (Lifecycle.activate_camera_instance s0).1.
  destruct (activated_handler env cm (Some q) sg th0 Hth)
    as (_ & Hcalls & Hcfg & Hsg & Hq & Hconn & Halive & Hst & Hth1 &
        c & cam & Hcam & Hcamera & Hsdk).
  fold s0 in Hcalls, Hcfg, Hsg, Hq, Hconn, Halive, Hst, Hth1, Hcam.
  set (s := (Lifecycle.activate_camera_instance s0).1) in *. clearbody s.
  pose proof (dispose_camera_instance_active denv s th0 c cam
                Halive Hth1 Hst Hcam Hcamera Hsdk Hd1 Hd2 Hd3) as Hd.
  match type of Hd with _ = (?x, _) => set (s1 := x) in * end.
  set (s2 := Lifecycle.on_handler (Lifecycle.clear_shared_queue q) s1).
  pose proof (initialize_camera_cases env' s2) as Hinit. cbn zeta in Hinit.
  destruct (Lifecycle.initialize_camera env' s2) as [s3 r3] eqn:Hrun.
  cbn [fst snd] in Hinit.
  destruct Hinit as (-> & Hcalls3 & Hcfg3 & Hq3 & Hsg3 & Halive3 & Hconn3 &
                     Hcases3).
  assert (ThorlabsCameraHandler.config (Lifecycle.handler s2) = cm)
    as Hcfg2 by done.
  rewrite Hcfg2 in Hconn3, Hcases3.
  destruct Hcases3 as [(Hc3 & _)|(Hth3 & Hst3 & _)]; [congruence|].
  assert (ThorlabsCameraHandler.image_acquisition_thread
            (Lifecycle.handler s3) = Some th0) as Hth3'.
  { by rewrite Hth3. }
  assert (ThorlabsCameraHandler.thread_started (Lifecycle.handler s3) = true)
    as Hst3'.
  { by rewrite Hst3. }
  rewrite (reinitialize_steps env' denv s s1 q s3);
    [|done|done|done|done].
  rewrite (activate_used s3 th0 Hth3' Hst3').
  cbn [fst snd]. split; [done|].
  assert (Lifecycle.sdk_calls s3 = [Disarm; Dispose_camera; Dispose_sdk])
    as Hcalls3'.
  { rewrite Hcalls3. cbn. by rewrite Hcalls. }
  assert (ThorlabsCameraHandler.shared_queue (Lifecycle.handler s3) =
          Some {| maxsize := maxsize q; items := [] |}) as Hq3'.
  { by rewrite Hq3. }
  destruct s3 as [h3 calls3]. cbn in *.
  repeat (split; [congruence|]).
  intros env'' denv''. unfold Lifecycle.reinitialize.
  unfold bind, gets. cbn. by rewrite Hconn3, Hgone.
Qed.

Lemma reinitialize_without_camera_raises_witness :
  (Lifecycle.reinitialize sdk_without_camera releasing
     (Lifecycle.session [Lifecycle.Activate]
        (Lifecycle.start (sdk_with mono_camera) manager_1000
           (Some single_slot) true))).2 =
  Raise (Exn OtherError "threads can only be started once").
Proof.
  refine (proj1
    (reinitialize_without_camera_raises
       (sdk_with mono_camera) manager_1000 single_slot true
       (ImageAcquisitionThread_init mono_camera (Some single_slot) true)
       releasing sdk_without_camera _ _ _ _ _)).
  - vm_compute. reflexivity.
  - reflexivity.
  - reflexivity.
  - reflexivity.
  - vm_compute. reflexivity.
Defined.

(** * Properties of the path setup *)

Lemma split_not_nil sep s : split sep s ≠ [].
Proof.
  destruct s as [|c s]; cbn; [done|].
  destruct (decide _); [done|]. by destruct (split sep s).
Qed.

Lemma last_item_split sep s :
  last_item (split sep s) = Ok (default EmptyString (last (split sep s))).
Proof.
  unfold last_item. destruct (last (split sep s)) eqn:Hlast; [done|].
  apply last_None in Hlast. by apply split_not_nil in Hlast.
Qed.

Lemma prepended_shift n d pathsep path :
  prepended n d pathsep (d +:+ pathsep +:+ path) =
  d +:+ pathsep +:+ prepended n d pathsep path.
Proof. induction n as [|n IH]; cbn; [done|]. by rewrite IH. Qed.

Section path_setup_facts.

Variable maxsize_ : Z.
Variable sep : ascii.
Variable pathsep : string.
Variable abspath : string → string.
Variable dirname : string → string.
Variable __file__ : string.
Variable os_add_dll_directory : option (string → result unit).

Abbreviation configure_path :=
  (configure_path maxsize_ sep pathsep abspath dirname __file__
     os_add_dll_directory).
Abbreviation dlls_directory :=
  (dlls_directory maxsize_ sep abspath dirname __file__).
Abbreviation configure_path_times :=
  (configure_path_times maxsize_ sep pathsep abspath dirname __file__
     os_add_dll_directory).
Abbreviation import_path_setup :=
  (import_path_setup maxsize_ sep pathsep abspath dirname __file__
     os_add_dll_directory).

(** [configure_path] as one step on the process. *)
Lemma configure_path_unfold p :
  configure_path p =
  match environ p !! "PATH" with
  | None => (p, Raise (Exn OtherError "'PATH'"))
  | Some path =>
      let p1 := putenv "PATH" (dlls_directory +:+ pathsep +:+ path) p in
      match os_add_dll_directory with
      | None => (p1, Ok tt)
      | Some f =>
          match f dlls_directory with
          | Ok _ => (added dlls_directory p1, Ok tt)
          | Raise e =>
              if decide (exn_cls e = AttributeError) then (p1, Ok tt)
              else (p1, Raise e)
          end
      end
  end.
Proof.
  unfold configure_path, dlls_directory.
  unfold bind at 1. unfold call at 1. rewrite last_item_split.
  unfold bind at 1. unfold getenv.
  destruct (environ p !! "PATH") as [path|]; [|done].
  unfold bind, modify, add_dll_directory, raise, call. cbn zeta.
  destruct os_add_dll_directory as [f|]; [|done].
  by destruct (f _) as [[]|e].
Qed.

(** X27. Every call of [configure_path] puts the directory of the DLLs
    in front of PATH once more, whether it is there already or not: after
    [n] calls PATH is the old PATH behind [n] copies of the directory.
    Nothing else in the environment changes, and a missing
    [os.add_dll_directory] does not stop it. *)
Theorem configure_path_prepends_each_time n p path :
  environ p !! "PATH" = Some path →
  (∀ f e, os_add_dll_directory = Some f → f dlls_directory = Raise e →
          exn_cls e = AttributeError) →
  let p' := (configure_path_times n p).1 in
  (configure_path_times n p).2 = Ok tt ∧
  environ p' !! "PATH" = Some (prepended n dlls_directory pathsep path) ∧
  (∀ name, name ≠ "PATH" → environ p' !! name = environ p !! name) ∧
  ∃ k, (k ≤ n)%nat ∧
       dll_directories p' = dll_directories p ++ replicate k dlls_directory.
Proof.
  intros Hpath Hswallow. cbn zeta. revert p path Hpath.
  induction n as [|n IH]; intros p path Hpath.
  { cbn. split; [done|]. split; [done|]. split; [done|].
    exists 0%nat. split; [done|]. by rewrite app_nil_r. }
  change (configure_path_times (S n) p)
    with (bind configure_path (λ _, configure_path_times n) p).
  unfold bind. rewrite configure_path_unfold, Hpath. cbn zeta.
  set (p1 := putenv "PATH" (dlls_directory +:+ pathsep +:+ path) p).
  assert (environ p1 !! "PATH" =
          Some (dlls_directory +:+ pathsep +:+ path)) as Hp1.
  { subst p1. cbn. by rewrite lookup_insert_eq. }
  assert (∀ name, name ≠ "PATH" → environ p1 !! name = environ p !! name)
    as Hother.
  { intros name Hne. subst p1. cbn. by rewrite lookup_insert_ne. }
  destruct os_add_dll_directory as [f|] eqn:Hos.
  - destruct (f dlls_directory) as [[]|e] eqn:Hf.
    + destruct (IH (added dlls_directory p1) _ Hp1)
        as (Hr & Henv & Hrest & k & Hk & Hdirs).
      split; [done|]. rewrite Henv, prepended_shift. split; [done|].
      split; [intros name Hne; by rewrite Hrest, <- Hother|].
      exists (S k). split; [lia|]. rewrite Hdirs. cbn.
      by rewrite <- app_assoc.
    + rewrite decide_True by by apply (Hswallow f e).
      destruct (IH p1 _ Hp1) as (Hr & Henv & Hrest & k & Hk & Hdirs).
      split; [done|]. rewrite Henv, prepended_shift. split; [done|].
      split; [intros name Hne; by rewrite Hrest, <- Hother|].
      exists k. split; [lia|]. by rewrite Hdirs.
  - destruct (IH p1 _ Hp1) as (Hr & Henv & Hrest & k & Hk & Hdirs).
    split; [done|]. rewrite Henv, prepended_shift. split; [done|].
    split; [intros name Hne; by rewrite Hrest, <- Hother|].
    exists k. split; [lia|]. by rewrite Hdirs.
Qed.

(** X28. Without a PATH variable [configure_path] raises KeyError before
    it changes anything, and the import at the head of [ini_camera.py],
    which catches ImportError only, lets it through; a missing
    [path_setup] module is caught there and changes nothing. *)
Theorem configure_path_needs_PATH p :
  environ p !! "PATH" = None →
  configure_path p = (p, Raise (Exn OtherError "'PATH'")) ∧
  import_path_setup true p = (p, Raise (Exn OtherError "'PATH'")) ∧
  import_path_setup false p = (p, Ok false).
Proof.
  intros Hpath. unfold import_path_setup, bind.
  rewrite configure_path_unfold, Hpath. done.
Qed.

(** X29. When [os.add_dll_directory] raises anything but AttributeError,
    for instance because the directory does not exist, the error comes out
    of [configure_path] with PATH already changed and the directory not
    registered. *)
Theorem configure_path_fails_after_changing_PATH p path f e :
  environ p !! "PATH" = Some path →
  os_add_dll_directory = Some f →
  f dlls_directory = Raise e →
  exn_cls e ≠ AttributeError →
  let p' := (configure_path p).1 in
  (configure_path p).2 = Raise e ∧
  environ p' !! "PATH" = Some (dlls_directory +:+ pathsep +:+ path) ∧
  dll_directories p' = dll_directories p.
Proof.
  intros Hpath Hos Hf Hcls. cbn zeta.
  rewrite configure_path_unfold, Hpath. cbn zeta. rewrite Hos, Hf.
  rewrite decide_False by done. cbn. by rewrite lookup_insert_eq.
Qed.

End path_setup_facts.

Lemma configure_path_prepends_each_time_witness :
  environ
    (configure_path_times 9223372036854775807 "\"%char ";"
       abspath_here dirname_here "path_setup.py" None 2 windows_process).1
    !! "PATH" =
  Some "C:\thorcam\thorcam\dlls\64_lib;C:\thorcam\thorcam\dlls\64_lib;C:\Windows".
Proof.
  refine (proj1 (proj2
    (configure_path_prepends_each_time 9223372036854775807 "\"%char ";"
       abspath_here dirname_here "path_setup.py" None 2 windows_process
       "C:\Windows" _ _))).
  - vm_compute. reflexivity.
  - intros f e Hnone. discriminate Hnone.
Defined.

Lemma configure_path_needs_PATH_witness :
  import_path_setup 9223372036854775807 "\"%char ";"
    abspath_here dirname_here "path_setup.py" None true bare_process =
  (bare_process, Raise (Exn OtherError "'PATH'")).
Proof.
  refine (proj1 (proj2
    (configure_path_needs_PATH 9223372036854775807 "\"%char ";"
       abspath_here dirname_here "path_setup.py" None bare_process _))).
  vm_compute. reflexivity.
Defined.

Lemma configure_path_fails_after_changing_PATH_witness :
  environ
    (configure_path 9223372036854775807 "\"%char ";"
       abspath_here dirname_here "path_setup.py" (Some no_such_directory)
       windows_process).1 !! "PATH" =
  Some "C:\thorcam\thorcam\dlls\64_lib;C:\Windows".
Proof.
  refine (proj1 (proj2
    (configure_path_fails_after_changing_PATH 9223372036854775807
       "\"%char ";" abspath_here dirname_here "path_setup.py"
       (Some no_such_directory) windows_process "C:\Windows"
       no_such_directory
       (Exn FileNotFoundError "The system cannot find the file specified")
       _ _ _ _))).
  - vm_compute. reflexivity.
  - reflexivity.
  - reflexivity.
  - discriminate.
Defined.
